(** * Hybrid retrieval pipeline of [server/utils/query.ts]

    A shallow embedding of the query side of the application: query
    expansion ([rewriteToQueries]), the lexical adapter
    ([searchDocumentChunks]), Reciprocal Rank Fusion
    ([performReciprocalRankFusion]), context assembly
    ([getRelevantDocuments], [formatContext]), the coordinator
    ([processUserQuery]) and the API handler.

    The repository holds a second variant of the module (the unnamed file
    whose functions have the same names).  Its rank fusion and its
    formatting of the context are the same code; its stage functions have
    no [try]/[catch] and its coordinator has no input checks.  The
    embedding follows [server/utils/query.ts]; the variant and the
    streaming handler that calls its coordinator are embedded apart, in
    the module [Variant].

    Conventions of the embedding.
    - A JavaScript string is the list of its UTF-16 code units.
    - A JavaScript number is an IEEE 754 binary64 value, the kernel's
      primitive [float]; the arithmetic the code uses is collected in the
      class [Number] so that the same definitions can also be read in exact
      rational arithmetic ([Qc]).  An array index is below 2^32, so its
      conversion to a number is exact.
    - A plain object used as a dictionary keeps its own properties in
      creation order; [Object.entries] lists array-index keys first.  Keys
      are chunk ids; the names a plain object inherits from its prototype
      (such as [constructor]) are not chunk ids.
    - [Array.prototype.sort] is stable; with a consistent comparator its
      result is the one of a stable insertion sort.
    - The external collaborators (models, vector index, database) are
      functions of their arguments that return a value or throw.
    - [await Promise.all] over a list runs every member; when several
      members throw, the rejection that propagates is taken to be the
      one of the first member in list order (JavaScript takes the one
      that settles first).
    - [console.error] is not an effect of the model. *)

From Stdlib Require Import List Bool Arith ZArith NArith Lia.
From Stdlib Require Import String Ascii DecimalString.
From Stdlib Require Import Floats Zpower.
From Stdlib Require Uint63.
From Stdlib Require Import QArith Qcanon.
From Stdlib Require Import Permutation Sorted RelationClasses.
Import ListNotations.

Local Close Scope Qc_scope.
Local Close Scope Q_scope.
Local Open Scope N_scope.
Local Open Scope list_scope.

Set Implicit Arguments.

(* ================================================================== *)
(** * JavaScript values *)
(* ================================================================== *)

Module JS.

(** ** Strings *)

Definition code_unit := N.
Definition jsstring := list code_unit.

(** A string literal of the source, as code units. *)
Definition js (s : string) : jsstring :=
  map N_of_ascii (list_ascii_of_string s).

Definition LF : code_unit := 10.
Definition QUOTE : code_unit := 34.

Definition str_eqb (a b : jsstring) : bool :=
  if list_eq_dec N.eq_dec a b then true else false.

(** [!s] is false exactly for a non-empty string. *)
Definition str_truthy (s : jsstring) : bool :=
  match s with [] => false | _ :: _ => true end.

(** The regular-expression class [\s], which is also what
    [String.prototype.trim] strips: WhiteSpace and LineTerminator. *)
Definition is_space (c : code_unit) : bool :=
  existsb (N.eqb c)
    [9; 10; 11; 12; 13; 32; 160; 5760; 8232; 8233; 8239; 8287; 12288; 65279]
  || ((8192 <=? c) && (c <=? 8202)).

(** The regular-expression class [\w]: [A-Za-z0-9_]. *)
Definition is_word (c : code_unit) : bool :=
  ((48 <=? c) && (c <=? 57)) || ((65 <=? c) && (c <=? 90))
  || (c =? 95) || ((97 <=? c) && (c <=? 122)).

Fixpoint trimStart (s : jsstring) : jsstring :=
  match s with
  | c :: s' => if is_space c then trimStart s' else s
  | [] => []
  end.

Definition trimEnd (s : jsstring) : jsstring := rev (trimStart (rev s)).

Definition trim (s : jsstring) : jsstring := trimEnd (trimStart s).

(** [s.split(sep)] for a one-code-unit separator: never the empty list. *)
Fixpoint split (sep : code_unit) (s : jsstring) : list jsstring :=
  match s with
  | [] => [[]]
  | c :: s' =>
      if c =? sep then [] :: split sep s'
      else match split sep s' with
           | l :: ls => (c :: l) :: ls
           | [] => [[c]]
           end
  end.

(** [l.join(sep)]. *)
Fixpoint join (sep : jsstring) (l : list jsstring) : jsstring :=
  match l with
  | [] => []
  | x :: l' =>
      match l' with
      | [] => x
      | _ :: _ => x ++ sep ++ join sep l'
      end
  end.

(** [String(n)] for a non-negative integer. *)
Definition decimal (n : nat) : jsstring :=
  js (NilEmpty.string_of_uint (Nat.to_uint n)).

(** ** Numbers *)

Class Number (num : Type) : Type := {
  of_nat : nat -> num;        (* an integer literal or array index *)
  add : num -> num -> num;
  sub : num -> num -> num;
  div : num -> num -> num;
  positive : num -> bool;     (* [x > 0] *)
  falsy : num -> bool         (* [!x]: zero or NaN *)
}.

(** IEEE 754 binary64, the numbers of the program. *)
#[export] Instance float64 : Number float := {
  of_nat n := PrimFloat.of_uint63 (Uint63.of_Z (Z.of_nat n));
  add := PrimFloat.add;
  sub := PrimFloat.sub;
  div := PrimFloat.div;
  positive x := PrimFloat.ltb PrimFloat.zero x;
  falsy x := PrimFloat.eqb x PrimFloat.zero || PrimFloat.is_nan x
}.

(** Exact rational arithmetic, the reading in which no sum is rounded. *)
#[export] Instance exact : Number Qc := {
  of_nat n := Q2Qc (inject_Z (Z.of_nat n));
  add := Qcplus;
  sub := Qcminus;
  div := Qcdiv;
  positive x := match Qccompare (Q2Qc 0) x with Lt => true | _ => false end;
  falsy x := Qc_eq_bool x (Q2Qc 0)
}.

(** [v || 0] for a property that may be absent. *)
Definition or_zero {num} `{Number num} (v : option num) : num :=
  match v with
  | Some s => if falsy s then of_nat 0 else s
  | None => of_nat 0
  end.

(** ** Objects used as dictionaries *)

Section Object.
Variable V : Type.

(** Own properties, in creation order; no key twice. *)
Definition object := list (jsstring * V).

Fixpoint get (k : jsstring) (o : object) : option V :=
  match o with
  | [] => None
  | (k', v) :: o' => if str_eqb k k' then Some v else get k o'
  end.

(** [o[k] = v]: an existing property keeps its place. *)
Fixpoint set (k : jsstring) (v : V) (o : object) : object :=
  match o with
  | [] => [(k, v)]
  | (k', v') :: o' =>
      if str_eqb k k' then (k', v) :: o' else (k', v') :: set k v o'
  end.

Definition is_digit (c : code_unit) : bool := (48 <=? c) && (c <=? 57).

(** The array index a key denotes, if it is a canonical numeric string
    below 2^32 - 1. *)
Definition array_index (k : jsstring) : option N :=
  match k with
  | [] => None
  | c :: k' =>
      if forallb is_digit k && negb ((c =? 48) && str_truthy k') then
        let n := fold_left (fun a d => 10 * a + (d - 48)) k 0 in
        if n <=? 4294967294 then Some n else None
      else None
  end.

Fixpoint insert_index (n : N) (e : jsstring * V)
    (l : list (N * (jsstring * V))) : list (N * (jsstring * V)) :=
  match l with
  | [] => [(n, e)]
  | (m, e') :: l' =>
      if n <=? m then (n, e) :: l else (m, e') :: insert_index n e l'
  end.

Fixpoint index_entries (o : object) : list (N * (jsstring * V)) :=
  match o with
  | [] => []
  | e :: o' =>
      match array_index (fst e) with
      | Some n => insert_index n e (index_entries o')
      | None => index_entries o'
      end
  end.

Definition named_entries (o : object) : object :=
  filter (fun e => match array_index (fst e) with
                   | Some _ => false | None => true end) o.

(** [Object.entries(o)]: array-index keys in ascending numeric order,
    then the other keys in creation order. *)
Definition entries (o : object) : list (jsstring * V) :=
  map snd (index_entries o) ++ named_entries o.
End Object.

(** ** Arrays *)

Section Array.
Variable A : Type.

(** [l.forEach((x, index) => ...)] threading the state the callback
    mutates. *)
Fixpoint forEach (S : Type) (f : S -> A -> nat -> S) (l : list A)
    (index : nat) (s : S) : S :=
  match l with
  | [] => s
  | x :: l' => forEach f l' (Datatypes.S index) (f s x index)
  end.

(** [l.sort(cmp)], where [after x y] says that the comparator is
    positive at [(x, y)], that is, [x] is to come after [y]. *)
Variable after : A -> A -> bool.

Fixpoint insert (x : A) (l : list A) : list A :=
  match l with
  | [] => [x]
  | y :: l' => if after x y then y :: insert x l' else x :: l
  end.

Definition sort (l : list A) : list A := fold_right insert [] l.

(** [x] may stand directly before [y]: the comparator does not ask for the
    opposite order. *)
Definition in_order (x y : A) : Prop := after x y = false.
End Array.

End JS.
Import JS.
(* ================================================================== *)
(** * Data model of query.ts *)
(* ================================================================== *)

(** A row or match decoded from an external answer is not checked against
    its TypeScript type: the code guards [id] with [?.], so [id] may be
    absent ([None] also stands for a hit that is itself null). *)

Module VectorizeMatch.
Record t (num : Type) : Type := { id : option jsstring; score : num }.
End VectorizeMatch.

Module VectorizeMatches.
Record t (num : Type) : Type :=
  { matches : option (list (VectorizeMatch.t num)) }.
End VectorizeMatches.

Module DocumentChunk.
Record t : Type := {
  id : jsstring;
  text : jsstring;
  documentId : jsstring;
  sessionId : jsstring
}.
End DocumentChunk.

(** [DocumentChunk & { rank: number }], as the full-text query returns it. *)
Module DocumentChunkResult.
Record t (num : Type) : Type := {
  id : option jsstring;
  text : jsstring;
  documentId : jsstring;
  sessionId : jsstring;
  rank : option num
}.
End DocumentChunkResult.

Module RankedResult.
Record t (num : Type) : Type := { id : jsstring; score : num }.
End RankedResult.

(** [RoleScopedChatInput]. *)
Module Message.
Inductive role := system | user | assistant | tool.
Record t : Type := { role_of : role; content : jsstring }.
End Message.

Module QueryProcessingResult.
Record t : Type := {
  messages : list Message.t;
  relevantDocs : list DocumentChunk.t;
  queries : list jsstring
}.
End QueryProcessingResult.

(** The body of a request, as [readBody] yields it: either field may be
    missing. *)
Module Request.
Record t : Type := {
  sessionId : option jsstring;
  messages : option (list Message.t)
}.
End Request.

Definition SYSTEM_MESSAGE : jsstring :=
  js "You are a helpful assistant that answers questions based on the provided context. 
When giving a response, always cite your sources using the format [1], [2], etc. corresponding to the document chunks provided.".

(* ================================================================== *)
(** * Effects: thrown values, the event sink, external calls *)
(* ================================================================== *)

(** A thrown value: an [Error] with its message, or anything else. *)
Inductive exn := Error (message : jsstring) | Thrown.

(** [error instanceof Error ? error.message : 'Unknown error']. *)
Definition message_of (e : exn) : jsstring :=
  match e with Error m => m | Thrown => js "Unknown error" end.

Inductive outcome (A : Type) : Type :=
| Ok (a : A)
| Throw (e : exn).
Arguments Ok {A} a.
Arguments Throw {A} e.

(** The objects handed to [streamResponse]. *)
Inductive event :=
| Progress (message : jsstring)
| ProgressQueries (message : jsstring) (queries : list jsstring)
| ProgressFound (message : jsstring) (found : nat)
| ErrorEvent (error : jsstring)
| ChunkEvent (chunk : jsstring).

(** The external services a request can reach. *)
Inductive service := Model | Embedding | VectorIndex | FullText | Storage.

(** What a run does to the outside, in order. *)
Inductive effect :=
| Emit (e : event)       (* streamResponse(e) *)
| Call (s : service)     (* a request to a collaborator *)
| Close.                 (* eventStream.close() *)

(** A computation: its outcome and the effects it performed. *)
Definition M (A : Type) : Type := (outcome A * list effect)%type.

Definition ret {A} (a : A) : M A := (Ok a, []).
Definition throw {A} (e : exn) : M A := (Throw e, []).

Definition bind {A B} (m : M A) (f : A -> M B) : M B :=
  match m with
  | (Ok a, t) => let (r, t') := f a in (r, t ++ t')
  | (Throw e, t) => (Throw e, t)
  end.

(** [try { m } catch (e) { h e }]. *)
Definition try_catch {A} (m : M A) (h : exn -> M A) : M A :=
  match m with
  | (Ok a, t) => (Ok a, t)
  | (Throw e, t) => let (r, t') := h e in (r, t ++ t')
  end.

Definition streamResponse (e : event) : M unit := (Ok tt, [Emit e]).

(** A request to service [s] whose answer is [r]. *)
Definition call {A} (s : service) (r : outcome A) : M A := (r, [Call s]).

Declare Scope js_scope.
Delimit Scope js_scope with js_m.
Notation "x <- m ;; k" := (bind m (fun x => k))
  (at level 61, m at next level, right associativity) : js_scope.
Notation "m ;;; k" := (bind m (fun _ => k))
  (at level 61, right associativity) : js_scope.
Local Open Scope js_scope.

(** [await Promise.all(l.map(f))]: [map] starts every member, so the
    effects of all of them take place; the result is the list of their
    values, or the rejection of the first member in list order that
    throws. *)
Fixpoint Promise_all {A B} (f : A -> M B) (l : list A) : M (list B) :=
  match l with
  | [] => ret []
  | x :: l' =>
      let (r, t) := f x in
      let (rs, t') := Promise_all f l' in
      (match r, rs with
       | Ok y, Ok ys => Ok (y :: ys)
       | Throw e, _ => Throw e
       | Ok _, Throw e => Throw e
       end, t ++ t')
  end.

Definition outcome_of {A} (m : M A) : outcome A := fst m.
Definition trace_of {A} (m : M A) : list effect := snd m.

(** The events a trace hands to the sink, in order. *)
Fixpoint events_of (t : list effect) : list event :=
  match t with
  | [] => []
  | Emit e :: t' => e :: events_of t'
  | _ :: t' => events_of t'
  end.

(** The services a trace reached, in order. *)
Fixpoint calls_of (t : list effect) : list service :=
  match t with
  | [] => []
  | Call s :: t' => s :: calls_of t'
  | _ :: t' => calls_of t'
  end.

Definition is_error (e : event) : bool :=
  match e with ErrorEvent _ => true | _ => false end.
Definition is_chunk (e : event) : bool :=
  match e with ChunkEvent _ => true | _ => false end.

Definition error_events (t : list effect) : list event :=
  filter is_error (events_of t).
Definition chunk_events (t : list effect) : list event :=
  filter is_chunk (events_of t).

(** A computation that emits no event: it performs calls only. *)
Definition silent {A} (m : M A) : Prop := events_of (trace_of m) = [].

(** [l.map((x, idx) => f x idx)], counting from [idx]. *)
Fixpoint map_index {A B} (f : A -> nat -> B) (l : list A) (idx : nat)
    : list B :=
  match l with
  | [] => []
  | x :: l' => f x idx :: map_index f l' (S idx)
  end.

(* ================================================================== *)
(** * The functions of query.ts *)
(* ================================================================== *)

Section Query.
Context {num : Type} {NUM : Number num}.

(** An embedding vector. *)
Definition vector := list num.

(** The external collaborators, each a function of what the code sends. *)
Record Collaborators : Type := {
  (* useAI().run('@cf/meta/llama-3.1-8b-instruct', { model, prompt }):
     the [response] field of the answer, which may be missing *)
  AI_run : jsstring -> outcome (option jsstring);
  (* useAI().generateEmbeddings([q]), then [.data[0]] *)
  AI_generateEmbeddings : jsstring -> outcome vector;
  (* useAI().run('@cf/baai/bge-large-en-v1.5', { text: [q] }), then
     [.data[0]] *)
  AI_run_embedding : jsstring -> outcome vector;
  (* useVectorize().query(vector, { topK: 5, ..., filter: { sessionId } }) *)
  Vectorize_query : vector -> jsstring -> outcome (VectorizeMatches.t num);
  (* useDrizzle().run(sql`... MATCH ${sanitizedTerm} ... LIMIT 5`): the
     [results] field of the answer, which may be missing *)
  Drizzle_run : jsstring -> outcome (option (list (DocumentChunkResult.t num)));
  (* useDrizzle().select(...).from(documentChunks).where(inArray(id, ids)) *)
  Drizzle_select : list jsstring -> outcome (list DocumentChunk.t);
  (* useAI().run(model, { messages, stream: true }) and the reads of its
     stream: the decoded chunks, then the end or a failure *)
  AI_run_stream : list Message.t -> outcome (list jsstring * option exn)
}.

Variable env : Collaborators.

(** ** rewriteToQueries *)

Definition rewrite_prompt (content : jsstring) : jsstring :=
  js "Given the following user message, generate 5 distinct search queries that cover different aspects of the message.
Each query should be a concise phrase optimized for information retrieval. Return one query per line.

User message: " ++ [QUOTE] ++ content ++ [QUOTE] ++ js "

Generated queries:".

Definition usable_lines (response : jsstring) : list jsstring :=
  firstn 5 (filter (fun q => (0 <? List.length q)%nat)
              (map trim (split LF response))).

Definition rewriteToQueries (content : jsstring) : M (list jsstring) :=
  try_catch
    (response <- call Model (AI_run env (rewrite_prompt content)) ;;
     match response with
     | Some response => ret (usable_lines response)
     | None =>
         (* [response.split] on undefined *)
         throw (Error (js "Cannot read properties of undefined (reading 'split')"))
     end)
    (fun _ => ret [content]).

(** ** searchDocumentChunks *)

(** [term.trim().replace(/[^\w\s]/g, '')]. *)
Definition sanitize (term : jsstring) : jsstring :=
  filter (fun c => is_word c || is_space c) (trim term).

(** [x ?? 0]. *)
Definition nullish_zero (x : option num) : num :=
  match x with Some r => r | None => of_nat 0 end.

(** The comparator [(a, b) => (b.rank ?? 0) - (a.rank ?? 0)] is positive. *)
Definition rank_after (a b : DocumentChunkResult.t num) : bool :=
  positive (sub (nullish_zero (DocumentChunkResult.rank b))
                (nullish_zero (DocumentChunkResult.rank a))).

Definition searchDocumentChunks (searchTerms : list jsstring)
    : M (list (DocumentChunkResult.t num)) :=
  try_catch
    (let queries := map sanitize searchTerms in
     results <- Promise_all
                  (fun query =>
                     results <- call FullText (Drizzle_run env query) ;;
                     ret (match results with
                          | Some rows => rows
                          | None => []
                          end))
                  queries ;;
     ret (firstn 10 (sort rank_after (List.concat results))))
    (fun _ => ret []).

(** ** performReciprocalRankFusion *)

Definition RANKING_CONSTANT : num := of_nat 60.

(** [1 / (RANKING_CONSTANT + index + 1)]. *)
Definition rank_score (index : nat) : num :=
  div (of_nat 1) (add (add RANKING_CONSTANT (of_nat index)) (of_nat 1)).

(** The body of both [forEach] callbacks:
    [if (!hit?.id) return; scores[id] = (scores[id] || 0) + score]. *)
Definition accumulate (scores : object num) (id : option jsstring)
    (index : nat) : object num :=
  match id with
  | Some k =>
      if str_truthy k
      then set k (add (or_zero (get k scores)) (rank_score index)) scores
      else scores
  | None => scores
  end.

Definition accumulate_matches (scores : object num)
    (result : VectorizeMatches.t num) : object num :=
  match VectorizeMatches.matches result with
  | Some ms =>
      forEach (fun s m index => accumulate s (VectorizeMatch.id m) index)
              ms 0%nat scores
  | None => scores
  end.

Definition fused_scores (fullTextResults : list (DocumentChunkResult.t num))
    (vectorResults : list (VectorizeMatches.t num)) : object num :=
  let scores : object num := [] in
  let scores :=
    forEach (fun s r index => accumulate s (DocumentChunkResult.id r) index)
            fullTextResults 0%nat scores in
  fold_left accumulate_matches vectorResults scores.

(** The comparator [(a, b) => b.score - a.score] is positive. *)
Definition score_after (a b : RankedResult.t num) : bool :=
  positive (sub (RankedResult.score b) (RankedResult.score a)).

Definition performReciprocalRankFusion
    (fullTextResults : list (DocumentChunkResult.t num))
    (vectorResults : list (VectorizeMatches.t num))
    : list (RankedResult.t num) :=
  sort score_after
    (map (fun e => {| RankedResult.id := fst e; RankedResult.score := snd e |})
         (entries (fused_scores fullTextResults vectorResults))).

(** ** queryVectorIndex (defined in query.ts, not called there) *)

Definition queryVectorIndex (queries : list jsstring) (sessionId : jsstring)
    : M (list (VectorizeMatches.t num)) :=
  try_catch
    (queryVectors <- Promise_all
                       (fun q => call Embedding (AI_run_embedding env q))
                       queries ;;
     Promise_all
       (fun qv => call VectorIndex (Vectorize_query env qv sessionId))
       queryVectors)
    (fun _ => ret []).

(** ** getRelevantDocuments and formatContext *)

Definition getRelevantDocuments (ids : list jsstring)
    : M (list DocumentChunk.t) :=
  match ids with
  | [] => ret []
  | _ :: _ =>
      try_catch (call Storage (Drizzle_select env ids)) (fun _ => ret [])
  end.

(** The template [`[${idx + 1}]: ${doc.text}`]. *)
Definition citation (doc : DocumentChunk.t) (idx : nat) : jsstring :=
  js "[" ++ decimal (idx + 1) ++ js "]: " ++ DocumentChunk.text doc.

Definition formatContext (docs : list DocumentChunk.t) : jsstring :=
  join [LF; LF] (map_index citation docs 0%nat).

(** ** processUserQuery *)

Definition systemMessage : Message.t :=
  {| Message.role_of := Message.system; Message.content := SYSTEM_MESSAGE |}.

Definition contextMessage (context : jsstring) : Message.t :=
  {| Message.role_of := Message.assistant;
     Message.content := js "Context from documents:" ++ [LF] ++ context |}.

(** The fan-out of the vector source, written inline in
    [processUserQuery]. *)
Definition vectorSearch (queries : list jsstring) (sessionId : jsstring)
    : M (list (VectorizeMatches.t num)) :=
  Promise_all
    (fun q =>
       vector <- call Embedding (AI_generateEmbeddings env q) ;;
       call VectorIndex (Vectorize_query env vector sessionId))
    queries.

Definition processUserQuery (request : Request.t)
    : M QueryProcessingResult.t :=
  try_catch
    (match Request.sessionId request with
     | None => throw (Error (js "Session ID is required"))
     | Some sessionId =>
     if negb (str_truthy sessionId)
     then throw (Error (js "Session ID is required")) else
     match Request.messages request with
     | None | Some [] => throw (Error (js "No messages provided"))
     | Some ((m :: ms) as messages) =>
     let lastMessage := last ms m in
     if negb (str_truthy (Message.content lastMessage))
     then throw (Error (js "Last message has no content")) else
     let messages := systemMessage :: messages in
     streamResponse (Progress (js "Analyzing query...")) ;;;
     let query := Message.content lastMessage in
     queries <- rewriteToQueries query ;;
     streamResponse (ProgressQueries (js "Searching documents...") queries) ;;;
     textResults <- searchDocumentChunks queries ;;
     vectorResults <- vectorSearch queries sessionId ;;
     let rankedResults :=
       performReciprocalRankFusion textResults vectorResults in
     let topIds := map (@RankedResult.id num) (firstn 10 rankedResults) in
     relevantDocs <- getRelevantDocuments topIds ;;
     streamResponse
       (ProgressFound (js "Compiling context...") (List.length relevantDocs)) ;;;
     let context := formatContext relevantDocs in
     let messages := messages ++ [contextMessage context] in
     ret {| QueryProcessingResult.messages := messages;
            QueryProcessingResult.relevantDocs := relevantDocs;
            QueryProcessingResult.queries := queries |}
     end
     end)
    (fun error =>
       streamResponse
         (ErrorEvent (js "Processing failed: " ++ message_of error)) ;;;
       throw error).

(** ** The API handler *)

Definition close : M unit := (Ok tt, [Close]).

Fixpoint relay (chunks : list jsstring) : M unit :=
  match chunks with
  | [] => ret tt
  | chunk :: rest => streamResponse (ChunkEvent chunk) ;;; relay rest
  end.

Definition handler (body : Request.t) : M unit :=
  try_catch
    (result <- processUserQuery body ;;
     llmResponse <- call Model
                      (AI_run_stream env (QueryProcessingResult.messages result)) ;;
     relay (fst llmResponse) ;;;
     match snd llmResponse with
     | Some e => throw e
     | None => close
     end)
    (fun error =>
       streamResponse
         (ErrorEvent (js "Failed to process query: " ++ message_of error)) ;;;
       close).

End Query.

(* ================================================================== *)
(** * Vocabulary of the statements *)
(* ================================================================== *)

Section StageTerms.
Context {num : Type} {NUM : Number num}.
Variable env : @Collaborators num.

(** What [rewriteToQueries] returns, as a function of the model's answer. *)
Definition expanded_queries (content : jsstring) : list jsstring :=
  match AI_run env (rewrite_prompt content) with
  | Ok (Some response) => usable_lines response
  | Ok None | Throw _ => [content]
  end.

(** The rows one full-text query contributes when it does not throw. *)
Definition rows_of (term : jsstring) : list (DocumentChunkResult.t num) :=
  match Drizzle_run env (sanitize term) with
  | Ok (Some rows) => rows
  | Ok None | Throw _ => []
  end.

(** The full-text query for [term] throws. *)
Definition lexical_fails (term : jsstring) : Prop :=
  exists e, Drizzle_run env (sanitize term) = Throw e.

(** The full-text index has nothing for the empty term: the query throws
    (a syntax error of the MATCH expression) or yields no rows. *)
Definition empty_term_yields_nothing : Prop :=
  match Drizzle_run env [] with
  | Ok (Some rows) => rows = []
  | Ok None | Throw _ => True
  end.

(** What [getRelevantDocuments] returns. *)
Definition fetched (ids : list jsstring) : list DocumentChunk.t :=
  match ids with
  | [] => []
  | _ :: _ => match Drizzle_select env ids with
              | Ok docs => docs
              | Throw _ => []
              end
  end.

(** The request passes the three input checks of [processUserQuery];
    [query] is the content of its last message. *)
Definition accepted (request : Request.t) (sid : jsstring)
    (msgs : list Message.t) (query : jsstring) : Prop :=
  Request.sessionId request = Some sid /\ str_truthy sid = true /\
  Request.messages request = Some msgs /\
  (exists m ms, msgs = m :: ms /\ query = Message.content (last ms m)) /\
  str_truthy query = true.

(** The message of the error the input checks throw, if any. *)
Definition rejection (request : Request.t) : option jsstring :=
  match Request.sessionId request with
  | None => Some (js "Session ID is required")
  | Some sid =>
      if negb (str_truthy sid) then Some (js "Session ID is required") else
      match Request.messages request with
      | None | Some [] => Some (js "No messages provided")
      | Some (m :: ms) =>
          if negb (str_truthy (Message.content (last ms m)))
          then Some (js "Last message has no content") else None
      end
  end.

(** The ids [processUserQuery] hands to the context assembler. *)
Definition top_ids (text : list (DocumentChunkResult.t num))
    (vr : list (VectorizeMatches.t num)) : list jsstring :=
  map (@RankedResult.id num) (firstn 10 (performReciprocalRankFusion text vr)).

(** The three progress events of a run that reaches the end. *)
Definition progress_events (queries : list jsstring) (found : nat)
    : list event :=
  [Progress (js "Analyzing query...");
   ProgressQueries (js "Searching documents...") queries;
   ProgressFound (js "Compiling context...") found].

End StageTerms.

(** A field of the request body is missing or empty. *)
Definition missing_or_empty {A} (x : option (list A)) : Prop :=
  x = None \/ x = Some [].

(** ** Context assembly *)

(** The documents of [docs] arranged in the order of [ids]: the reading
    of the specification, "the corresponding chunk texts in the same
    order" as the identifiers. *)
Definition rank_order (ids : list jsstring) (docs : list DocumentChunk.t)
    : list DocumentChunk.t :=
  flat_map
    (fun id => filter (fun d => str_eqb (DocumentChunk.id d) id) docs) ids.

Definition spec_context (ids : list jsstring) (docs : list DocumentChunk.t)
    : jsstring :=
  formatContext (rank_order ids docs).

(** ** Rank fusion *)

Section FusionTerms.
Context {num : Type} {NUM : Number num}.

(** A source list, reduced to the ids of its hits in order. *)
Definition source := list (option jsstring).

Definition hit_ids (fullTextResults : list (DocumentChunkResult.t num))
    : source :=
  map (@DocumentChunkResult.id num) fullTextResults.

Definition match_ids (result : VectorizeMatches.t num) : source :=
  match VectorizeMatches.matches result with
  | Some ms => map (@VectorizeMatch.id num) ms
  | None => []
  end.

(** The source lists in the order the function processes them. *)
Definition sources (fullTextResults : list (DocumentChunkResult.t num))
    (vectorResults : list (VectorizeMatches.t num)) : list source :=
  hit_ids fullTextResults :: map match_ids vectorResults.

Definition accumulate_source (scores : object num) (l : source)
    : object num :=
  forEach accumulate l 0%nat scores.

(** The accumulated mapping, as a function of the source lists. *)
Definition fuse (ss : list source) : object num :=
  fold_left accumulate_source ss [].

(** [!hit?.id]. *)
Definition id_falsy (id : option jsstring) : bool :=
  match id with
  | Some k => negb (str_truthy k)
  | None => true
  end.

(** The zero-based positions, counted from [index], at which [k] is the
    id. *)
Fixpoint positions (k : jsstring) (l : source) (index : nat) : list nat :=
  match l with
  | [] => []
  | Some k' :: l' =>
      if str_eqb k k' then index :: positions k l' (S index)
      else positions k l' (S index)
  | None :: l' => positions k l' (S index)
  end.

(** The positions of [k] in all source lists, in processing order. *)
Definition occurrences (k : jsstring) (ss : list source) : list nat :=
  flat_map (fun l => positions k l 0%nat) ss.

(** The running sum [(acc || 0) + 1 / (60 + i + 1)] over the positions
    [i], from the left; [None] is the absent property. *)
Definition summed (v : option num) (ps : list nat) : option num :=
  fold_left (fun acc p => Some (add (or_zero acc) (rank_score p))) ps v.

(** The terms [1 / (60 + i + 1)] of the positions [ps], added from the
    left. *)
Definition total (ps : list nat) : num :=
  match ps with
  | [] => of_nat 0
  | p :: ps' =>
      fold_left (fun acc q => add acc (rank_score q)) ps' (rank_score p)
  end.

(** Only non-empty ids are keys, and no key is repeated. *)
Definition well_keyed (s : object num) : Prop :=
  NoDup (map fst s) /\ Forall (fun k => str_truthy k = true) (map fst s).

(** [a] may stand directly before [b] in the output: the comparator
    [b.score - a.score] is not positive, that is, [b] does not score
    higher than [a]. *)
Definition score_descending (a b : RankedResult.t num) : Prop :=
  score_after a b = false.

End FusionTerms.

(** A binary64 value that is not NaN and whose sign bit is clear: +0, a
    positive finite number or +infinity. *)
Definition sf_nonneg (x : spec_float) : Prop :=
  match x with
  | S754_zero false | S754_infinity false | S754_finite false _ _ => True
  | _ => False
  end.

Definition nonneg (x : float) : Prop := sf_nonneg (Prim2SF x).

(** A binary64 value that is greater than zero. *)
Definition sf_pos (x : spec_float) : Prop :=
  SFltb (S754_zero false) x = true.

(** The sum of the terms [1 / (60 + i + 1)] in exact arithmetic. *)
Definition exact_total (ps : list nat) : Qc :=
  fold_right Qcplus (Q2Qc 0) (map (rank_score (num:=Qc)) ps).

(* ================================================================== *)
(** * Concrete inputs *)
(* ================================================================== *)

Definition hit_of (k : string) : DocumentChunkResult.t float :=
  {| DocumentChunkResult.id := Some (js k);
     DocumentChunkResult.text := js "text";
     DocumentChunkResult.documentId := js "doc1";
     DocumentChunkResult.sessionId := js "s1";
     DocumentChunkResult.rank := None |}.

(** A lexical hit whose id is the empty string. *)
Definition hit_without_id : DocumentChunkResult.t float :=
  {| DocumentChunkResult.id := Some [];
     DocumentChunkResult.text := js "text";
     DocumentChunkResult.documentId := js "doc1";
     DocumentChunkResult.sessionId := js "s1";
     DocumentChunkResult.rank := None |}.

Definition match_of (k : string) : VectorizeMatch.t float :=
  {| VectorizeMatch.id := Some (js k); VectorizeMatch.score := 1%float |}.

Definition matches_of (ks : list string) : VectorizeMatches.t float :=
  {| VectorizeMatches.matches := Some (map match_of ks) |}.

Definition result_of (k : string) (x : float) : RankedResult.t float :=
  {| RankedResult.id := js k; RankedResult.score := x |}.

Definition chunk_of (k text : string) : DocumentChunk.t :=
  {| DocumentChunk.id := js k;
     DocumentChunk.text := js text;
     DocumentChunk.documentId := js "doc1";
     DocumentChunk.sessionId := js "s1" |}.

Definition says (r : Message.role) (content : string) : Message.t :=
  {| Message.role_of := r; Message.content := js content |}.

(** The request of the end-to-end example of the specification. *)
Definition question : Request.t :=
  {| Request.sessionId := Some (js "s1");
     Request.messages :=
       Some [says Message.user "What was Q2 revenue growth?"] |}.

Definition question_without_session : Request.t :=
  {| Request.sessionId := None;
     Request.messages :=
       Some [says Message.user "What was Q2 revenue growth?"] |}.

(** The three vector match lists of the counterexample to C7, and the same
    lists with the last two exchanged. *)
Definition three_lists : list (VectorizeMatches.t float) :=
  [matches_of ["X"%string]; matches_of ["X"%string];
   matches_of ["Y"%string; "X"%string]].
Definition three_lists_reordered : list (VectorizeMatches.t float) :=
  [matches_of ["X"%string]; matches_of ["Y"%string; "X"%string];
   matches_of ["X"%string]].

(** ** Collaborators *)

(** A model that answers with two queries, one per line. *)
Definition two_queries (prompt : jsstring) : outcome (option jsstring) :=
  Ok (Some (js "revenue growth" ++ [LF] ++ js "Q2 results")).

(** A model whose answer holds blank lines only. *)
Definition blank_answer (prompt : jsstring) : outcome (option jsstring) :=
  Ok (Some (js "  " ++ [LF] ++ js " ")).

Definition model_down (prompt : jsstring) : outcome (option jsstring) :=
  Throw (Error (js "AI request failed")).

Definition embeds (q : jsstring) : outcome (@vector float) :=
  Ok [1%float; 0%float].

(** An embedding model that fails for the second query. *)
Definition embeds_first_only (q : jsstring) : outcome (@vector float) :=
  if str_eqb q (js "revenue growth") then Ok [1%float; 0%float]
  else Throw (Error (js "embedding failed")).

(** A full-text index with one row for the first query. *)
Definition index_rows (term : jsstring)
    : outcome (option (list (DocumentChunkResult.t float))) :=
  if str_eqb term (js "revenue growth") then Ok (Some [hit_of "c2"])
  else Ok (Some []).

(** The same index, failing for the second query. *)
Definition index_fails_once (term : jsstring)
    : outcome (option (list (DocumentChunkResult.t float))) :=
  if str_eqb term (js "revenue growth") then Ok (Some [hit_of "c2"])
  else Throw (Error (js "D1_ERROR")).

(** An index that rejects the empty MATCH expression. *)
Definition index_strict (term : jsstring)
    : outcome (option (list (DocumentChunkResult.t float))) :=
  match term with
  | [] => Throw (Error (js "fts5: syntax error"))
  | _ :: _ => Ok (Some [hit_of "c2"])
  end.

(** Chunk storage: the rows of the table whose id is asked for, in table
    order. *)
Definition table : list DocumentChunk.t :=
  [chunk_of "c1" "alpha"; chunk_of "c2" "beta"].

Definition table_scan (ids : list jsstring)
    : outcome (list DocumentChunk.t) :=
  Ok (filter (fun d => existsb (str_eqb (DocumentChunk.id d)) ids) table).

Definition storage_down (ids : list jsstring)
    : outcome (list DocumentChunk.t) :=
  Throw (Error (js "D1_ERROR")).

Definition collaborators
    (model : jsstring -> outcome (option jsstring))
    (embedding : jsstring -> outcome (@vector float))
    (fulltext : jsstring
                -> outcome (option (list (DocumentChunkResult.t float))))
    (storage : list jsstring -> outcome (list DocumentChunk.t))
    : @Collaborators float :=
  {| AI_run := model;
     AI_generateEmbeddings := embedding;
     AI_run_embedding := embedding;
     Vectorize_query := fun _ _ => Ok (matches_of ["c2"%string; "c1"%string]);
     Drizzle_run := fulltext;
     Drizzle_select := storage;
     AI_run_stream := fun _ => Ok ([js "Hello"], None) |}.

(** Every collaborator answers. *)
Definition answering : @Collaborators float :=
  collaborators two_queries embeds index_rows table_scan.

(** The chunk lookup throws. *)
Definition lookup_down : @Collaborators float :=
  collaborators two_queries embeds index_rows storage_down.

(** The full-text query of the second expanded query throws. *)
Definition lexical_down_once : @Collaborators float :=
  collaborators two_queries embeds index_fails_once table_scan.

(** The embedding of the second expanded query throws. *)
Definition embedding_down_once : @Collaborators float :=
  collaborators two_queries embeds_first_only index_rows table_scan.

(** The expansion model answers with blank lines. *)
Definition blank_model : @Collaborators float :=
  collaborators blank_answer embeds index_rows table_scan.

(** The expansion model is unreachable. *)
Definition no_model : @Collaborators float :=
  collaborators model_down embeds index_rows table_scan.

(** The full-text index rejects the empty term. *)
Definition strict_index : @Collaborators float :=
  collaborators two_queries embeds index_strict table_scan.

(** Nothing matches: both indexes answer with no hit. *)
Definition empty_corpus : @Collaborators float :=
  {| AI_run := two_queries;
     AI_generateEmbeddings := embeds;
     AI_run_embedding := embeds;
     Vectorize_query := fun _ _ => Ok (matches_of []);
     Drizzle_run := fun _ => Ok (Some []);
     Drizzle_select := table_scan;
     AI_run_stream := fun _ => Ok ([js "Hello"], None) |}.

(* ================================================================== *)
(** * Vocabulary of the further properties *)
(* ================================================================== *)

(** ** Calls and the vector source *)

Definition service_eqb (a b : service) : bool :=
  match a, b with
  | Model, Model | Embedding, Embedding | VectorIndex, VectorIndex
  | FullText, FullText | Storage, Storage => true
  | _, _ => false
  end.

(** The number of requests a trace makes to service [s]. *)
Definition calls_to (s : service) (t : list effect) : nat :=
  List.length (filter (service_eqb s) (calls_of t)).

(** The values of a list of answers, if none of them is a failure. *)
Fixpoint all_ok {A} (l : list (outcome A)) : option (list A) :=
  match l with
  | [] => Some []
  | Ok a :: l' =>
      match all_ok l' with Some r => Some (a :: r) | None => None end
  | Throw _ :: _ => None
  end.

Section VectorTerms.
Context {num : Type} {NUM : Number num}.
Variable env : @Collaborators num.

(** What the vector source answers for one query in [queryVectorIndex]:
    the matches of its embedding, or the failure of either call. *)
Definition matches_for (sessionId q : jsstring)
    : outcome (VectorizeMatches.t num) :=
  match AI_run_embedding env q with
  | Ok v => Vectorize_query env v sessionId
  | Throw e => Throw e
  end.

End VectorTerms.

(** ** Order of the output among equal scores *)

(** [a] occurs in [l] and [b] occurs somewhere after it. *)
Inductive precedes {A : Type} (a b : A) : list A -> Prop :=
| precedes_here l : In b l -> precedes a b (a :: l)
| precedes_later x l : precedes a b l -> precedes a b (x :: l).

(** In the sequence [ids], [k1] occurs before the first occurrence of
    [k2], and [k2] occurs. *)
Definition first_seen_before (k1 k2 : jsstring) (ids : source) : Prop :=
  exists l1 l2,
    ids = l1 ++ Some k1 :: l2 /\ ~ In (Some k2) l1 /\ In (Some k2) l2.

(** The non-empty ids of [ids] that are not in [seen], each once, in the
    order of their first occurrence: the keys that processing [ids] adds
    to a mapping whose keys are [seen]. *)
Fixpoint new_keys (seen : list jsstring) (ids : source) : list jsstring :=
  match ids with
  | [] => []
  | Some k :: ids' =>
      if str_truthy k && negb (existsb (str_eqb k) seen)
      then k :: new_keys (seen ++ [k]) ids'
      else new_keys seen ids'
  | None :: ids' => new_keys seen ids'
  end.

(* ================================================================== *)
(** * The earlier variant of the module (the unnamed source file)

    The repository also holds an earlier variant of query.ts, whose
    functions have the same names, and the streaming handler that calls
    its coordinator.  Rank fusion is the same code as in query.ts and is
    not repeated.  In this variant a trace records what is sent to a
    collaborator, in the order in which the requests are issued. *)
(* ================================================================== *)

Module Variant.

Definition SYSTEM_MESSAGE : jsstring :=
  js "You are a helpful assistant that answers questions based on the provided context. When giving a response, always include the source of the information in the format [1], [2], [3] etc.".

(** A row of [select({ id, text })]. *)
Module Chunk.
Record t : Type := { id : jsstring; text : jsstring }.
End Chunk.

(** The value [processUserQuery] returns: [{ messages }]. *)
Module Params.
Record t : Type := { messages : list Message.t }.
End Params.

(** ** The regular expression of rewriteToQueries *)

(** LineTerminator: what [^] and [$] look at under the flag [m]. *)
Definition is_line_terminator (c : code_unit) : bool :=
  (c =? 10) || (c =? 13) || (c =? 8232) || (c =? 8233).

Definition FULL_STOP : code_unit := 46.

Fixpoint skip_digits (s : jsstring) : jsstring :=
  match s with
  | c :: s' => if is_digit c then skip_digits s' else s
  | [] => []
  end.

(** The number of code units that the first alternative of the regular
    expression matches at the start of [s], if it matches: one or more
    digits ([\d+]), a full stop, any white space ([\s*]) and a double
    quote.  The classes of adjacent parts are disjoint, so the greedy match
    is the only one. *)
Definition numbered_quote (s : jsstring) : option nat :=
  match s with
  | c :: _ =>
      if is_digit c then
        match skip_digits s with
        | d :: s1 =>
            if d =? FULL_STOP then
              match trimStart s1 with
              | q :: s2 =>
                  if q =? QUOTE
                  then Some (List.length s - List.length s2)%nat
                  else None
              | [] => None
              end
            else None
        | [] => None
        end
      else None
  | [] => None
  end.

(** [$] under the flag [m]: the end of the input or a line terminator
    follows. *)
Definition at_line_end (s : jsstring) : bool :=
  match s with
  | [] => true
  | c :: _ => is_line_terminator c
  end.

(** [s.replace(regex, '')], scanning from the left, for the regular
    expression with the flags [g] and [m] whose alternatives are: at the
    start of a line, digits, a full stop, white space and a double quote;
    or a double quote at the end of a line.  [start] says that the
    position is the beginning of a line; [skip] is the number of code
    units of the current match still to be dropped.  A match is never
    empty, and the search resumes behind it. *)
Fixpoint unquote_from (start : bool) (skip : nat) (s : jsstring)
    : jsstring :=
  match s with
  | [] => []
  | c :: s' =>
      match skip with
      | S n => unquote_from (is_line_terminator c) n s'
      | O =>
          match (if start then numbered_quote s else None) with
          | Some (S n) => unquote_from false n s'
          | _ =>
              if (c =? QUOTE) && at_line_end s'
              then unquote_from false 0 s'
              else c :: unquote_from (is_line_terminator c) 0 s'
          end
      end
  end.

Definition unquote (response : jsstring) : jsstring :=
  unquote_from true 0 response.

(** [.split('\n').filter(query => query.trim() !== '').slice(0, 5)]. *)
Definition kept_lines (response : jsstring) : list jsstring :=
  firstn 5 (filter (fun query => negb (str_eqb (trim query) []))
              (split LF (unquote response))).

Definition rewrite_prompt (content : jsstring) : jsstring :=
  js "Given the following user message, rewrite it into 5 distinct queries that could be used to search for relevant information. Each query should focus on different aspects or potential interpretations of the original message. No questions, just a query maximizing the chance of finding relevant information.

User message: " ++ [QUOTE] ++ content ++ [QUOTE] ++ js "

Provide 5 queries, one per line and nothing else:".

Section Variant.
Context {num : Type} {NUM : Number num}.

(** ** Effects *)

(** What is sent to a collaborator. *)
Inductive request :=
| RunModel (prompt : jsstring)
    (* useAI().run('@cf/meta/llama-3.1-8b-instruct', { model, prompt }) *)
| RunEmbedding (text : jsstring)
    (* useAI().run('@cf/baai/bge-large-en-v1.5', { model, text: [q] }) *)
| QueryIndex (vector : @vector num) (sessionId : option jsstring)
    (* useVectorize().query(vector, { topK: 5, ..., filter: { sessionId } }) *)
| RunSql (term : jsstring)
    (* useDrizzle().run(sql`... MATCH ${term} ORDER BY rank DESC LIMIT 5`) *)
| SelectChunks (ids : list jsstring)
    (* useDrizzle().select({ id, text }).from(documentChunks)
       .where(inArray(documentChunks.id, ids)) *)
| RunStream (messages : list Message.t).
    (* useAI().run(model, { model, messages, stream: true }) *)

(** The objects handed to [streamResponse]. *)
Inductive event :=
| Status (message : jsstring)
| StatusQueries (message : jsstring) (queries : list jsstring)
| StatusContext (message : jsstring) (relevantContext : list Chunk.t)
    (queries : list jsstring)
| Failure (error : jsstring).

Inductive effect :=
| Emit (e : event)          (* eventStream.push(JSON.stringify(e)) *)
| Call (r : request)
| Push (data : jsstring)    (* eventStream.push(data) *)
| ReleaseLock               (* reader.releaseLock() *)
| Close.                    (* eventStream.close() *)

Definition M (A : Type) : Type := (outcome A * list effect)%type.

Definition ret {A} (a : A) : M A := (Ok a, []).
Definition throw {A} (e : exn) : M A := (Throw e, []).

Definition bind {A B} (m : M A) (f : A -> M B) : M B :=
  match m with
  | (Ok a, t) => let (r, t') := f a in (r, t ++ t')
  | (Throw e, t) => (Throw e, t)
  end.

(** [try { m } catch (e) { h e }]. *)
Definition try_catch {A} (m : M A) (h : exn -> M A) : M A :=
  match m with
  | (Ok a, t) => (Ok a, t)
  | (Throw e, t) => let (r, t') := h e in (r, t ++ t')
  end.

(** [try { m } finally { f }], for an [f] that does not throw. *)
Definition finally {A} (m : M A) (f : M unit) : M A :=
  (fst m, snd m ++ snd f).

Definition streamResponse (e : event) : M unit := (Ok tt, [Emit e]).

(** The request [r], whose answer is [a]. *)
Definition call {A} (r : request) (a : outcome A) : M A := (a, [Call r]).

Definition perform (f : effect) : M unit := (Ok tt, [f]).

(** [await Promise.all(l.map(f))]: every member is started, in order;
    the result is the list of the values, or the rejection of the first
    member in list order that throws. *)
Fixpoint Promise_all {A B} (f : A -> M B) (l : list A) : M (list B) :=
  match l with
  | [] => ret []
  | x :: l' =>
      let (r, t) := f x in
      let (rs, t') := Promise_all f l' in
      (match r, rs with
       | Ok y, Ok ys => Ok (y :: ys)
       | Throw e, _ => Throw e
       | Ok _, Throw e => Throw e
       end, t ++ t')
  end.

(** [await Promise.all([m1, m2])]. *)
Definition Promise_both {A B} (m1 : M A) (m2 : M B) : M (A * B) :=
  (match fst m1, fst m2 with
   | Ok a, Ok b => Ok (a, b)
   | Throw e, _ => Throw e
   | Ok _, Throw e => Throw e
   end, snd m1 ++ snd m2).

Definition outcome_of {A} (m : M A) : outcome A := fst m.
Definition trace_of {A} (m : M A) : list effect := snd m.

(** The objects a trace hands to [streamResponse], in order. *)
Fixpoint events_of (t : list effect) : list event :=
  match t with
  | [] => []
  | Emit e :: t' => e :: events_of t'
  | _ :: t' => events_of t'
  end.

(** The requests a trace sends, in order. *)
Fixpoint calls_of (t : list effect) : list request :=
  match t with
  | [] => []
  | Call r :: t' => r :: calls_of t'
  | _ :: t' => calls_of t'
  end.

(** The strings a trace pushes as they are, in order. *)
Fixpoint pushes_of (t : list effect) : list jsstring :=
  match t with
  | [] => []
  | Push s :: t' => s :: pushes_of t'
  | _ :: t' => pushes_of t'
  end.

Definition is_failure (e : event) : bool :=
  match e with Failure _ => true | _ => false end.

(** ** Collaborators *)

Record Collaborators : Type := {
  (* the [response] field of the model's answer, which may be missing *)
  AI_run : jsstring -> outcome (option jsstring);
  (* [data[0]] of the embedding model's answer; [None] when the answer has
     no [data] *)
  AI_run_embedding : jsstring -> outcome (option (@vector num));
  Vectorize_query : @vector num -> option jsstring
                    -> outcome (VectorizeMatches.t num);
  (* the [results] field of the answer, which may be missing *)
  Drizzle_run : jsstring
                -> outcome (option (list (DocumentChunkResult.t num)));
  Drizzle_select : list jsstring -> outcome (list Chunk.t);
  (* the decoded chunks of the generation stream, then its end or a
     failure of [read] *)
  AI_run_stream : list Message.t -> outcome (list jsstring * option exn)
}.

Variable env : Collaborators.

Local Notation "x <- m ;; k" := (bind m (fun x => k))
  (at level 61, m at next level, right associativity).
Local Notation "m ;;; k" := (bind m (fun _ => k))
  (at level 61, right associativity).

(** ** rewriteToQueries *)

Definition rewriteToQueries (content : jsstring) : M (list jsstring) :=
  response <- call (RunModel (rewrite_prompt content))
                (AI_run env (rewrite_prompt content)) ;;
  match response with
  | Some response => ret (kept_lines response)
  | None =>
      (* [response.replace] on undefined *)
      throw (Error (js "Cannot read properties of undefined (reading 'replace')"))
  end.

(** ** searchDocumentChunks *)

Definition searchDocumentChunks (searchTerms : list jsstring)
    : M (list (DocumentChunkResult.t num)) :=
  let queries := map sanitize (filter str_truthy searchTerms) in
  results <- Promise_all
               (fun query =>
                  results <- call (RunSql query) (Drizzle_run env query) ;;
                  ret (match results with
                       | Some rows => rows
                       | None => []
                       end))
               queries ;;
  ret (firstn 10 (sort rank_after (List.concat results))).

(** ** queryVectorIndex *)

Definition queryVectorIndex (queries : list jsstring)
    (sessionId : option jsstring) : M (list (VectorizeMatches.t num)) :=
  queryVectors <- Promise_all
                    (fun q => call (RunEmbedding q) (AI_run_embedding env q))
                    queries ;;
  Promise_all
    (fun qv =>
       match qv with
       | Some vector =>
           call (QueryIndex vector sessionId)
             (Vectorize_query env vector sessionId)
       | None =>
           (* [qv.data[0]] on a missing [data] *)
           throw (Error (js "Cannot read properties of undefined (reading '0')"))
       end)
    queryVectors.

(** ** getRelevantDocuments *)

Definition getRelevantDocuments (ids : list jsstring) : M (list Chunk.t) :=
  match ids with
  | [] => ret []
  | _ :: _ => call (SelectChunks ids) (Drizzle_select env ids)
  end.

(** ** processUserQuery *)

Definition systemMessage : Message.t :=
  {| Message.role_of := Message.system; Message.content := SYSTEM_MESSAGE |}.

(** The template [`[${index + 1}]: ${doc.text}`]. *)
Definition citation (doc : Chunk.t) (index : nat) : jsstring :=
  js "[" ++ decimal (index + 1) ++ js "]: " ++ Chunk.text doc.

Definition relevantTexts (relevantDocs : list Chunk.t) : jsstring :=
  join [LF; LF] (map_index citation relevantDocs 0%nat).

Definition contextMessage (queries : list jsstring)
    (relevantDocs : list Chunk.t) : Message.t :=
  {| Message.role_of := Message.assistant;
     Message.content :=
       js "The following queries were made:" ++ [LF]
       ++ join [LF] queries ++ [LF; LF]
       ++ js "Relevant context from attached documents:" ++ [LF]
       ++ relevantTexts relevantDocs |}.

Definition processUserQuery (request : Request.t) : M Params.t :=
  try_catch
    (match Request.messages request with
     | None =>
         (* [messages.unshift] on undefined *)
         throw (Error (js "Cannot read properties of undefined (reading 'unshift')"))
     | Some messages =>
     let messages := systemMessage :: messages in
     let lastMessage := last messages systemMessage in
     if negb (str_truthy (Message.content lastMessage))
     then throw (Error (js "No content in last message")) else
     let query := Message.content lastMessage in
     streamResponse (Status (js "Rewriting message to queries...")) ;;;
     queries <- rewriteToQueries query ;;
     streamResponse
       (StatusQueries (js "Querying vector index and full text search...")
          queries) ;;;
     found <- Promise_both
                (searchDocumentChunks queries)
                (queryVectorIndex queries (Request.sessionId request)) ;;
     let mergedResults :=
       sort score_after (performReciprocalRankFusion (fst found) (snd found)) in
     let topIds := map (@RankedResult.id num) (firstn 10 mergedResults) in
     relevantDocs <- getRelevantDocuments topIds ;;
     streamResponse
       (StatusContext (js "Found relevant documents, generating response...")
          relevantDocs queries) ;;;
     let messages := messages ++ [contextMessage queries relevantDocs] in
     ret {| Params.messages := messages |}
     end)
    (fun error =>
       streamResponse
         (Failure (js "Error processing query: " ++ message_of error)) ;;;
       throw error).

(** ** The streaming handler

    The handler calls the [processUserQuery] in scope; it is a parameter
    here.  The body has passed the schema: [messages] is a list of
    messages and [sessionId] a string. *)

Variable coordinator : Request.t -> M Params.t.

(** The loop over [reader.read()]: each chunk is pushed without its first
    five code units (the prefix [data:]). *)
Fixpoint forward (chunks : list jsstring) : M unit :=
  match chunks with
  | [] => ret tt
  | value :: rest => perform (Push (skipn 5 value)) ;;; forward rest
  end.

Definition handler (messages : list Message.t) (sessionId : jsstring)
    : M unit :=
  finally
    (try_catch
       (params <- coordinator {| Request.sessionId := Some sessionId;
                                 Request.messages := Some messages |} ;;
        result <- call (RunStream (Params.messages params))
                    (AI_run_stream env (Params.messages params)) ;;
        finally
          (forward (fst result) ;;;
           match snd result with
           | Some e => throw e
           | None => ret tt
           end)
          (perform ReleaseLock))
       (fun error => streamResponse (Failure (message_of error))))
    (perform Close).

End Variant.
End Variant.

(** ** Vocabulary of the statements about the variant *)

Definition SPACE : code_unit := 32.

(** A line of the form the regular expression is written for: a number,
    a full stop, a space, and the query in double quotes. *)
Definition numbered (line : jsstring * jsstring) : jsstring :=
  fst line ++ Variant.FULL_STOP :: SPACE :: QUOTE :: snd line ++ [QUOTE].

(** A number: one or more digits. *)
Definition is_number (label : jsstring) : Prop :=
  label <> [] /\ forallb is_digit label = true.

(** A string without line terminator. *)
Definition one_line (s : jsstring) : Prop :=
  forallb (fun c => negb (Variant.is_line_terminator c)) s = true.

Section VariantTerms.
Context {num : Type} {NUM : Number num}.
Variable env : @Variant.Collaborators num.

(** The collaborator gave request [r] an answer the code can use. *)
Definition answered (r : @Variant.request num) : Prop :=
  match r with
  | Variant.RunModel prompt =>
      exists response, Variant.AI_run env prompt = Ok (Some response)
  | Variant.RunEmbedding q =>
      exists vector, Variant.AI_run_embedding env q = Ok (Some vector)
  | Variant.QueryIndex vector sessionId =>
      exists result, Variant.Vectorize_query env vector sessionId = Ok result
  | Variant.RunSql term =>
      exists results, Variant.Drizzle_run env term = Ok results
  | Variant.SelectChunks ids =>
      exists docs, Variant.Drizzle_select env ids = Ok docs
  | Variant.RunStream messages =>
      exists chunks, Variant.AI_run_stream env messages = Ok (chunks, None)
  end.

(** The rows one sanitized term contributes when its query does not
    throw. *)
Definition variant_rows (term : jsstring)
    : list (DocumentChunkResult.t num) :=
  match Variant.Drizzle_run env term with
  | Ok (Some rows) => rows
  | Ok None | Throw _ => []
  end.

End VariantTerms.

(** The content of the message the variant takes as the user's query:
    the last message after the system message has been put in front. *)
Definition variant_query (messages : list Message.t) : jsstring :=
  Message.content (last (Variant.systemMessage :: messages)
                     Variant.systemMessage).

Section VariantRun.
Context {num : Type} {NUM : Number num}.
Variable env : @Variant.Collaborators num.

(** The ids the variant hands to [getRelevantDocuments]. *)
Definition variant_top_ids (fullText : list (DocumentChunkResult.t num))
    (vectorIndex : list (VectorizeMatches.t num)) : list jsstring :=
  map (@RankedResult.id num)
    (firstn 10
       (sort score_after (performReciprocalRankFusion fullText vectorIndex))).

(** The event that reports a failure of the variant's coordinator. *)
Definition variant_failure (e : exn) : @Variant.effect num :=
  Variant.Emit (Variant.Failure (js "Error processing query: " ++ message_of e)).

(** The second phase of [queryVectorIndex], over the answers of the
    embedding model. *)
Definition index_member (sessionId : option jsstring)
    (qv : option (@vector num)) : @Variant.M num (VectorizeMatches.t num) :=
  match qv with
  | Some vector =>
      Variant.call (Variant.QueryIndex vector sessionId)
        (Variant.Vectorize_query env vector sessionId)
  | None =>
      Variant.throw
        (Error (js "Cannot read properties of undefined (reading '0')"))
  end.

(** A computation that returns only when every request it sent was
    answered. *)
Definition absorbs_nothing {A} (m : @Variant.M num A) : Prop :=
  forall a, Variant.outcome_of m = Ok a ->
            Forall (answered env) (Variant.calls_of (Variant.trace_of m)).

End VariantRun.

(** The event by which the streaming handler reports a failure. *)
Definition handler_failure {num : Type} (e : exn) : @Variant.effect num :=
  Variant.Emit (Variant.Failure (message_of e)).

(** ** Concrete inputs for the variant *)

Definition variant_chunk_of (k text : string) : Variant.Chunk.t :=
  {| Variant.Chunk.id := js k; Variant.Chunk.text := js text |}.

(** An answer of the model in the form the prompt suggests: two numbered
    queries in double quotes. *)
Definition numbered_answer : jsstring :=
  join [LF] (map numbered [(js "1", js "revenue growth");
                           (js "2", js "Q2 results")]).

Definition variant_table : list Variant.Chunk.t :=
  [variant_chunk_of "c1" "alpha"; variant_chunk_of "c2" "beta"].

Definition variant_collaborators
    (fulltext : jsstring
                -> outcome (option (list (DocumentChunkResult.t float))))
    : @Variant.Collaborators float :=
  {| Variant.AI_run := fun _ => Ok (Some numbered_answer);
     Variant.AI_run_embedding := fun _ => Ok (Some [1%float; 0%float]);
     Variant.Vectorize_query :=
       fun _ _ => Ok (matches_of ["c2"%string; "c1"%string]);
     Variant.Drizzle_run := fulltext;
     Variant.Drizzle_select :=
       fun ids =>
         Ok (filter (fun d => existsb (str_eqb (Variant.Chunk.id d)) ids)
               variant_table);
     Variant.AI_run_stream :=
       fun _ => Ok ([js "data: Hello"; js "data: world"], None) |}.

(** Every collaborator answers. *)
Definition variant_answering : @Variant.Collaborators float :=
  variant_collaborators index_rows.

(** The full-text query of the second expanded query throws. *)
Definition variant_lexical_down : @Variant.Collaborators float :=
  variant_collaborators index_fails_once.

(** A request with an empty message list and no session. *)
Definition empty_request : Request.t :=
  {| Request.sessionId := None; Request.messages := Some [] |}.

(* ================================================================== *)
(** * Facts about JavaScript values *)
(* ================================================================== *)

Example split_lines : split LF (js "a
b") = [js "a"; js "b"].
Proof. reflexivity. Qed.

Example entries_order :
  map fst (entries (set (js "2") 0%nat (set (js "b") 1%nat (set (js "10") 2%nat
              (set (js "a") 3%nat (set (js "01") 4%nat []))))))
  = [js "2"; js "10"; js "01"; js "a"; js "b"].
Proof. vm_compute. reflexivity. Qed.

Lemma str_eqb_eq a b : str_eqb a b = true <-> a = b.
Proof. unfold str_eqb. destruct (list_eq_dec N.eq_dec a b); split; congruence. Qed.

Lemma str_eqb_refl a : str_eqb a a = true.
Proof. apply str_eqb_eq. reflexivity. Qed.

Lemma str_eqb_neq a b : a <> b -> str_eqb a b = false.
Proof. unfold str_eqb. destruct (list_eq_dec N.eq_dec a b); congruence. Qed.

Section ObjectFacts.
Variable V : Type.
Implicit Types o : object V.

Lemma get_set_same k v o : get k (set k v o) = Some v.
Proof.
  induction o as [|[k' v'] o IH]; simpl.
  - rewrite str_eqb_refl. reflexivity.
  - destruct (str_eqb k k') eqn:E; simpl; rewrite E; auto.
Qed.

Lemma get_set_other k k' v o : k <> k' -> get k' (set k v o) = get k' o.
Proof.
  intros Hne. induction o as [|[k0 v0] o IH]; simpl.
  - rewrite str_eqb_neq by congruence. reflexivity.
  - destruct (str_eqb k k0) eqn:E; simpl.
    + apply str_eqb_eq in E. subst k0.
      rewrite str_eqb_neq by congruence. reflexivity.
    + destruct (str_eqb k' k0); auto.
Qed.

Lemma keys_set k v o :
  map fst (set k v o)
  = match get k o with Some _ => map fst o | None => map fst o ++ [k] end.
Proof.
  induction o as [|[k' v'] o IH]; simpl; [reflexivity|].
  destruct (str_eqb k k') eqn:E; simpl; [reflexivity|].
  rewrite IH. destruct (get k o); reflexivity.
Qed.

Lemma get_None_keys k o : get k o = None <-> ~ In k (map fst o).
Proof.
  induction o as [|[k' v'] o IH]; simpl; [tauto|].
  destruct (str_eqb k k') eqn:E.
  - apply str_eqb_eq in E. subst. split; [discriminate|intros H; exfalso; auto].
  - rewrite IH. split; [intros H [->|H']; [rewrite str_eqb_refl in E; discriminate|auto]|tauto].
Qed.

Lemma NoDup_keys_set k v o : NoDup (map fst o) -> NoDup (map fst (set k v o)).
Proof.
  intros H. rewrite keys_set. destruct (get k o) eqn:E; [exact H|].
  apply get_None_keys in E.
  apply NoDup_rev in H. rewrite <- (rev_involutive (map fst o ++ [k])).
  apply NoDup_rev. rewrite rev_app_distr. simpl. constructor; [|exact H].
  rewrite <- in_rev. exact E.
Qed.

Lemma get_In k v o : NoDup (map fst o) -> (get k o = Some v <-> In (k, v) o).
Proof.
  induction o as [|[k' v'] o IH]; simpl; intros ND.
  - split; [discriminate|tauto].
  - inversion ND as [|? ? Hn ND']; subst.
    destruct (str_eqb k k') eqn:E.
    + apply str_eqb_eq in E. subst k'. split.
      * intros [= ->]. auto.
      * intros [[= ->]|Hin]; [reflexivity|].
        exfalso. apply Hn. apply (in_map fst) in Hin. exact Hin.
    + rewrite (IH ND'). split; [auto|].
      intros [[= -> ->]|Hin]; [rewrite str_eqb_refl in E; discriminate|exact Hin].
Qed.

Lemma insert_index_perm n (e : jsstring * V) l :
  Permutation (insert_index n e l) ((n, e) :: l).
Proof.
  induction l as [|[m e'] l IH]; simpl; [reflexivity|].
  destruct (n <=? m); [reflexivity|].
  rewrite IH. apply perm_swap.
Qed.

Lemma entries_perm o : Permutation (entries o) o.
Proof.
  unfold entries. induction o as [|e o IH]; simpl; [reflexivity|].
  unfold named_entries in *. simpl.
  destruct (array_index (fst e)) as [n|].
  - rewrite (Permutation_map snd (insert_index_perm n e (index_entries o))).
    simpl. constructor. exact IH.
  - symmetry. apply Permutation_cons_app. symmetry. exact IH.
Qed.
End ObjectFacts.

Section SortFacts.
Variable A : Type.
Variable after : A -> A -> bool.

Lemma insert_perm x l : Permutation (insert after x l) (x :: l).
Proof.
  induction l as [|y l IH]; simpl; [reflexivity|].
  destruct (after x y); [|reflexivity].
  rewrite IH. apply perm_swap.
Qed.

Lemma sort_perm l : Permutation (sort after l) l.
Proof.
  induction l as [|x l IH]; simpl; [reflexivity|].
  rewrite insert_perm. constructor. exact IH.
Qed.

Hypothesis after_asym : forall x y, after x y = true -> after y x = false.

Lemma insert_sorted x l : Sorted (in_order after) l -> Sorted (in_order after) (insert after x l).
Proof.
  induction l as [|y l IH]; simpl; intros HS.
  - constructor; constructor.
  - destruct (after x y) eqn:E.
    + inversion HS as [|? ? HS' Hd]; subst.
      constructor; [auto|].
      destruct l as [|z l]; simpl.
      * constructor. apply after_asym. exact E.
      * destruct (after x z); constructor.
        -- inversion Hd; assumption.
        -- apply after_asym. exact E.
    + constructor; [exact HS|]. constructor. exact E.
Qed.

Lemma sort_sorted l : Sorted (in_order after) (sort after l).
Proof.
  induction l as [|x l IH]; simpl; [constructor|].
  apply insert_sorted. exact IH.
Qed.
End SortFacts.


(* ================================================================== *)
(** * Facts about the effect layer *)
(* ================================================================== *)

Lemma events_of_app (t u : list effect) :
  events_of (t ++ u) = events_of t ++ events_of u.
Proof.
  induction t as [|f t IH]; simpl; [reflexivity|].
  destruct f; simpl; rewrite IH; reflexivity.
Qed.

Lemma calls_of_app (t u : list effect) :
  calls_of (t ++ u) = calls_of t ++ calls_of u.
Proof.
  induction t as [|f t IH]; simpl; [reflexivity|].
  destruct f; simpl; rewrite IH; reflexivity.
Qed.

Lemma bind_ok {A B} (m : M A) (f : A -> M B) a t :
  m = (Ok a, t) -> bind m f = (fst (f a), t ++ snd (f a)).
Proof. intros ->. unfold bind. destruct (f a); reflexivity. Qed.

Lemma bind_throw {A B} (m : M A) (f : A -> M B) e t :
  m = (Throw e, t) -> bind m f = (Throw e, t).
Proof. intros ->. reflexivity. Qed.

Lemma bind_inv_ok {A B} (m : M A) (f : A -> M B) b t :
  bind m f = (Ok b, t) ->
  exists a t1 t2, m = (Ok a, t1) /\ f a = (Ok b, t2) /\ t = t1 ++ t2.
Proof.
  destruct m as [[a|e] t1]; simpl; [|discriminate].
  destruct (f a) as [r t2] eqn:E. intros [= -> <-].
  exists a, t1, t2. auto.
Qed.


Lemma silent_call {A} s (r : outcome A) : silent (call s r).
Proof. reflexivity. Qed.

Lemma silent_ret {A} (a : A) : silent (ret a).
Proof. reflexivity. Qed.

Lemma silent_bind {A B} (m : M A) (f : A -> M B) :
  silent m -> (forall a, silent (f a)) -> silent (bind m f).
Proof.
  unfold silent, trace_of. destruct m as [[a|e] t]; simpl; intros Hm Hf; auto.
  specialize (Hf a). destruct (f a) as [r t']. simpl in *.
  rewrite events_of_app, Hm, Hf. reflexivity.
Qed.

Lemma silent_try_catch {A} (m : M A) (h : exn -> M A) :
  silent m -> (forall e, silent (h e)) -> silent (try_catch m h).
Proof.
  unfold silent, trace_of. destruct m as [[a|e] t]; simpl; intros Hm Hh; auto.
  specialize (Hh e). destruct (h e) as [r t']. simpl in *.
  rewrite events_of_app, Hm, Hh. reflexivity.
Qed.

Lemma silent_Promise_all {A B} (f : A -> M B) (l : list A) :
  (forall x, silent (f x)) -> silent (Promise_all f l).
Proof.
  intros Hf. unfold silent, trace_of in *.
  induction l as [|x l IH]; simpl; [reflexivity|].
  specialize (Hf x). destruct (f x) as [r t].
  destruct (Promise_all f l) as [rs t']. simpl in *.
  rewrite events_of_app, Hf, IH. reflexivity.
Qed.

(** [Promise.all] fulfils when every member does, collecting the values
    in order, and rejects when one member rejects. *)
Lemma Promise_all_ok {A B} (f : A -> M B) (g : A -> B) (l : list A) :
  (forall x, In x l -> outcome_of (f x) = Ok (g x)) ->
  outcome_of (Promise_all f l) = Ok (map g l).
Proof.
  unfold outcome_of. induction l as [|x l IH]; simpl; intros H; [reflexivity|].
  assert (Hx := H x (or_introl eq_refl)).
  specialize (IH (fun z Hz => H z (or_intror Hz))).
  destruct (f x) as [r t]. destruct (Promise_all f l) as [rs t'].
  simpl in *. subst r rs. reflexivity.
Qed.

Lemma Promise_all_throw {A B} (f : A -> M B) (l : list A) x e :
  In x l -> outcome_of (f x) = Throw e ->
  exists e', outcome_of (Promise_all f l) = Throw e'.
Proof.
  unfold outcome_of. induction l as [|z l IH]; simpl; [tauto|].
  intros [->|Hin] Hx.
  - destruct (f x) as [r t]. destruct (Promise_all f l) as [rs t'].
    simpl in *. subst r. eauto.
  - destruct (IH Hin Hx) as [e' He'].
    destruct (f z) as [[y|e0] t]; destruct (Promise_all f l) as [rs t'];
      simpl in *; subst rs; eauto.
Qed.

(* ================================================================== *)
(** * Facts about the stages of the pipeline *)
(* ================================================================== *)

Section StageFacts.
Context {num : Type} {NUM : Number num}.
Variable env : @Collaborators num.

Lemma rewriteToQueries_eq (content : jsstring) :
  rewriteToQueries env content
  = (Ok (expanded_queries env content), [Call Model]).
Proof.
  unfold rewriteToQueries, expanded_queries, call.
  destruct (AI_run env (rewrite_prompt content)) as [[r|]|e]; reflexivity.
Qed.

Lemma searchDocumentChunks_total (terms : list jsstring) :
  exists hits, outcome_of (searchDocumentChunks env terms) = Ok hits.
Proof.
  unfold searchDocumentChunks, outcome_of.
  match goal with |- context [try_catch ?m _] => destruct m as [[a|e] t] end;
    simpl; eauto.
Qed.

Lemma searchDocumentChunks_silent (terms : list jsstring) :
  silent (searchDocumentChunks env terms).
Proof.
  unfold searchDocumentChunks.
  apply silent_try_catch; [|intros; apply silent_ret].
  apply silent_bind; [|intros; apply silent_ret].
  apply silent_Promise_all. intros q.
  apply silent_bind; [apply silent_call|intros; apply silent_ret].
Qed.

(** When no query throws, the hits of all queries are concatenated,
    sorted by rank and capped at 10. *)
Lemma searchDocumentChunks_ok (terms : list jsstring) :
  (forall q, In q terms -> ~ lexical_fails env q) ->
  outcome_of (searchDocumentChunks env terms)
  = Ok (firstn 10 (sort rank_after (List.concat (map (rows_of env) terms)))).
Proof.
  intros H. unfold searchDocumentChunks, outcome_of.
  match goal with |- context [Promise_all ?f ?l] =>
    pose proof (@Promise_all_ok _ _ f
                  (fun q => match Drizzle_run env q with
                            | Ok (Some rows) => rows | _ => [] end) l) as P
  end.
  unfold outcome_of in P.
  rewrite map_map in P.
  match type of P with ?X -> _ => assert (HX : X) end.
  { intros q Hq. apply in_map_iff in Hq. destruct Hq as (q0 & <- & Hq0).
    specialize (H q0 Hq0). unfold lexical_fails in H. unfold call.
    destruct (Drizzle_run env (sanitize q0)) as [[rows|]|e]; simpl;
      try reflexivity.
    exfalso. apply H. eauto. }
  specialize (P HX).
  match goal with |- context [Promise_all ?f ?l] =>
    destruct (Promise_all f l) as [[rs|e] t] end; simpl in P; [|discriminate].
  injection P as ->. reflexivity.
Qed.

(** One throwing query empties the whole lexical contribution. *)
Lemma searchDocumentChunks_throw (terms : list jsstring) q :
  In q terms -> lexical_fails env q ->
  outcome_of (searchDocumentChunks env terms) = Ok [].
Proof.
  intros Hin [e He]. unfold searchDocumentChunks, outcome_of.
  match goal with |- context [Promise_all ?f ?l] =>
    destruct (@Promise_all_throw _ _ f l (sanitize q) e) as [e' P] end.
  - apply in_map. exact Hin.
  - unfold outcome_of, call. rewrite He. reflexivity.
  - unfold outcome_of in P.
    match goal with |- context [Promise_all ?f ?l] =>
      destruct (Promise_all f l) as [[rs|e0] t] end; simpl in P;
      [discriminate|]. reflexivity.
Qed.

Lemma getRelevantDocuments_eq (ids : list jsstring) :
  getRelevantDocuments env ids
  = (Ok (fetched env ids), match ids with [] => [] | _ => [Call Storage] end).
Proof.
  destruct ids as [|i ids]; [reflexivity|].
  unfold getRelevantDocuments, fetched, call.
  destruct (Drizzle_select env (i :: ids)); reflexivity.
Qed.

Lemma vectorSearch_silent (queries : list jsstring) sid :
  silent (vectorSearch env queries sid).
Proof.
  apply silent_Promise_all. intros q.
  apply silent_bind; [apply silent_call|intros; apply silent_call].
Qed.

(** ** The coordinator *)

Lemma processUserQuery_ok request sid msgs query text vr :
  accepted request sid msgs query ->
  outcome_of (searchDocumentChunks env (expanded_queries env query)) = Ok text ->
  outcome_of (vectorSearch env (expanded_queries env query) sid) = Ok vr ->
  let docs := fetched env (top_ids text vr) in
  outcome_of (processUserQuery env request)
  = Ok {| QueryProcessingResult.messages :=
            systemMessage :: msgs ++ [contextMessage (formatContext docs)];
          QueryProcessingResult.relevantDocs := docs;
          QueryProcessingResult.queries := expanded_queries env query |}
  /\ events_of (trace_of (processUserQuery env request))
     = [Progress (js "Analyzing query...");
        ProgressQueries (js "Searching documents...") (expanded_queries env query);
        ProgressFound (js "Compiling context...") (List.length docs)].
Proof.
  intros (Hs & Hsid & Hm & (m & ms & -> & ->) & Hq) Ht Hv docs.
  pose proof (searchDocumentChunks_silent (expanded_queries env (Message.content (last ms m)))) as St.
  pose proof (vectorSearch_silent (expanded_queries env (Message.content (last ms m))) sid) as Sv.
  unfold silent, trace_of, outcome_of in *.
  unfold processUserQuery. rewrite Hs, Hsid, Hm. cbn [negb]. rewrite Hq. cbn [negb].
  rewrite rewriteToQueries_eq. unfold streamResponse. cbn [bind].
  destruct (searchDocumentChunks env _) as [ot tt]. simpl in Ht, St. subst ot.
  cbn [bind].
  destruct (vectorSearch env _ sid) as [ov tv]. simpl in Hv, Sv. subst ov.
  cbn [bind]. rewrite getRelevantDocuments_eq. fold (top_ids text vr).
  fold docs. cbn [bind ret try_catch fst snd].
  split; [reflexivity|].
  cbn [app events_of]. rewrite !events_of_app, St, Sv. cbn [app events_of].
  destruct (top_ids text vr); reflexivity.
Qed.

Lemma processUserQuery_vector_throw request sid msgs query e :
  accepted request sid msgs query ->
  outcome_of (vectorSearch env (expanded_queries env query) sid) = Throw e ->
  outcome_of (processUserQuery env request) = Throw e
  /\ events_of (trace_of (processUserQuery env request))
     = [Progress (js "Analyzing query...");
        ProgressQueries (js "Searching documents...") (expanded_queries env query);
        ErrorEvent (js "Processing failed: " ++ message_of e)].
Proof.
  intros (Hs & Hsid & Hm & (m & ms & -> & ->) & Hq) Hv.
  destruct (searchDocumentChunks_total (expanded_queries env (Message.content (last ms m)))) as [text Ht].
  pose proof (searchDocumentChunks_silent (expanded_queries env (Message.content (last ms m)))) as St.
  pose proof (vectorSearch_silent (expanded_queries env (Message.content (last ms m))) sid) as Sv.
  unfold silent, trace_of, outcome_of in *.
  unfold processUserQuery. rewrite Hs, Hsid, Hm. cbn [negb]. rewrite Hq. cbn [negb].
  rewrite rewriteToQueries_eq. unfold streamResponse. cbn [bind].
  destruct (searchDocumentChunks env _) as [ot tt]. simpl in Ht, St. subst ot.
  cbn [bind].
  destruct (vectorSearch env _ sid) as [ov tv]. simpl in Hv, Sv. subst ov.
  cbn [bind throw try_catch fst snd].
  split; [reflexivity|].
  cbn [app events_of]. rewrite !events_of_app, St. cbn [app events_of].
  rewrite ?events_of_app, Sv. reflexivity.
Qed.

Lemma processUserQuery_rejected request reason :
  rejection request = Some reason ->
  processUserQuery env request
  = (Throw (Error reason),
     [Emit (ErrorEvent (js "Processing failed: " ++ reason))]).
Proof.
  unfold rejection, processUserQuery.
  destruct (Request.sessionId request) as [sid|];
    [|intros [= <-]; reflexivity].
  destruct (negb (str_truthy sid)); [intros [= <-]; reflexivity|].
  destruct (Request.messages request) as [[|m ms]|];
    try (intros [= <-]; reflexivity).
  destruct (negb (str_truthy (Message.content (last ms m))));
    [intros [= <-]; reflexivity|discriminate].
Qed.

Lemma not_rejected_accepted request :
  rejection request = None ->
  exists sid msgs query, accepted request sid msgs query.
Proof.
  unfold rejection, accepted.
  destruct (Request.sessionId request) as [sid|]; [|discriminate].
  destruct (str_truthy sid) eqn:Hsid; [|discriminate]. cbn [negb].
  destruct (Request.messages request) as [[|m ms]|]; try discriminate.
  destruct (str_truthy (Message.content (last ms m))) eqn:Hq; [|discriminate].
  intros _. exists sid, (m :: ms), (Message.content (last ms m)).
  repeat split; eauto.
Qed.

End StageFacts.

Section HandlerFacts.
Context {num : Type} {NUM : Number num}.
Variable env : @Collaborators num.

Lemma relay_eq (chunks : list jsstring) :
  relay chunks = (Ok tt, map (fun c => Emit (ChunkEvent c)) chunks).
Proof.
  induction chunks as [|c cs IH]; [reflexivity|].
  simpl. rewrite IH. reflexivity.
Qed.

Lemma events_of_chunks (chunks : list jsstring) :
  events_of (map (fun c => Emit (ChunkEvent c)) chunks) = map ChunkEvent chunks.
Proof. induction chunks as [|c cs IH]; simpl; [|rewrite IH]; reflexivity. Qed.

(** A run whose coordinator returns and whose generation stream ends
    normally: the chunks follow the progress events, then the sink is
    closed. *)
Lemma handler_ok request result trace chunks :
  processUserQuery env request = (Ok result, trace) ->
  AI_run_stream env (QueryProcessingResult.messages result) = Ok (chunks, None) ->
  handler env request
  = (Ok tt,
     trace ++ Call Model :: map (fun c => Emit (ChunkEvent c)) chunks ++ [Close]).
Proof.
  intros HP HS. unfold handler. rewrite HP. unfold call. cbn [bind].
  rewrite HS. cbn [bind fst snd]. rewrite relay_eq. cbn [bind close try_catch].
  reflexivity.
Qed.

(** A run whose coordinator throws: the handler reports the failure a
    second time and closes the sink. *)
Lemma handler_rejected request e trace :
  processUserQuery env request = (Throw e, trace) ->
  handler env request
  = (Ok tt,
     trace ++ [Emit (ErrorEvent (js "Failed to process query: " ++ message_of e));
               Close]).
Proof. intros HP. unfold handler. rewrite HP. reflexivity. Qed.

(** The coordinator returns exactly when the input checks pass and the
    vector fan-out fulfils. *)
Lemma processUserQuery_returns request result trace :
  processUserQuery env request = (Ok result, trace) ->
  exists sid msgs query text vr,
    accepted request sid msgs query
    /\ outcome_of (searchDocumentChunks env (expanded_queries env query)) = Ok text
    /\ outcome_of (vectorSearch env (expanded_queries env query) sid) = Ok vr
    /\ result
       = {| QueryProcessingResult.messages :=
              systemMessage :: msgs
              ++ [contextMessage (formatContext (fetched env (top_ids text vr)))];
            QueryProcessingResult.relevantDocs := fetched env (top_ids text vr);
            QueryProcessingResult.queries := expanded_queries env query |}
    /\ events_of trace
       = progress_events (expanded_queries env query)
           (List.length (fetched env (top_ids text vr))).
Proof.
  intros HP.
  destruct (rejection request) as [reason|] eqn:HR.
  { rewrite (processUserQuery_rejected env _ HR) in HP. discriminate. }
  destruct (not_rejected_accepted _ HR) as (sid & msgs & query & Hacc).
  destruct (searchDocumentChunks_total env (expanded_queries env query))
    as [text Ht].
  destruct (outcome_of (vectorSearch env (expanded_queries env query) sid))
    as [vr|e] eqn:Hv.
  - destruct (processUserQuery_ok env Hacc Ht Hv) as [Ho He].
    rewrite HP in Ho, He. simpl in Ho, He. injection Ho as ->.
    exists sid, msgs, query, text, vr.
    split; [exact Hacc|]. split; [exact Ht|]. split; [exact Hv|].
    split; [reflexivity|exact He].
  - destruct (processUserQuery_vector_throw env Hacc Hv) as [Ho _].
    rewrite HP in Ho. discriminate.
Qed.

End HandlerFacts.

(* ================================================================== *)
(** * Facts about rank fusion *)
(* ================================================================== *)

Section FusionFacts.
Context {num : Type} {NUM : Number num}.
Implicit Types (s : object num) (l : source) (k : jsstring).

Lemma forEach_map (A B T : Type) (g : A -> B) (f : T -> B -> nat -> T) xs i
    (t0 : T) :
  forEach f (map g xs) i t0 = forEach (fun t x index => f t (g x) index) xs i t0.
Proof.
  revert i t0. induction xs as [|x xs IH]; simpl; intros; [reflexivity|].
  apply IH.
Qed.

Lemma fused_scores_sources ft vr : fused_scores ft vr = fuse (sources ft vr).
Proof.
  unfold fused_scores, fuse, sources. simpl.
  unfold accumulate_source at 2, hit_ids. rewrite forEach_map.
  generalize (forEach (fun s (r : DocumentChunkResult.t num) index =>
                accumulate s (DocumentChunkResult.id r) index) ft 0%nat []).
  induction vr as [|r vr IH]; simpl; intros s; [reflexivity|].
  rewrite <- IH. f_equal.
  unfold accumulate_matches, accumulate_source, match_ids.
  destruct (VectorizeMatches.matches r); [|reflexivity].
  rewrite forEach_map. reflexivity.
Qed.

Lemma get_accumulate_same k s i :
  str_truthy k = true ->
  get k (accumulate s (Some k) i)
  = Some (add (or_zero (get k s)) (rank_score i)).
Proof. intros H. unfold accumulate. rewrite H. apply get_set_same. Qed.

Lemma get_accumulate_other k k' s i :
  k <> k' -> get k (accumulate s (Some k') i) = get k s.
Proof.
  intros H. unfold accumulate. destruct (str_truthy k'); [|reflexivity].
  apply get_set_other. congruence.
Qed.

Lemma get_accumulate_source k l : forall i s,
  str_truthy k = true ->
  get k (forEach accumulate l i s) = summed (get k s) (positions k l i).
Proof.
  induction l as [|[k'|] l IH]; cbn [forEach positions]; intros i s Hk;
    [reflexivity| |].
  - rewrite (IH _ _ Hk). destruct (str_eqb k k') eqn:E.
    + apply str_eqb_eq in E. subst k'.
      rewrite get_accumulate_same by exact Hk. reflexivity.
    + rewrite get_accumulate_other; [reflexivity|].
      intros ->. rewrite str_eqb_refl in E. discriminate.
  - apply (IH _ _ Hk).
Qed.

Lemma summed_cons v p ps :
  summed v (p :: ps) = summed (Some (add (or_zero v) (rank_score p))) ps.
Proof. reflexivity. Qed.

Lemma summed_app v ps qs : summed v (ps ++ qs) = summed (summed v ps) qs.
Proof. apply fold_left_app. Qed.

Lemma get_fold_sources k ss : forall s,
  str_truthy k = true ->
  get k (fold_left accumulate_source ss s) = summed (get k s) (occurrences k ss).
Proof.
  induction ss as [|l ss IH]; simpl; intros s Hk; [reflexivity|].
  rewrite (IH _ Hk), summed_app. f_equal.
  apply get_accumulate_source. exact Hk.
Qed.

(** The score of an id is the running sum over its occurrences. *)
Lemma get_fuse k ss :
  str_truthy k = true -> get k (fuse ss) = summed None (occurrences k ss).
Proof. intros Hk. unfold fuse. rewrite get_fold_sources by exact Hk. reflexivity. Qed.

Lemma well_keyed_accumulate s id i :
  well_keyed s -> well_keyed (accumulate s id i).
Proof.
  intros [ND F]. unfold accumulate. destruct id as [k|]; [|split; assumption].
  destruct (str_truthy k) eqn:Hk; [|split; assumption].
  split; [apply NoDup_keys_set; exact ND|].
  rewrite keys_set. destruct (get k s); [exact F|].
  apply Forall_app. split; [exact F|]. constructor; [exact Hk|constructor].
Qed.

Lemma well_keyed_source l : forall i s,
  well_keyed s -> well_keyed (forEach accumulate l i s).
Proof.
  induction l as [|x l IH]; simpl; intros i s H; [exact H|].
  apply IH. apply well_keyed_accumulate. exact H.
Qed.

Lemma well_keyed_fuse ss : well_keyed (fuse ss).
Proof.
  unfold fuse. assert (H : well_keyed (@nil (jsstring * num))).
  { split; constructor. }
  revert H. generalize (@nil (jsstring * num)).
  induction ss as [|l ss IH]; simpl; intros s H; [exact H|].
  apply IH. apply well_keyed_source. exact H.
Qed.

Lemma summed_Some v ps : ps <> [] -> exists x, summed v ps = Some x.
Proof.
  revert v. induction ps as [|p ps IH]; intros v H; [congruence|].
  simpl. destruct ps as [|q ps]; [simpl; eauto|].
  apply IH. discriminate.
Qed.

(** The positions are the original indices of the list. *)
Lemma positions_spec k l : forall i j,
  In j (positions k l i) <-> (i <= j)%nat /\ nth_error l (j - i) = Some (Some k).
Proof.
  induction l as [|x l IH]; intros i j; simpl.
  - split; [tauto|]. intros [_ H]. destruct (j - i)%nat; discriminate.
  - assert (Hstep : (S i <= j)%nat /\ nth_error l (j - S i) = Some (Some k)
                    <-> (i < j)%nat /\ nth_error (x :: l) (j - i) = Some (Some k)).
    { split; intros [H1 H2]; (split; [lia|]).
      - replace (j - i)%nat with (S (j - S i)) by lia. exact H2.
      - replace (j - i)%nat with (S (j - S i)) in H2 by lia. exact H2. }
    assert (Hhere : forall b : bool,
      (b = true <-> x = Some k) ->
      (In j (if b then i :: positions k l (S i) else positions k l (S i))
       <-> (i <= j)%nat /\ nth_error (x :: l) (j - i) = Some (Some k))).
    { intros b Hb. destruct b; simpl; rewrite IH, Hstep.
      - split.
        + intros [<-|[H1 H2]]; [|split; [lia|exact H2]].
          split; [lia|]. rewrite Nat.sub_diag. simpl. f_equal. apply Hb. reflexivity.
        + intros [H1 H2]. destruct (Nat.eq_dec i j); [auto|right; split; [lia|exact H2]].
      - split; [intros [H1 H2]; split; [lia|exact H2]|].
        intros [H1 H2]. split; [|exact H2].
        destruct (Nat.eq_dec i j) as [->|]; [|lia].
        rewrite Nat.sub_diag in H2. simpl in H2. injection H2 as H2.
        apply Hb in H2. discriminate. }
    destruct x as [k'|].
    + apply Hhere. rewrite str_eqb_eq. split; congruence.
    + apply (Hhere false). split; discriminate.
Qed.
End FusionFacts.

(** ** Binary64: the comparator of [sort] never orders a pair both ways *)

Lemma SFltb_zero_round_neg m e :
  SFltb (S754_zero false) (binary_round prec emax true m e) = false.
Proof.
  unfold binary_round, binary_round_aux.
  repeat match goal with
         | |- context [let '(_, _) := ?x in _] => destruct x
         end.
  destruct (shr_m _); [reflexivity| |reflexivity].
  destruct (Z.leb _ _); reflexivity.
Qed.

Lemma SFltb_zero_normalize m e :
  (m <= 0)%Z -> SFltb (S754_zero false) (binary_normalize prec emax m e false) = false.
Proof.
  destruct m; simpl; intros H; [reflexivity|lia|apply SFltb_zero_round_neg].
Qed.

Lemma SFsub_asym x y :
  SFltb (S754_zero false) (SFsub prec emax y x) = true ->
  SFltb (S754_zero false) (SFsub prec emax x y) = false.
Proof.
  destruct x as [sx|sx| |sx mx ex], y as [sy|sy| |sy my ey];
    try (destruct sx; try destruct sy; simpl; intros; (reflexivity || discriminate));
    try (destruct sy; simpl; intros; (reflexivity || discriminate));
    try (simpl; intros; discriminate).
  unfold SFsub. rewrite (Z.min_comm ey ex).
  set (a := cond_Zopp sx _). set (b := cond_Zopp sy _).
  intros H. apply SFltb_zero_normalize.
  destruct (Z_le_gt_dec (b - a) 0) as [Hle|Hgt]; [|lia].
  rewrite SFltb_zero_normalize in H by exact Hle. discriminate.
Qed.

Lemma float_sub_asym (a b : float) :
  positive (sub b a) = true -> positive (sub a b) = false.
Proof.
  simpl. rewrite !FloatAxioms.ltb_spec, !FloatAxioms.sub_spec.
  apply SFsub_asym.
Qed.

(** ** Binary64: scores are sums of non-negative terms *)

Lemma shr_1_nonneg mrs : (0 <= shr_m mrs)%Z -> (0 <= shr_m (shr_1 mrs))%Z.
Proof.
  destruct mrs as [m r s]. simpl.
  destruct m as [|p|p]; simpl; try lia; destruct p; simpl; lia.
Qed.

Lemma iter_shr_1_nonneg p : forall mrs,
  (0 <= shr_m mrs)%Z -> (0 <= shr_m (@SpecFloat.iter_pos shr_record shr_1 p mrs))%Z.
Proof.
  induction p as [p IH|p IH|]; simpl; intros mrs H.
  - apply IH, IH, shr_1_nonneg, H.
  - apply IH, IH, H.
  - apply shr_1_nonneg, H.
Qed.

Lemma shr_fexp_nonneg m e l :
  (0 <= m)%Z -> (0 <= shr_m (fst (shr_fexp prec emax m e l)))%Z.
Proof.
  intros H. unfold shr_fexp, shr.
  assert (H0 : (0 <= shr_m (shr_record_of_loc m l))%Z).
  { destruct l as [|[| |]]; simpl; exact H. }
  destruct (fexp prec emax (Zdigits2 m + e) - e)%Z; simpl; auto.
  apply iter_shr_1_nonneg, H0.
Qed.

Lemma round_nearest_even_nonneg m l :
  (0 <= m)%Z -> (0 <= round_nearest_even m l)%Z.
Proof.
  intros H. destruct l as [|[| |]]; simpl; try lia.
  destruct (Z.even m); lia.
Qed.

Lemma binary_round_aux_nonneg m e l :
  (0 <= m)%Z -> sf_nonneg (binary_round_aux prec emax false m e l).
Proof.
  intros H. unfold binary_round_aux.
  pose proof (shr_fexp_nonneg e l H) as H1.
  destruct (shr_fexp prec emax m e l) as [mrs' e']. simpl in H1.
  pose proof (@shr_fexp_nonneg
                (round_nearest_even (shr_m mrs') (loc_of_shr_record mrs'))
                e' loc_Exact (round_nearest_even_nonneg _ H1)) as H2.
  destruct (shr_fexp prec emax _ e' loc_Exact) as [mrs'' e'']. simpl in H2.
  destruct (shr_m mrs''); [exact I| |lia].
  destruct (Z.leb _ _); exact I.
Qed.

Lemma binary_round_nonneg m e : sf_nonneg (binary_round prec emax false m e).
Proof.
  unfold binary_round. destruct (shl_align _ _ _).
  apply binary_round_aux_nonneg. lia.
Qed.

Lemma binary_normalize_nonneg m e :
  (0 <= m)%Z -> sf_nonneg (binary_normalize prec emax m e false).
Proof.
  destruct m as [|p|p]; simpl; intros H; [exact I| |lia].
  apply binary_round_nonneg.
Qed.

Lemma SFadd_nonneg x y :
  sf_nonneg x -> sf_nonneg y -> sf_nonneg (SFadd prec emax x y).
Proof.
  destruct x as [[|]|[|]| |[|] mx ex], y as [[|]|[|]| |[|] my ey];
    simpl; try tauto.
  intros _ _. apply binary_round_nonneg.
Qed.

Lemma SFdiv_nonneg mx ex y :
  sf_nonneg y -> sf_nonneg (SFdiv prec emax (S754_finite false mx ex) y).
Proof.
  destruct y as [[|]|[|]| |[|] my ey]; simpl; try tauto.
  intros _. unfold SFdiv_core_binary.
  match goal with |- context [Z.div_eucl ?a ?b] =>
    pose proof (Z_div_mod a b eq_refl) as Hdm;
    assert (Ha : (0 <= a)%Z);
    [|destruct (Z.div_eucl a b) as [q r]]
  end.
  { destruct (_ - _ - _)%Z; try lia. rewrite Z.shiftl_mul_pow2 by lia.
    apply Z.mul_nonneg_nonneg; [lia|]. apply Z.pow_nonneg. lia. }
  apply binary_round_aux_nonneg. nia.
Qed.

Lemma of_nat_nonneg (n : nat) : nonneg (of_nat n).
Proof.
  unfold nonneg. simpl. rewrite FloatAxioms.of_uint63_spec.
  apply binary_normalize_nonneg. apply Uint63.to_Z_bounded.
Qed.

Lemma add_nonneg (x y : float) : nonneg x -> nonneg y -> nonneg (add x y).
Proof.
  unfold nonneg. simpl. rewrite FloatAxioms.add_spec. apply SFadd_nonneg.
Qed.

Lemma Prim2SF_one :
  Prim2SF (@of_nat float float64 1) = S754_finite false 4503599627370496 (-52).
Proof. vm_compute. reflexivity. Qed.

Lemma Prim2SF_zero : Prim2SF (@of_nat float float64 0) = S754_zero false.
Proof. vm_compute. reflexivity. Qed.

Lemma rank_score_nonneg (index : nat) : nonneg (rank_score (num:=float) index).
Proof.
  unfold nonneg, rank_score.
  assert (Hd : nonneg (add (add RANKING_CONSTANT (of_nat index))
                           (@of_nat float float64 1))).
  { apply add_nonneg; [apply add_nonneg|]; apply of_nat_nonneg. }
  revert Hd. generalize (add (add RANKING_CONSTANT (of_nat index))
                             (@of_nat float float64 1)).
  intros d Hd.
  change (sf_nonneg (Prim2SF (PrimFloat.div (@of_nat float float64 1) d))).
  rewrite FloatAxioms.div_spec, Prim2SF_one.
  apply SFdiv_nonneg. exact Hd.
Qed.

(** Adding a non-negative number to 0 returns it. *)
Lemma zero_add_nonneg (x : float) :
  nonneg x -> add (@of_nat float float64 0) x = x.
Proof.
  unfold nonneg. intros H. apply Prim2SF_inj.
  change (Prim2SF (PrimFloat.add (@of_nat float float64 0) x) = Prim2SF x).
  rewrite FloatAxioms.add_spec, Prim2SF_zero.
  destruct (Prim2SF x) as [[|]|[|]| |[|] m e]; simpl in *; tauto.
Qed.

(** [x || 0] is [x] for a non-negative number. *)
Lemma or_zero_nonneg (x : float) : nonneg x -> or_zero (Some x) = x.
Proof.
  unfold nonneg, or_zero. intros H.
  change (falsy x) with (PrimFloat.eqb x (@of_nat float float64 0)
                         || negb (PrimFloat.eqb x x)).
  rewrite !FloatAxioms.eqb_spec, Prim2SF_zero.
  destruct (Prim2SF x) as [[|]|[|]| |[|] m e] eqn:E; simpl in H; try tauto.
  - change (@of_nat float float64 0 = x). apply Prim2SF_inj.
    rewrite E, Prim2SF_zero. reflexivity.
  - unfold SFeqb. cbn [SFcompare]. rewrite Z.compare_refl, Pos.compare_cont_refl.
    reflexivity.
Qed.

Lemma SFadd_comm x y : SFadd prec emax x y = SFadd prec emax y x.
Proof.
  destruct x as [[|]|[|]| |sx mx ex], y as [[|]|[|]| |sy my ey];
    try reflexivity.
  unfold SFadd. rewrite (Z.min_comm ey ex). f_equal. apply Z.add_comm.
Qed.

(** Binary64 addition is commutative. *)
Lemma float_add_comm (x y : float) : add x y = add y x.
Proof.
  apply Prim2SF_inj. simpl. rewrite !FloatAxioms.add_spec.
  apply SFadd_comm.
Qed.

Lemma float_summed_from (x : float) (ps : list nat) :
  nonneg x ->
  summed (Some x) ps
  = Some (fold_left (fun acc q => add acc (rank_score q)) ps x).
Proof.
  revert x. induction ps as [|p ps IH]; intros x Hx; [reflexivity|].
  rewrite summed_cons, or_zero_nonneg by exact Hx.
  apply IH. apply add_nonneg; [exact Hx|apply rank_score_nonneg].
Qed.

(** In binary64 the guard [|| 0] never changes a partial sum: the score is
    the sum of the terms from the left. *)
Lemma float_summed (ps : list nat) :
  summed (num:=float) None ps
  = match ps with [] => None | _ :: _ => Some (total ps) end.
Proof.
  destruct ps as [|p ps]; [reflexivity|].
  rewrite summed_cons. unfold or_zero.
  rewrite zero_add_nonneg by apply rank_score_nonneg.
  apply float_summed_from. apply rank_score_nonneg.
Qed.

(** Up to two terms, the order of the additions does not matter. *)
Lemma float_total_perm_2 (ps qs : list nat) :
  Permutation ps qs -> (List.length ps <= 2)%nat ->
  total (num:=float) ps = total qs.
Proof.
  intros HP Hlen.
  destruct ps as [|p [|q [|r ps]]]; simpl in Hlen; try lia.
  - apply Permutation_nil in HP. subst. reflexivity.
  - apply Permutation_length_1_inv in HP. subst. reflexivity.
  - apply Permutation_length_2_inv in HP. destruct HP as [->| ->].
    + reflexivity.
    + simpl. apply float_add_comm.
Qed.

(** ** Exact arithmetic: the running sum is the sum *)

Lemma exact_or_zero (x : Qc) : or_zero (Some x) = x.
Proof.
  unfold or_zero. simpl. destruct (Qc_eq_bool x (Q2Qc 0)) eqn:E; [|reflexivity].
  apply Qc_eq_bool_correct in E. subst x. apply Qc_is_canon. reflexivity.
Qed.

Lemma exact_summed_from (x : Qc) ps :
  summed (Some x) ps = Some (Qcplus x (exact_total ps)).
Proof.
  revert x. induction ps as [|p ps IH]; intros x.
  - simpl. f_equal. unfold exact_total. simpl. symmetry. apply Qcplus_0_r.
  - rewrite summed_cons, exact_or_zero, IH. f_equal.
    unfold exact_total. simpl. symmetry. apply Qcplus_assoc.
Qed.

Lemma exact_summed ps :
  summed (num:=Qc) None ps
  = match ps with [] => None | _ :: _ => Some (exact_total ps) end.
Proof.
  destruct ps as [|p ps]; [reflexivity|].
  rewrite summed_cons, exact_summed_from. f_equal.
  unfold exact_total, or_zero. simpl.
  replace (Q2Qc (inject_Z 0)) with (Q2Qc 0) by (apply Qc_is_canon; reflexivity).
  rewrite Qcplus_0_l. reflexivity.
Qed.

Lemma exact_total_perm ps qs :
  Permutation ps qs -> exact_total ps = exact_total qs.
Proof.
  unfold exact_total. induction 1; simpl.
  - reflexivity.
  - f_equal. assumption.
  - rewrite !Qcplus_assoc. f_equal. apply Qcplus_comm.
  - congruence.
Qed.

Lemma occurrences_perm k ss ss' :
  Permutation ss ss' -> Permutation (occurrences k ss) (occurrences k ss').
Proof. intros H. unfold occurrences. apply Permutation_flat_map. exact H. Qed.

Lemma In_fusion_iff {num} `{Number num} ft vr k (x : num) :
  In {| RankedResult.id := k; RankedResult.score := x |}
     (performReciprocalRankFusion ft vr)
  <-> str_truthy k = true
      /\ summed None (occurrences k (sources ft vr)) = Some x.
Proof.
  unfold performReciprocalRankFusion. rewrite fused_scores_sources.
  destruct (well_keyed_fuse (sources ft vr)) as [ND F].
  split.
  - intros Hin. apply (Permutation_in _ (sort_perm _ _)) in Hin.
    apply in_map_iff in Hin. destruct Hin as ([k' x'] & [= -> ->] & Hin).
    apply (Permutation_in _ (entries_perm _)) in Hin.
    assert (Hk : str_truthy k = true).
    { rewrite Forall_forall in F. apply F.
      apply (in_map fst) in Hin. exact Hin. }
    split; [exact Hk|].
    rewrite <- get_fuse by exact Hk. apply get_In; assumption.
  - intros [Hk Hs].
    apply (Permutation_in _ (Permutation_sym (sort_perm _ _))).
    apply in_map_iff. exists (k, x). split; [reflexivity|].
    apply (Permutation_in _ (Permutation_sym (entries_perm _))).
    apply get_In; [exact ND|]. rewrite get_fuse by exact Hk. exact Hs.
Qed.

Lemma fusion_ids_NoDup {num} `{Number num} ft vr :
  NoDup (map (@RankedResult.id num) (performReciprocalRankFusion ft vr)).
Proof.
  unfold performReciprocalRankFusion.
  eapply Permutation_NoDup.
  - apply Permutation_map. symmetry. apply sort_perm.
  - rewrite map_map. simpl.
    eapply Permutation_NoDup.
    + apply Permutation_map. symmetry. apply entries_perm.
    + rewrite fused_scores_sources. apply well_keyed_fuse.
Qed.

Lemma fusion_sorted_float ft vr :
  Sorted score_descending (performReciprocalRankFusion (num:=float) ft vr).
Proof.
  unfold performReciprocalRankFusion. apply sort_sorted.
  intros a b. unfold score_after. apply float_sub_asym.
Qed.

(** In binary64 an entry of the output is an id that occurs, with the sum
    of its terms added from the left. *)
Lemma In_fusion_float ft vr k (x : float) :
  In {| RankedResult.id := k; RankedResult.score := x |}
     (performReciprocalRankFusion ft vr)
  <-> str_truthy k = true
      /\ occurrences k (sources ft vr) <> []
      /\ x = total (occurrences k (sources ft vr)).
Proof.
  rewrite In_fusion_iff, float_summed.
  destruct (occurrences k (sources ft vr)) as [|p ps].
  - split; [intros [_ H]; discriminate|intros (_ & H & _); congruence].
  - split.
    + intros [Hk [= <-]]. repeat split; [exact Hk|discriminate].
    + intros (Hk & _ & ->). split; [exact Hk|reflexivity].
Qed.

(** ** Binary64: the comparator of [sort] is the order of the numbers *)

Lemma shr_1_div2 mrs :
  (0 <= shr_m mrs)%Z -> shr_m (shr_1 mrs) = Z.div2 (shr_m mrs).
Proof.
  destruct mrs as [m r s]. simpl.
  destruct m as [|p|p]; simpl; try lia; destruct p; reflexivity.
Qed.

Lemma iter_shr_1_div n : forall mrs,
  (0 <= shr_m mrs)%Z ->
  shr_m (@SpecFloat.iter_pos shr_record shr_1 n mrs)
  = (shr_m mrs / 2 ^ Zpos n)%Z.
Proof.
  induction n as [n IH|n IH|]; intros mrs H; cbn [SpecFloat.iter_pos].
  - rewrite IH by (apply iter_shr_1_nonneg, shr_1_nonneg, H).
    rewrite IH by (apply shr_1_nonneg, H).
    rewrite shr_1_div2, Z.div2_div by exact H.
    rewrite !Z.div_div by (try lia; apply Z.pow_pos_nonneg; lia).
    f_equal. rewrite Pos2Z.inj_xI, <- !Z.pow_add_r, <- Z.pow_succ_r by lia.
    f_equal. lia.
  - rewrite IH by (apply iter_shr_1_nonneg, H).
    rewrite IH by exact H.
    rewrite !Z.div_div by (try lia; apply Z.pow_pos_nonneg; lia).
    f_equal. rewrite Pos2Z.inj_xO, <- !Z.pow_add_r by lia.
    f_equal. lia.
  - rewrite shr_1_div2, Z.div2_div by exact H. reflexivity.
Qed.

Lemma digits2_bounds (p : BinNums.positive) :
  (2 ^ (Zpos (digits2_pos p) - 1) <= Zpos p < 2 ^ Zpos (digits2_pos p))%Z.
Proof.
  induction p as [p IH|p IH|]; simpl digits2_pos.
  - rewrite Pos2Z.inj_succ.
    replace (Z.succ (Zpos (digits2_pos p)) - 1)%Z
      with (Z.succ (Zpos (digits2_pos p) - 1)) by lia.
    rewrite !Z.pow_succ_r by lia. lia.
  - rewrite Pos2Z.inj_succ.
    replace (Z.succ (Zpos (digits2_pos p)) - 1)%Z
      with (Z.succ (Zpos (digits2_pos p) - 1)) by lia.
    rewrite !Z.pow_succ_r by lia. lia.
  - simpl. lia.
Qed.

Lemma shr_fexp_pos m e l :
  (0 < m)%Z -> (SpecFloat.emin prec emax <= e)%Z ->
  (0 < shr_m (fst (shr_fexp prec emax m e l)))%Z
  /\ (SpecFloat.emin prec emax <= snd (shr_fexp prec emax m e l))%Z.
Proof.
  intros Hm He. destruct m as [|p|p]; try lia.
  unfold shr_fexp, shr.
  assert (H0 : shr_m (shr_record_of_loc (Zpos p) l) = Zpos p).
  { destruct l as [|[| |]]; reflexivity. }
  pose proof (digits2_bounds p) as [Hlo _].
  cbn [Zdigits2].
  destruct (fexp prec emax (Zpos (digits2_pos p) + e) - e)%Z as [|q|q] eqn:E;
    cbn [fst snd]; rewrite ?H0; try (split; lia).
  split; [|lia].
  rewrite iter_shr_1_div by (rewrite H0; lia). rewrite H0.
  apply Z.div_str_pos. split; [apply Z.pow_pos_nonneg; lia|].
  etransitivity; [|exact Hlo].
  apply Z.pow_le_mono_r; [lia|].
  unfold fexp, SpecFloat.emin, prec, emax in *. lia.
Qed.

Lemma round_nearest_even_pos m l :
  (0 < m)%Z -> (0 < round_nearest_even m l)%Z.
Proof.
  intros H. destruct l as [|[| |]]; simpl; try lia.
  destruct (Z.even m); lia.
Qed.

Lemma binary_round_aux_pos m e l :
  (0 < m)%Z -> (SpecFloat.emin prec emax <= e)%Z ->
  sf_pos (binary_round_aux prec emax false m e l).
Proof.
  intros Hm He. unfold binary_round_aux.
  destruct (shr_fexp_pos l Hm He) as [H1 H1e].
  destruct (shr_fexp prec emax m e l) as [mrs' e']. cbn [fst snd] in H1, H1e.
  destruct (@shr_fexp_pos
              (round_nearest_even (shr_m mrs') (loc_of_shr_record mrs'))
              e' loc_Exact (round_nearest_even_pos _ H1) H1e) as [H2 _].
  destruct (shr_fexp prec emax _ e' loc_Exact) as [mrs'' e'']. cbn [fst] in H2.
  destruct (shr_m mrs''); try lia.
  destruct (Z.leb _ _); reflexivity.
Qed.

Lemma binary_round_pos m e :
  (SpecFloat.emin prec emax <= e)%Z ->
  sf_pos (binary_round prec emax false m e).
Proof.
  intros He. unfold binary_round, shl_align.
  destruct (_ - e)%Z eqn:E; apply binary_round_aux_pos; try lia.
  unfold fexp in *. lia.
Qed.

Lemma binary_normalize_pos m e :
  (0 < m)%Z -> (SpecFloat.emin prec emax <= e)%Z ->
  sf_pos (binary_normalize prec emax m e false).
Proof.
  destruct m as [|p|p]; simpl; intros H He; try lia.
  apply binary_round_pos, He.
Qed.

Lemma shl_align_value m e e' :
  (e' <= e)%Z ->
  Zpos (fst (shl_align m e e')) = (Zpos m * 2 ^ (e - e'))%Z.
Proof.
  intros H. unfold shl_align.
  destruct (e' - e)%Z as [|d|d] eqn:E; cbn [fst]; try lia.
  - replace (e - e')%Z with 0%Z by lia. lia.
  - change (Pos.iter xO m d) with (shift_pos d m).
    rewrite shift_pos_correct, Z.pow_pos_fold.
    replace (e - e')%Z with (Zpos d) by lia. lia.
Qed.

Lemma bounded_digits m e :
  bounded prec emax m e = true ->
  (SpecFloat.emin prec emax <= e)%Z
  /\ (Zpos m < 2 ^ 53)%Z
  /\ ((SpecFloat.emin prec emax < e)%Z -> (2 ^ 52 <= Zpos m)%Z).
Proof.
  unfold bounded, canonical_mantissa. intros H.
  apply andb_prop in H. destruct H as [H _]. apply Z.eqb_eq in H.
  pose proof (digits2_bounds m) as [Hlo Hhi].
  unfold fexp, SpecFloat.emin, prec, emax in *.
  split; [lia|]. split.
  - eapply Z.lt_le_trans; [exact Hhi|]. apply Z.pow_le_mono_r; lia.
  - intros He. replace 52%Z with (Zpos (digits2_pos m) - 1)%Z by lia.
    exact Hlo.
Qed.

Lemma SFsub_pos a b :
  sf_nonneg a -> sf_nonneg b ->
  SpecFloat.valid_binary prec emax a = true ->
  SpecFloat.valid_binary prec emax b = true ->
  SFltb a b = true -> sf_pos (SFsub prec emax b a).
Proof.
  unfold sf_pos, SFltb.
  destruct a as [[|]|[|]| |[|] ma ea], b as [[|]|[|]| |[|] mb eb];
    cbn [sf_nonneg SFcompare SFsub negb SpecFloat.valid_binary];
    try tauto; try discriminate; try reflexivity.
  intros _ _ Va Vb H.
  destruct (bounded_digits _ _ Va) as (Ea & Ha & _).
  destruct (bounded_digits _ _ Vb) as (Eb & _ & Hb).
  apply binary_normalize_pos; [|lia].
  cbn [cond_Zopp]. change IntDef.Z.sub with Z.sub.
  rewrite !shl_align_value by lia.
  destruct (Z.compare_spec ea eb) as [E|E|E]; try discriminate.
  - subst eb. rewrite Z.min_id, Z.sub_diag, Z.pow_0_r, !Z.mul_1_r.
    change (PosDef.Pos.compare_cont Eq ma mb) with (Pos.compare ma mb) in H.
    destruct (Pos.compare_spec ma mb) as [|Hm|]; try discriminate.
    apply Pos2Z.pos_lt_pos in Hm. clear - Hm. lia.
  - rewrite Z.min_r by lia. rewrite Z.sub_diag, Z.pow_0_r, Z.mul_1_r.
    specialize (Hb ltac:(lia)).
    assert (2 ^ 1 <= 2 ^ (eb - ea))%Z by (apply Z.pow_le_mono_r; lia).
    nia.
Qed.

Lemma SFleb_finite m1 e1 m2 e2 :
  SFleb (S754_finite false m1 e1) (S754_finite false m2 e2) = true
  <-> (e1 < e2)%Z \/ (e1 = e2 /\ (Zpos m1 <= Zpos m2)%Z).
Proof.
  unfold SFleb. cbn [SFcompare].
  change (PosDef.Pos.compare_cont Eq m1 m2) with (Pos.compare m1 m2).
  destruct (Z.compare_spec e1 e2) as [E|E|E].
  - destruct (Pos.compare_spec m1 m2) as [Hm|Hm|Hm];
      [subst m2|apply Pos2Z.pos_lt_pos in Hm|apply Pos2Z.pos_lt_pos in Hm];
      split; try (intros _; right; split; [exact E|lia]);
      try reflexivity; try discriminate.
    intros [H|[_ H]]; lia.
  - split; [intros _; left; exact E|reflexivity].
  - split; [discriminate|intros [H|[H _]]; lia].
Qed.

Lemma SFltb_finite m1 e1 m2 e2 :
  SFltb (S754_finite false m1 e1) (S754_finite false m2 e2) = true
  <-> (e1 < e2)%Z \/ (e1 = e2 /\ (Zpos m1 < Zpos m2)%Z).
Proof.
  unfold SFltb. cbn [SFcompare].
  change (PosDef.Pos.compare_cont Eq m1 m2) with (Pos.compare m1 m2).
  destruct (Z.compare_spec e1 e2) as [E|E|E].
  - destruct (Pos.compare_spec m1 m2) as [Hm|Hm|Hm];
      [subst m2|apply Pos2Z.pos_lt_pos in Hm|apply Pos2Z.pos_lt_pos in Hm];
      split; try (intros _; right; split; [exact E|lia]);
      try reflexivity; try discriminate;
      intros [H|[_ H]]; lia.
  - split; [intros _; left; exact E|reflexivity].
  - split; [discriminate|intros [H|[H _]]; lia].
Qed.

(** Two non-negative numbers are comparable. *)
Lemma SFleb_total a b :
  sf_nonneg a -> sf_nonneg b -> SFleb b a = true \/ SFltb a b = true.
Proof.
  destruct a as [[|]|[|]| |[|] ma ea], b as [[|]|[|]| |[|] mb eb];
    cbn [sf_nonneg]; try tauto; intros _ _;
    try (left; reflexivity); try (right; reflexivity).
  rewrite SFleb_finite, SFltb_finite. lia.
Qed.

Lemma SFleb_trans a b c :
  sf_nonneg a -> sf_nonneg b -> sf_nonneg c ->
  SFleb a b = true -> SFleb b c = true -> SFleb a c = true.
Proof.
  destruct a as [[|]|[|]| |[|] ma ea], b as [[|]|[|]| |[|] mb eb],
           c as [[|]|[|]| |[|] mc ec];
    cbn [sf_nonneg]; try tauto; intros _ _ _;
    try reflexivity; try discriminate.
  rewrite !SFleb_finite. lia.
Qed.

(** For non-negative numbers, [b - a > 0] is false exactly when
    [b <= a]. *)
Lemma float_in_order (a b : float) :
  nonneg a -> nonneg b ->
  positive (sub b a) = false -> PrimFloat.leb b a = true.
Proof.
  unfold nonneg. simpl.
  rewrite FloatAxioms.ltb_spec, FloatAxioms.sub_spec, FloatAxioms.leb_spec.
  intros Ha Hb H.
  destruct (SFleb_total _ _ Ha Hb) as [Hle|Hlt]; [exact Hle|].
  pose proof (SFsub_pos _ _ Ha Hb (FloatAxioms.Prim2SF_valid a)
                (FloatAxioms.Prim2SF_valid b) Hlt) as Hp.
  unfold sf_pos in Hp.
  change (SFltb (S754_zero false) (SFsub prec emax (Prim2SF b) (Prim2SF a))
          = false) in H.
  congruence.
Qed.

Lemma SFsub_not_pos a b :
  sf_nonneg a -> sf_nonneg b ->
  SpecFloat.valid_binary prec emax a = true ->
  SpecFloat.valid_binary prec emax b = true ->
  SFleb b a = true -> SFltb (S754_zero false) (SFsub prec emax b a) = false.
Proof.
  destruct a as [[|]|[|]| |[|] ma ea], b as [[|]|[|]| |[|] mb eb];
    cbn [sf_nonneg SFsub negb SpecFloat.valid_binary];
    try tauto; try discriminate; try reflexivity.
  intros _ _ Va Vb H. apply SFleb_finite in H.
  destruct (bounded_digits _ _ Va) as (Ea & _ & Ha).
  destruct (bounded_digits _ _ Vb) as (Eb & Hb & _).
  apply SFltb_zero_normalize.
  cbn [cond_Zopp]. change IntDef.Z.sub with Z.sub.
  rewrite !shl_align_value by lia.
  destruct H as [H|[H Hm]].
  - rewrite Z.min_l by lia. rewrite Z.sub_diag, Z.pow_0_r, Z.mul_1_r.
    specialize (Ha ltac:(lia)).
    assert (2 ^ 1 <= 2 ^ (ea - eb))%Z by (apply Z.pow_le_mono_r; lia).
    nia.
  - subst eb. rewrite Z.min_id, Z.sub_diag, Z.pow_0_r, !Z.mul_1_r. lia.
Qed.

(** For non-negative numbers the comparator [b - a] is positive exactly
    when [a < b]: sorting with it sorts by value. *)
Lemma float_in_order_iff (a b : float) :
  nonneg a -> nonneg b ->
  positive (sub b a) = false <-> PrimFloat.leb b a = true.
Proof.
  intros Ha Hb. split; [apply float_in_order; assumption|].
  unfold nonneg in *. simpl.
  rewrite FloatAxioms.ltb_spec, FloatAxioms.sub_spec, FloatAxioms.leb_spec.
  apply SFsub_not_pos; try assumption; apply FloatAxioms.Prim2SF_valid.
Qed.

Lemma float_leb_trans (a b c : float) :
  nonneg a -> nonneg b -> nonneg c ->
  PrimFloat.leb a b = true -> PrimFloat.leb b c = true ->
  PrimFloat.leb a c = true.
Proof.
  unfold nonneg. rewrite !FloatAxioms.leb_spec. apply SFleb_trans.
Qed.

Lemma total_nonneg (ps : list nat) : nonneg (total (num:=float) ps).
Proof.
  destruct ps as [|p ps]; [apply of_nat_nonneg|]. unfold total.
  generalize (rank_score_nonneg p).
  generalize (rank_score (num:=float) p).
  induction ps as [|q ps IH]; intros x Hx; [exact Hx|].
  cbn [fold_left]. apply IH, add_nonneg; [exact Hx|apply rank_score_nonneg].
Qed.

(** A list sorted for adjacent elements is sorted for all pairs once the
    relation is transitive on the elements of the list. *)
Lemma Sorted_strongly {A} (P : A -> Prop) (R R' : A -> A -> Prop) l :
  (forall a b, P a -> P b -> R a b -> R' a b) ->
  (forall a b c, P a -> P b -> P c -> R' a b -> R' b c -> R' a c) ->
  Forall P l -> Sorted R l -> StronglySorted R' l.
Proof.
  intros HR Htrans. induction l as [|a l IH]; intros HP HS; [constructor|].
  inversion HP as [|? ? Pa Pl]; subst.
  inversion HS as [|? ? HS' Hd]; subst.
  specialize (IH Pl HS'). constructor; [exact IH|].
  destruct l as [|b l']; [constructor|].
  inversion Hd as [|? ? Rab]; subst.
  inversion Pl as [|? ? Pb Pl']; subst.
  inversion IH as [|? ? _ Hb]; subst.
  constructor; [apply HR; assumption|].
  rewrite Forall_forall in *. intros c Hc.
  apply Htrans with (b := b); auto.
Qed.

(** In binary64 the output is in descending order of score over all
    pairs: no entry scores higher than one before it. *)
Lemma fusion_descending_float ft vr :
  StronglySorted
    (fun a b => PrimFloat.leb (RankedResult.score b) (RankedResult.score a)
                = true)
    (performReciprocalRankFusion (num:=float) ft vr).
Proof.
  apply Sorted_strongly
    with (P := fun r => nonneg (RankedResult.score r))
         (R := score_descending).
  - intros a b Ha Hb. apply float_in_order; assumption.
  - intros a b c Ha Hb Hc Hab Hbc.
    apply float_leb_trans with (b := RankedResult.score b); assumption.
  - apply Forall_forall. intros [k x] H.
    apply In_fusion_float in H. destruct H as (_ & _ & ->).
    apply total_nonneg.
  - apply fusion_sorted_float.
Qed.

(** ** Exact arithmetic: the comparator is the order of the rationals *)

Lemma exact_positive (x : Qc) : positive x = true <-> (Q2Qc 0 < x)%Qc.
Proof.
  simpl. rewrite Qclt_alt. destruct (Q2Qc 0 ?= x)%Qc; split; congruence.
Qed.

Lemma exact_score_descending (a b : RankedResult.t Qc) :
  score_descending a b
  <-> (RankedResult.score b <= RankedResult.score a)%Qc.
Proof.
  unfold score_descending, score_after.
  assert (H : positive (sub (RankedResult.score b) (RankedResult.score a)) = true
              <-> (RankedResult.score a < RankedResult.score b)%Qc).
  { rewrite exact_positive. symmetry. apply Qclt_minus_iff. }
  split.
  - intros E. apply Qcnot_lt_le. intros Hlt. apply H in Hlt. congruence.
  - intros Hle.
    destruct (positive (sub (RankedResult.score b) (RankedResult.score a)))
      eqn:E; [|reflexivity].
    exfalso. apply (Qcle_not_lt _ _ Hle). apply H. reflexivity.
Qed.

Lemma StronglySorted_impl {A} (R R' : A -> A -> Prop) (l : list A) :
  (forall a b, R a b -> R' a b) ->
  StronglySorted R l -> StronglySorted R' l.
Proof.
  intros HR. induction 1 as [|a l HS IH HF]; constructor; [exact IH|].
  eapply Forall_impl; [|exact HF]. intros b. apply HR.
Qed.

(** In exact arithmetic every entry scores at least as much as every
    entry after it. *)
Lemma fusion_sorted_exact ft vr :
  StronglySorted
    (fun a b => (RankedResult.score b <= RankedResult.score a)%Qc)
    (performReciprocalRankFusion (num:=Qc) ft vr).
Proof.
  apply StronglySorted_impl with (R := score_descending).
  { intros a b. apply exact_score_descending. }
  apply Sorted_StronglySorted.
  { intros a b c Hab Hbc. apply exact_score_descending in Hab, Hbc.
    apply exact_score_descending. eapply Qcle_trans; eassumption. }
  unfold performReciprocalRankFusion. apply sort_sorted.
  intros a b Hab.
  change (score_descending b a). apply exact_score_descending.
  destruct (Qclt_le_dec (RankedResult.score b) (RankedResult.score a))
    as [Hlt|Hle]; [|exact Hle].
  exfalso.
  assert (Hd : score_descending a b).
  { apply exact_score_descending. apply Qclt_le_weak. exact Hlt. }
  unfold score_descending in Hd. congruence.
Qed.

(* ================================================================== *)
(** * Facts about expansion, sanitization and context assembly *)
(* ================================================================== *)

(** ** Query expansion *)

Lemma firstn_nil_iff {A} (n : nat) (l : list A) :
  firstn (S n) l = [] <-> l = [].
Proof. destruct l; simpl; split; congruence. Qed.

Lemma filter_nil_iff {A} (p : A -> bool) (l : list A) :
  filter p l = [] <-> Forall (fun x => p x = false) l.
Proof.
  induction l as [|x l IH]; simpl.
  - split; [constructor|reflexivity].
  - destruct (p x) eqn:E.
    + split; [discriminate|]. intros H. inversion H. congruence.
    + rewrite IH. split; [constructor; assumption|].
      intros H. inversion H. assumption.
Qed.

Lemma Forall_firstn {A} (P : A -> Prop) (n : nat) (l : list A) :
  Forall P l -> Forall P (firstn n l).
Proof.
  intros H. revert n. induction H; intros [|n]; simpl; constructor; auto.
Qed.

(** The lines [rewriteToQueries] keeps: at most five, each the non-empty
    trimmed form of a line of the response; none exactly when every line
    of the response is blank. *)
Lemma usable_lines_spec (response : jsstring) :
  (List.length (usable_lines response) <= 5)%nat
  /\ Forall (fun q => q <> []
                      /\ exists line,
                           In line (split LF response) /\ q = trim line)
            (usable_lines response)
  /\ (usable_lines response = []
      <-> Forall (fun line => trim line = []) (split LF response)).
Proof.
  unfold usable_lines. split; [apply firstn_le_length|]. split.
  - apply Forall_firstn. apply Forall_forall. intros q Hq.
    apply filter_In in Hq. destruct Hq as [Hin Hlen].
    apply in_map_iff in Hin. destruct Hin as (line & <- & Hline).
    split; [|eauto].
    intros E. rewrite E in Hlen. discriminate.
  - rewrite firstn_nil_iff, filter_nil_iff, Forall_map.
    split; intros H; eapply Forall_impl; try exact H; simpl; intros line Hl.
    + destruct (trim line); [reflexivity|discriminate].
    + rewrite Hl. reflexivity.
Qed.

(** ** The lexical adapter *)

Lemma sanitize_chars (term : jsstring) :
  Forall (fun c => is_word c = true \/ is_space c = true) (sanitize term).
Proof.
  unfold sanitize. apply Forall_forall. intros c Hc.
  apply filter_In in Hc. destruct Hc as [_ Hc].
  apply orb_true_iff in Hc. exact Hc.
Qed.

(** A query that yields no rows adds nothing to the result. *)
Lemma searchDocumentChunks_cons_no_rows {num} `{Number num}
    (env : @Collaborators num) (term : jsstring) (terms : list jsstring) :
  Drizzle_run env (sanitize term) = Ok None
  \/ Drizzle_run env (sanitize term) = Ok (Some []) ->
  outcome_of (searchDocumentChunks env (term :: terms))
  = outcome_of (searchDocumentChunks env terms).
Proof.
  intros Hrows. unfold searchDocumentChunks, outcome_of, call.
  cbn [map Promise_all bind].
  destruct Hrows as [-> | ->]; cbn [ret];
    match goal with |- context [Promise_all ?f ?l] =>
      destruct (Promise_all f l) as [[rs|e] t] end; reflexivity.
Qed.

(** ** Context assembly *)

Lemma map_index_length {A B} (f : A -> nat -> B) (l : list A) (i : nat) :
  List.length (map_index f l i) = List.length l.
Proof. revert i. induction l; simpl; intros; [|rewrite IHl]; reflexivity. Qed.

Lemma map_index_nth {A B} (f : A -> nat -> B) (l : list A) :
  forall i n x,
    nth_error l n = Some x -> nth_error (map_index f l i) n = Some (f x (i + n)%nat).
Proof.
  induction l as [|y l IH]; intros i [|n] x; simpl; try discriminate.
  - intros [= ->]. rewrite Nat.add_0_r. reflexivity.
  - intros H. rewrite (IH (S i) n x H). f_equal. f_equal. lia.
Qed.

Lemma filter_unique_id (docs : list DocumentChunk.t) (d : DocumentChunk.t) :
  NoDup (map DocumentChunk.id docs) -> In d docs ->
  filter (fun d' => str_eqb (DocumentChunk.id d') (DocumentChunk.id d)) docs
  = [d].
Proof.
  induction docs as [|x docs IH]; simpl; intros ND Hin; [tauto|].
  inversion ND as [|? ? Hx ND']; subst.
  destruct Hin as [->|Hin].
  - rewrite str_eqb_refl. f_equal.
    apply filter_nil_iff. apply Forall_forall. intros y Hy.
    apply str_eqb_neq. intros E. apply Hx. rewrite <- E.
    apply in_map. exact Hy.
  - rewrite str_eqb_neq; [apply IH; assumption|].
    intros E. apply Hx. rewrite E. apply in_map. exact Hin.
Qed.

(** A fetch that answers in the order asked is already in rank order. *)
Lemma rank_order_same (docs : list DocumentChunk.t) :
  NoDup (map DocumentChunk.id docs) ->
  rank_order (map DocumentChunk.id docs) docs = docs.
Proof.
  intros ND. unfold rank_order. rewrite flat_map_concat_map, map_map.
  assert (H : forall l, incl l docs ->
            List.concat
              (map (fun x => filter (fun d => str_eqb (DocumentChunk.id d)
                                                (DocumentChunk.id x)) docs) l)
            = l).
  { induction l as [|x l IH]; simpl; intros Hincl; [reflexivity|].
    rewrite filter_unique_id by (auto using Hincl with datatypes).
    simpl. f_equal. apply IH. intros y Hy. apply Hincl. right. exact Hy. }
  apply H. apply incl_refl.
Qed.

(* ================================================================== *)
(** * The claims *)
(* ================================================================== *)








(** C4, as stated, fails: the model answers, every line of its answer is
    blank, and the expander returns no query at all instead of the original
    one. *)
Lemma C4_counterexample :
  AI_run blank_model (rewrite_prompt (js "What was Q2 revenue growth?"))
  = Ok (Some (js "  " ++ [LF] ++ js " "))
  /\ usable_lines (js "  " ++ [LF] ++ js " ") = []
  /\ outcome_of (rewriteToQueries blank_model (js "What was Q2 revenue growth?"))
     = Ok []
  /\ outcome_of (rewriteToQueries blank_model (js "What was Q2 revenue growth?"))
     <> Ok [js "What was Q2 revenue growth?"].
Proof.
  split; [reflexivity|]. split; [vm_compute; reflexivity|].
  split; [vm_compute; reflexivity|].
  vm_compute. intros H. discriminate H.
Qed.

(** C4 (amended). [rewriteToQueries] never throws.  If the model call
    throws, or its answer has no [response], the result is the one-element
    list of the original query.  Otherwise the result is the list of the
    first five non-empty trimmed lines of the response: at most five
    non-empty strings, and no string at all exactly when every line of the
    response is blank. *)
Theorem C4_query_expander :
  forall (num : Type) (NUM : Number num) (env : @Collaborators num)
         (content : jsstring),
    (forall e, AI_run env (rewrite_prompt content) = Throw e ->
               outcome_of (rewriteToQueries env content) = Ok [content])
    /\ (AI_run env (rewrite_prompt content) = Ok None ->
        outcome_of (rewriteToQueries env content) = Ok [content])
    /\ (forall response,
           AI_run env (rewrite_prompt content) = Ok (Some response) ->
           exists queries,
             outcome_of (rewriteToQueries env content) = Ok queries
             /\ queries = usable_lines response
             /\ (List.length queries <= 5)%nat
             /\ Forall (fun q => q <> []
                                 /\ exists line,
                                      In line (split LF response)
                                      /\ q = trim line) queries
             /\ (queries = []
                 <-> Forall (fun line => trim line = [])
                            (split LF response))).
Proof.
  intros num NUM env content.
  split; [|split].
  - intros e H. rewrite rewriteToQueries_eq. unfold expanded_queries.
    rewrite H. reflexivity.
  - intros H. rewrite rewriteToQueries_eq. unfold expanded_queries.
    rewrite H. reflexivity.
  - intros response H. exists (usable_lines response).
    rewrite rewriteToQueries_eq. unfold expanded_queries. rewrite H.
    destruct (usable_lines_spec response) as (H1 & H2 & H3).
    repeat split; try assumption; apply H3.
Qed.

(** C4 (amended) on an unreachable model and on a model that answers with
    two lines. *)
Lemma C4_query_expander_witness :
  outcome_of (rewriteToQueries no_model (js "What was Q2 revenue growth?"))
  = Ok [js "What was Q2 revenue growth?"]
  /\ exists queries,
      outcome_of (rewriteToQueries answering (js "What was Q2 revenue growth?"))
      = Ok queries
      /\ queries = [js "revenue growth"; js "Q2 results"].
Proof.
  split.
  - apply (proj1 (@C4_query_expander float float64 no_model
                    (js "What was Q2 revenue growth?"))
             (Error (js "AI request failed"))).
    reflexivity.
  - destruct (proj2 (proj2 (@C4_query_expander float float64 answering
                              (js "What was Q2 revenue growth?")))
                (js "revenue growth" ++ [LF] ++ js "Q2 results") eq_refl)
      as (queries & Ho & Hq & _).
    exists queries. split; [exact Ho|]. rewrite Hq. vm_compute. reflexivity.
Defined.

(** C5, as stated, fails.  Lexical source: the first expanded query finds a
    row and the second throws, yet the lexical contribution is empty for
    both.  Vector source: when the embedding of one expanded query throws,
    the request fails at the search stage with an error event. *)
Lemma C5_counterexample :
  expanded_queries lexical_down_once (js "What was Q2 revenue growth?")
  = [js "revenue growth"; js "Q2 results"]
  /\ rows_of lexical_down_once (js "revenue growth") = [hit_of "c2"]
  /\ lexical_fails lexical_down_once (js "Q2 results")
  /\ outcome_of (searchDocumentChunks lexical_down_once
                   [js "revenue growth"; js "Q2 results"]) = Ok []
  /\ outcome_of (processUserQuery embedding_down_once question)
     = Throw (Error (js "embedding failed"))
  /\ error_events (trace_of (processUserQuery embedding_down_once question))
     = [ErrorEvent (js "Processing failed: embedding failed")].
Proof.
  split; [vm_compute; reflexivity|].
  split; [vm_compute; reflexivity|].
  split; [exists (Error (js "D1_ERROR")); vm_compute; reflexivity|].
  split; [vm_compute; reflexivity|].
  split; vm_compute; reflexivity.
Qed.

(** C5 (amended). When the full-text query of one or more expanded queries
    throws, the lexical contribution of all expanded queries is empty; if
    the vector search fulfils, rank fusion runs over the vector results
    alone and the request does not fail: the coordinator returns the
    documents fetched for the top ids of that fusion, without an error
    event. *)
Theorem C5_lexical_failure_is_absorbed :
  forall (num : Type) (NUM : Number num) (env : @Collaborators num)
         (request : Request.t) sid msgs query vr,
    accepted request sid msgs query ->
    (exists q, In q (expanded_queries env query) /\ lexical_fails env q) ->
    outcome_of (vectorSearch env (expanded_queries env query) sid) = Ok vr ->
    outcome_of (searchDocumentChunks env (expanded_queries env query)) = Ok []
    /\ exists result,
        outcome_of (processUserQuery env request) = Ok result
        /\ QueryProcessingResult.relevantDocs result
           = fetched env
               (map (@RankedResult.id num)
                    (firstn 10 (performReciprocalRankFusion [] vr)))
        /\ error_events (trace_of (processUserQuery env request)) = [].
Proof.
  intros num NUM env request sid msgs query vr Hacc (q & Hin & Hq) Hv.
  pose proof (@searchDocumentChunks_throw _ _ env _ _ Hin Hq) as Ht.
  split; [exact Ht|].
  destruct (processUserQuery_ok env Hacc Ht Hv) as [Ho He].
  eexists. split; [exact Ho|]. split; [reflexivity|].
  unfold error_events. rewrite He. reflexivity.
Qed.

(** C5 (amended) on the collaborators whose second full-text query
    throws. *)
Lemma C5_lexical_failure_is_absorbed_witness :
  outcome_of (searchDocumentChunks lexical_down_once
                (expanded_queries lexical_down_once
                   (js "What was Q2 revenue growth?"))) = Ok []
  /\ exists result,
      outcome_of (processUserQuery lexical_down_once question) = Ok result
      /\ QueryProcessingResult.relevantDocs result
         = fetched lexical_down_once
             (map (@RankedResult.id float)
                (firstn 10
                   (performReciprocalRankFusion []
                      [matches_of ["c2"%string; "c1"%string];
                       matches_of ["c2"%string; "c1"%string]])))
      /\ error_events (trace_of (processUserQuery lexical_down_once question))
         = [].
Proof.
  apply (@C5_lexical_failure_is_absorbed float float64 lexical_down_once
           question (js "s1")
           [says Message.user "What was Q2 revenue growth?"]
           (js "What was Q2 revenue growth?")).
  - repeat split; try reflexivity.
    exists (says Message.user "What was Q2 revenue growth?"), [].
    split; reflexivity.
  - exists (js "Q2 results"). split.
    + vm_compute. tauto.
    + exists (Error (js "D1_ERROR")). vm_compute. reflexivity.
  - vm_compute. reflexivity.
Defined.

(** C6. When the session identifier or the message history of a request
    is missing or empty, [processUserQuery] throws before it reaches any
    collaborator: the only effect of the call is one error event that
    carries the reason. *)
Theorem C6_validation_failure :
  forall (num : Type) (NUM : Number num) (env : @Collaborators num)
         (request : Request.t),
    missing_or_empty (Request.sessionId request)
    \/ missing_or_empty (Request.messages request) ->
    exists reason,
      processUserQuery env request
      = (Throw (Error reason),
         [Emit (ErrorEvent (js "Processing failed: " ++ reason))])
      /\ calls_of (trace_of (processUserQuery env request)) = [].
Proof.
  intros num NUM env request H.
  assert (HR : exists reason, rejection request = Some reason).
  { unfold rejection, missing_or_empty in *.
    destruct (Request.sessionId request) as [[|c sid]|]; simpl; eauto.
    destruct H as [[H|H]|[H|H]]; try discriminate; rewrite H; eauto. }
  destruct HR as [reason HR]. exists reason.
  rewrite (processUserQuery_rejected env _ HR). split; reflexivity.
Qed.

(** C6 on a request without a session identifier. *)
Lemma C6_validation_failure_witness :
  exists reason,
    processUserQuery answering question_without_session
    = (Throw (Error reason),
       [Emit (ErrorEvent (js "Processing failed: " ++ reason))])
    /\ calls_of (trace_of (processUserQuery answering question_without_session))
       = [].
Proof.
  apply (@C6_validation_failure float float64 answering
           question_without_session).
  left. left. reflexivity.
Defined.








(** C10. Whenever [processUserQuery] returns, the returned messages are the
    system message, then the caller's messages unchanged and in order, then
    one assistant message holding the formatted context of the returned
    documents; no error event was emitted.  With no document retrieved the
    context block after the heading is empty. *)
Theorem C10_returned_messages :
  forall (num : Type) (NUM : Number num) (env : @Collaborators num)
         (request : Request.t) (result : QueryProcessingResult.t)
         (trace : list effect),
    processUserQuery env request = (Ok result, trace) ->
    exists msgs,
      Request.messages request = Some msgs
      /\ QueryProcessingResult.messages result
         = systemMessage :: msgs
           ++ [contextMessage
                 (formatContext (QueryProcessingResult.relevantDocs result))]
      /\ (QueryProcessingResult.relevantDocs result = [] ->
          QueryProcessingResult.messages result
          = systemMessage :: msgs
            ++ [{| Message.role_of := Message.assistant;
                   Message.content := js "Context from documents:" ++ [LF] |}])
      /\ error_events trace = [].
Proof.
  intros num NUM env request result trace HP.
  destruct (processUserQuery_returns env _ HP)
    as (sid & msgs & query & text & vr & Hacc & _ & _ & -> & He).
  exists msgs. destruct Hacc as (_ & _ & Hm & _).
  split; [exact Hm|]. split; [reflexivity|]. split.
  - simpl. intros ->. reflexivity.
  - unfold error_events. rewrite He. reflexivity.
Qed.

(** C10 on a corpus in which nothing matches. *)
Lemma C10_returned_messages_witness :
  exists result trace,
    processUserQuery empty_corpus question = (Ok result, trace)
    /\ QueryProcessingResult.relevantDocs result = []
    /\ QueryProcessingResult.messages result
       = [systemMessage; says Message.user "What was Q2 revenue growth?";
          {| Message.role_of := Message.assistant;
             Message.content := js "Context from documents:" ++ [LF] |}].
Proof.
  eexists. eexists. split; [vm_compute; reflexivity|].
  split; [reflexivity|].
  match goal with
  | |- QueryProcessingResult.messages ?r = _ =>
      destruct (@C10_returned_messages float float64 empty_corpus question r
                  _ eq_refl) as (msgs & Hm & _ & Hz & _)
  end.
  injection Hm as <-. exact (Hz eq_refl).
Defined.

(* ================================================================== *)
(** * Further properties of the coordinator and the handler *)
(* ================================================================== *)

Lemma error_events_app (t u : list effect) :
  error_events (t ++ u) = error_events t ++ error_events u.
Proof. unfold error_events. rewrite events_of_app. apply filter_app. Qed.

Lemma chunk_events_app (t u : list effect) :
  chunk_events (t ++ u) = chunk_events t ++ chunk_events u.
Proof. unfold chunk_events. rewrite events_of_app. apply filter_app. Qed.

(** A coordinator that throws has emitted exactly one error event, its
    last event, and no chunk. *)
Lemma processUserQuery_throws {num} `{Number num} (env : @Collaborators num)
    request e trace :
  processUserQuery env request = (Throw e, trace) ->
  error_events trace = [ErrorEvent (js "Processing failed: " ++ message_of e)]
  /\ chunk_events trace = [].
Proof.
  intros HP.
  destruct (rejection request) as [reason|] eqn:HR.
  { rewrite (processUserQuery_rejected env _ HR) in HP.
    injection HP as <- <-. split; reflexivity. }
  destruct (not_rejected_accepted _ HR) as (sid & msgs & query & Hacc).
  destruct (searchDocumentChunks_total env (expanded_queries env query))
    as [text Ht].
  destruct (outcome_of (vectorSearch env (expanded_queries env query) sid))
    as [vr|e'] eqn:Hv.
  - destruct (processUserQuery_ok env Hacc Ht Hv) as [Ho _].
    rewrite HP in Ho. discriminate.
  - destruct (processUserQuery_vector_throw env Hacc Hv) as [Ho He].
    rewrite HP in Ho, He. simpl in Ho, He. injection Ho as ->.
    unfold error_events, chunk_events. rewrite He. split; reflexivity.
Qed.

(** X1. When the embedding or the vector query of any expanded query
    throws, the request fails at the search stage: [processUserQuery]
    emits the two progress events, then one error event, and rethrows. *)
Theorem X1_vector_failure_fails_the_request :
  forall (num : Type) (NUM : Number num) (env : @Collaborators num)
         (request : Request.t) sid msgs query e,
    accepted request sid msgs query ->
    outcome_of (vectorSearch env (expanded_queries env query) sid) = Throw e ->
    outcome_of (processUserQuery env request) = Throw e
    /\ events_of (trace_of (processUserQuery env request))
       = [Progress (js "Analyzing query...");
          ProgressQueries (js "Searching documents...")
            (expanded_queries env query);
          ErrorEvent (js "Processing failed: " ++ message_of e)].
Proof.
  intros num NUM env request sid msgs query e Hacc Hv.
  apply (processUserQuery_vector_throw env Hacc Hv).
Qed.

(** X1 on the collaborators whose second embedding throws. *)
Lemma X1_vector_failure_fails_the_request_witness :
  outcome_of (processUserQuery embedding_down_once question)
  = Throw (Error (js "embedding failed"))
  /\ events_of (trace_of (processUserQuery embedding_down_once question))
     = [Progress (js "Analyzing query...");
        ProgressQueries (js "Searching documents...")
          [js "revenue growth"; js "Q2 results"];
        ErrorEvent (js "Processing failed: embedding failed")].
Proof.
  apply (@X1_vector_failure_fails_the_request float float64
           embedding_down_once question (js "s1")
           [says Message.user "What was Q2 revenue growth?"]
           (js "What was Q2 revenue growth?")).
  - repeat split; try reflexivity.
    exists (says Message.user "What was Q2 revenue growth?"), [].
    split; reflexivity.
  - vm_compute. reflexivity.
Defined.

(** X2. A failure inside [processUserQuery] reaches the sink as two error
    events: the coordinator's "Processing failed: ..." and then the
    handler's "Failed to process query: ...", with no chunk event. *)
Theorem X2_failure_is_reported_twice :
  forall (num : Type) (NUM : Number num) (env : @Collaborators num)
         (request : Request.t) e trace,
    processUserQuery env request = (Throw e, trace) ->
    error_events (trace_of (handler env request))
    = [ErrorEvent (js "Processing failed: " ++ message_of e);
       ErrorEvent (js "Failed to process query: " ++ message_of e)]
    /\ chunk_events (trace_of (handler env request)) = [].
Proof.
  intros num NUM env request e trace HP.
  destruct (processUserQuery_throws env _ HP) as [He Hc].
  rewrite (handler_rejected env _ HP). simpl.
  rewrite error_events_app, chunk_events_app, He, Hc. split; reflexivity.
Qed.

(** X2 on a request without a session identifier. *)
Lemma X2_failure_is_reported_twice_witness :
  error_events (trace_of (handler answering question_without_session))
  = [ErrorEvent (js "Processing failed: Session ID is required");
     ErrorEvent (js "Failed to process query: Session ID is required")]
  /\ chunk_events (trace_of (handler answering question_without_session)) = [].
Proof.
  apply (@X2_failure_is_reported_twice float float64 answering
           question_without_session (Error (js "Session ID is required"))
           [Emit (ErrorEvent (js "Processing failed: Session ID is required"))]).
  reflexivity.
Defined.


(** X4. The lexical adapter hands at most 10 hits to fusion, and the
    coordinator asks the context assembler for at most 10 chunks. *)
Theorem X4_caps :
  forall (num : Type) (NUM : Number num) (env : @Collaborators num)
         (terms : list jsstring) (text : list (DocumentChunkResult.t num))
         (vr : list (VectorizeMatches.t num)),
    (forall hits, outcome_of (searchDocumentChunks env terms) = Ok hits ->
                  (List.length hits <= 10)%nat)
    /\ (List.length (top_ids text vr) <= 10)%nat.
Proof.
  intros num NUM env terms text vr. split.
  - unfold searchDocumentChunks, outcome_of. intros hits.
    match goal with |- context [Promise_all ?f ?l] =>
      destruct (Promise_all f l) as [[rs|e] t] end;
      cbn [bind try_catch ret fst snd]; intros E.
    + assert (E' : hits = firstn 10 (sort rank_after (List.concat rs)))
        by congruence.
      rewrite E'. apply firstn_le_length.
    + assert (E' : hits = []) by congruence.
      rewrite E'. apply Nat.le_0_l.
  - unfold top_ids. rewrite length_map. apply firstn_le_length.
Qed.

(* ================================================================== *)
(** * Further properties of query.ts *)
(* ================================================================== *)

Lemma Promise_all_all_ok {A B} (f : A -> M B) (l : list A) :
  match all_ok (map (fun x => outcome_of (f x)) l) with
  | Some r => outcome_of (Promise_all f l) = Ok r
  | None => exists e, outcome_of (Promise_all f l) = Throw e
  end.
Proof.
  unfold outcome_of. induction l as [|x l IH]; simpl; [reflexivity|].
  destruct (f x) as [[y|e] t]; destruct (Promise_all f l) as [rs t'];
    simpl in *.
  - destruct (all_ok _) as [r|].
    + subst rs. reflexivity.
    + destruct IH as [e ->]. eauto.
  - eauto.
Qed.

Lemma calls_of_Promise_all {A B} (f : A -> M B) (l : list A) :
  calls_of (trace_of (Promise_all f l))
  = flat_map (fun x => calls_of (trace_of (f x))) l.
Proof.
  unfold trace_of. induction l as [|x l IH]; simpl; [reflexivity|].
  destruct (f x) as [r t]. destruct (Promise_all f l) as [rs t'].
  simpl in *. rewrite calls_of_app, IH. reflexivity.
Qed.

Section VectorFacts.
Context {num : Type} {NUM : Number num}.
Variable env : @Collaborators num.

Lemma all_ok_map_Ok {A} (l : list A) : all_ok (map Ok l) = Some l.
Proof. induction l as [|x l IH]; simpl; [|rewrite IH]; reflexivity. Qed.

Lemma queryVectorIndex_outcome (queries : list jsstring) sid :
  outcome_of (queryVectorIndex env queries sid)
  = Ok (match all_ok (map (matches_for env sid) queries) with
        | Some ms => ms
        | None => []
        end).
Proof.
  unfold queryVectorIndex, outcome_of.
  pose proof (Promise_all_all_ok
                (fun q => call Embedding (AI_run_embedding env q)) queries)
    as P1.
  unfold outcome_of in P1. cbn [call fst] in P1.
  destruct (Promise_all _ queries) as [[vs|e] t1].
  - cbn [bind].
    assert (Hvs : map (AI_run_embedding env) queries = map Ok vs).
    { clear - P1. revert vs P1.
      induction queries as [|q qs IH]; simpl; intros vs P1.
      - injection P1 as ->. reflexivity.
      - destruct (AI_run_embedding env q) as [v|e]; simpl in *.
        + destruct (all_ok _) as [r|] eqn:E.
          * injection P1 as ->. simpl. f_equal. apply IH. reflexivity.
          * destruct P1 as [e He]. discriminate.
        + destruct P1 as [e0 He]. discriminate. }
    assert (Hm : map (matches_for env sid) queries
                 = map (fun v => Vectorize_query env v sid) vs).
    { clear - Hvs. revert vs Hvs.
      induction queries as [|q qs IH]; intros [|v vs] Hvs;
        simpl in *; try discriminate; [reflexivity|].
      injection Hvs as Hq Hqs. unfold matches_for at 1. rewrite Hq.
      f_equal. apply IH. exact Hqs. }
    rewrite Hm.
    pose proof (Promise_all_all_ok
                  (fun qv => call VectorIndex (Vectorize_query env qv sid)) vs)
      as P2.
    unfold outcome_of in P2. cbn [call fst] in P2.
    destruct (Promise_all _ vs) as [[ms|e] t2]; cbn [try_catch ret fst].
    + destruct (all_ok (map _ vs)) as [r|]; simpl in P2.
      * congruence.
      * destruct P2 as [e He]. discriminate.
    + destruct (all_ok (map _ vs)) as [r|]; simpl in P2;
        [discriminate|reflexivity].
  - cbn [bind try_catch ret fst].
    assert (Hn : all_ok (map (matches_for env sid) queries) = None).
    { clear - P1. induction queries as [|q qs IH]; simpl in *.
      - discriminate.
      - unfold matches_for at 1.
        destruct (AI_run_embedding env q) as [v|e0]; simpl in *;
          [|reflexivity].
        destruct (all_ok (map (fun x => AI_run_embedding env x) qs))
          as [r|] eqn:E; [discriminate|].
        rewrite IH by eauto.
        destruct (Vectorize_query env v sid); reflexivity. }
    rewrite Hn. reflexivity.
Qed.

End VectorFacts.

Lemma calls_to_app s (t u : list effect) :
  calls_to s (t ++ u) = (calls_to s t + calls_to s u)%nat.
Proof.
  unfold calls_to. rewrite calls_of_app, filter_app, length_app. reflexivity.
Qed.

Lemma calls_to_repeat s s' (n : nat) :
  calls_to s (repeat (Call s') n) = if service_eqb s s' then n else 0%nat.
Proof.
  unfold calls_to. induction n as [|n IH]; simpl.
  - destruct (service_eqb s s'); reflexivity.
  - destruct (service_eqb s s') eqn:E; simpl; rewrite IH; reflexivity.
Qed.

Lemma events_of_repeat_call s (n : nat) : events_of (repeat (Call s) n) = [].
Proof. induction n as [|n IH]; simpl; [reflexivity|exact IH]. Qed.

Lemma Promise_all_call_trace {A B} s (g : A -> outcome B) (l : list A) :
  trace_of (Promise_all (fun x => call s (g x)) l)
  = repeat (Call s) (List.length l).
Proof.
  unfold trace_of. induction l as [|x l IH]; simpl; [reflexivity|].
  destruct (Promise_all _ l) as [rs t']. simpl in *. rewrite IH. reflexivity.
Qed.

Lemma all_ok_length {A} (l : list (outcome A)) r :
  all_ok l = Some r -> List.length r = List.length l.
Proof.
  revert r. induction l as [|[a|e] l IH]; simpl; intros r H.
  - injection H as <-. reflexivity.
  - destruct (all_ok l) as [r'|]; [|discriminate].
    injection H as <-. simpl. f_equal. apply IH. reflexivity.
  - discriminate.
Qed.

Section VectorTrace.
Context {num : Type} {NUM : Number num}.
Variable env : @Collaborators num.

Lemma queryVectorIndex_trace (queries : list jsstring) sid :
  trace_of (queryVectorIndex env queries sid)
  = repeat (Call Embedding) (List.length queries)
    ++ match all_ok (map (AI_run_embedding env) queries) with
       | Some _ => repeat (Call VectorIndex) (List.length queries)
       | None => []
       end.
Proof.
  unfold queryVectorIndex, trace_of.
  pose proof (Promise_all_all_ok
                (fun q => call Embedding (AI_run_embedding env q)) queries)
    as P1.
  pose proof (Promise_all_call_trace Embedding (AI_run_embedding env) queries)
    as T1.
  unfold outcome_of, trace_of in P1, T1. cbn [call fst] in P1.
  change (map (fun x => AI_run_embedding env x) queries)
    with (map (AI_run_embedding env) queries) in P1.
  destruct (Promise_all _ queries) as [[vs|e] t1]; cbn [snd fst] in *.
  - destruct (all_ok (map (AI_run_embedding env) queries)) as [r|] eqn:E;
      [|destruct P1; discriminate].
    injection P1 as ->. apply all_ok_length in E. rewrite length_map in E.
    cbn [bind].
    pose proof (Promise_all_call_trace VectorIndex
                  (fun qv => Vectorize_query env qv sid) r) as T2.
    unfold trace_of in T2.
    destruct (Promise_all _ r) as [[ms|e] t2]; cbn [snd] in T2;
      cbn [try_catch ret snd]; rewrite ?app_nil_r; congruence.
  - destruct (all_ok (map (AI_run_embedding env) queries)) as [r|];
      [discriminate|].
    cbn [bind try_catch ret snd]. rewrite T1. reflexivity.
Qed.

End VectorTrace.

Lemma Promise_all_trace {A B} (f : A -> M B) (l : list A) :
  trace_of (Promise_all f l) = flat_map (fun x => trace_of (f x)) l.
Proof.
  unfold trace_of. induction l as [|x l IH]; simpl; [reflexivity|].
  destruct (f x) as [r t]. destruct (Promise_all f l) as [rs t'].
  simpl in *. rewrite IH. reflexivity.
Qed.

Lemma calls_to_flat_map_le {A} s (g : A -> list effect) (l : list A) :
  (forall x, calls_to s (g x) <= 1)%nat ->
  (calls_to s (flat_map g l) <= List.length l)%nat.
Proof.
  intros H. induction l as [|x l IH]; simpl; [apply Nat.le_refl|].
  rewrite calls_to_app. specialize (H x). lia.
Qed.

Lemma calls_to_flat_map_eq {A} s (g : A -> list effect) (l : list A) :
  (forall x, calls_to s (g x) = 1)%nat ->
  calls_to s (flat_map g l) = List.length l.
Proof.
  intros H. induction l as [|x l IH]; simpl; [reflexivity|].
  rewrite calls_to_app, H, IH. reflexivity.
Qed.

Lemma calls_to_flat_map_none {A} s (g : A -> list effect) (l : list A) :
  (forall x, calls_to s (g x) = 0)%nat ->
  calls_to s (flat_map g l) = 0%nat.
Proof.
  intros H. induction l as [|x l IH]; simpl; [reflexivity|].
  rewrite calls_to_app, H, IH. reflexivity.
Qed.

Section CallFacts.
Context {num : Type} {NUM : Number num}.
Variable env : @Collaborators num.

Lemma expanded_queries_length (content : jsstring) :
  (List.length (expanded_queries env content) <= 5)%nat.
Proof.
  unfold expanded_queries, usable_lines.
  destruct (AI_run env (rewrite_prompt content)) as [[r|]|e];
    [apply firstn_le_length|simpl; lia|simpl; lia].
Qed.

Lemma bind_call_ret_trace {A B} s (r : outcome A) (g : A -> B) :
  trace_of (x <- call s r ;; ret (g x)) = [Call s].
Proof. unfold call, trace_of. destruct r; reflexivity. Qed.

Lemma flat_map_const_repeat {A B} (g : A -> list B) (y : B) (l : list A) :
  (forall x, g x = [y]) -> flat_map g l = repeat y (List.length l).
Proof.
  intros H. induction l as [|x l IH]; simpl; [reflexivity|].
  rewrite H, IH. reflexivity.
Qed.

Lemma searchDocumentChunks_trace (terms : list jsstring) :
  trace_of (searchDocumentChunks env terms)
  = repeat (Call FullText) (List.length terms).
Proof.
  unfold searchDocumentChunks, trace_of.
  match goal with |- context [Promise_all ?f ?l] =>
    pose proof (Promise_all_trace f l) as T end.
  rewrite flat_map_const_repeat with (y := Call FullText) in T
    by (intros q; apply bind_call_ret_trace).
  rewrite length_map in T. unfold trace_of in T.
  match goal with |- context [Promise_all ?f ?l] =>
    destruct (Promise_all f l) as [[rs|e] t] end;
    cbn [bind try_catch ret fst snd] in *; rewrite ?app_nil_r; exact T.
Qed.

(** The calls of the inline fan-out for one query. *)
Lemma vectorSearch_member_trace q sid :
  trace_of (vector <- call Embedding (AI_generateEmbeddings env q) ;;
            call VectorIndex (Vectorize_query env vector sid))
  = Call Embedding
    :: match AI_generateEmbeddings env q with
       | Ok _ => [Call VectorIndex]
       | Throw _ => []
       end.
Proof.
  unfold call, trace_of.
  destruct (AI_generateEmbeddings env q) as [v|e]; reflexivity.
Qed.

Lemma vectorSearch_calls (queries : list jsstring) sid :
  calls_to Embedding (trace_of (vectorSearch env queries sid))
  = List.length queries
  /\ (calls_to VectorIndex (trace_of (vectorSearch env queries sid))
      <= List.length queries)%nat
  /\ calls_to Model (trace_of (vectorSearch env queries sid)) = 0%nat
  /\ calls_to FullText (trace_of (vectorSearch env queries sid)) = 0%nat
  /\ calls_to Storage (trace_of (vectorSearch env queries sid)) = 0%nat.
Proof.
  unfold vectorSearch. rewrite Promise_all_trace.
  repeat split;
    [apply calls_to_flat_map_eq|apply calls_to_flat_map_le
     |apply calls_to_flat_map_none|apply calls_to_flat_map_none
     |apply calls_to_flat_map_none];
    intros q; rewrite vectorSearch_member_trace;
    destruct (AI_generateEmbeddings env q); cbv; lia.
Qed.

End CallFacts.

Section CoordinatorCalls.
Context {num : Type} {NUM : Number num}.
Variable env : @Collaborators num.

(** The whole trace of an accepted request. *)
Lemma processUserQuery_trace request sid msgs query text :
  accepted request sid msgs query ->
  outcome_of (searchDocumentChunks env (expanded_queries env query)) = Ok text ->
  trace_of (processUserQuery env request)
  = Emit (Progress (js "Analyzing query..."))
    :: Call Model
    :: Emit (ProgressQueries (js "Searching documents...")
               (expanded_queries env query))
    :: trace_of (searchDocumentChunks env (expanded_queries env query))
    ++ trace_of (vectorSearch env (expanded_queries env query) sid)
    ++ match outcome_of (vectorSearch env (expanded_queries env query) sid) with
       | Ok vr =>
           match top_ids text vr with [] => [] | _ :: _ => [Call Storage] end
           ++ [Emit (ProgressFound (js "Compiling context...")
                       (List.length (fetched env (top_ids text vr))))]
       | Throw e =>
           [Emit (ErrorEvent (js "Processing failed: " ++ message_of e))]
       end.
Proof.
  intros (Hs & Hsid & Hm & (m & ms & -> & ->) & Hq) Ht.
  unfold trace_of, outcome_of in *.
  unfold processUserQuery. rewrite Hs, Hsid, Hm. cbn [negb]. rewrite Hq.
  cbn [negb]. rewrite rewriteToQueries_eq. unfold streamResponse. cbn [bind].
  destruct (searchDocumentChunks env _) as [ot tt]. simpl in Ht. subst ot.
  cbn [bind].
  destruct (vectorSearch env _ sid) as [[vr|e] tv]; cbn [bind fst snd].
  - rewrite getRelevantDocuments_eq. fold (top_ids text vr).
    cbn [bind ret try_catch fst snd app]. rewrite ?app_nil_r.
    repeat (f_equal; try (rewrite <- !app_assoc; reflexivity)).
  - cbn [throw try_catch bind streamResponse fst snd app].
    rewrite ?app_nil_r, <- ?app_assoc. reflexivity.
Qed.

End CoordinatorCalls.

(** X5. [queryVectorIndex], the guarded sibling of the inline fan-out,
    never throws and emits no event.  It returns the match lists of the
    queries, in order, when every embedding and every vector query
    succeeds, and the empty list as soon as one of them fails.  Every
    query is sent to the embedding model once; the vector index is queried
    at most once per query, and once per query when all succeed. *)
Theorem X5_queryVectorIndex_absorbs_failures :
  forall (num : Type) (NUM : Number num) (env : @Collaborators num)
         (queries : list jsstring) (sessionId : jsstring),
    let run := queryVectorIndex env queries sessionId in
    outcome_of run
    = Ok (match all_ok (map (matches_for env sessionId) queries) with
          | Some results => results
          | None => []
          end)
    /\ silent run
    /\ calls_to Embedding (trace_of run) = List.length queries
    /\ (calls_to VectorIndex (trace_of run) <= List.length queries)%nat
    /\ match all_ok (map (matches_for env sessionId) queries) with
       | Some _ => calls_to VectorIndex (trace_of run) = List.length queries
       | None => True
       end
    /\ calls_to Model (trace_of run) = 0%nat
    /\ calls_to FullText (trace_of run) = 0%nat
    /\ calls_to Storage (trace_of run) = 0%nat.
Proof.
  intros num NUM env queries sid run. subst run.
  split; [apply queryVectorIndex_outcome|].
  unfold silent. rewrite queryVectorIndex_trace.
  rewrite events_of_app, events_of_repeat_call.
  rewrite !calls_to_app, !calls_to_repeat. cbn [service_eqb].
  assert (Hm : all_ok (map (matches_for env sid) queries) <> None ->
               all_ok (map (AI_run_embedding env) queries) <> None).
  { clear. induction queries as [|q qs IH]; simpl; [congruence|].
    unfold matches_for at 1.
    destruct (AI_run_embedding env q) as [v|e]; [|congruence].
    destruct (all_ok (map (AI_run_embedding env) qs)); [congruence|].
    destruct (Vectorize_query env v sid); [|congruence].
    destruct (all_ok (map (matches_for env sid) qs)); [|congruence].
    intros _. apply IH. congruence. }
  assert (H0 : forall s, calls_to s [] = 0%nat) by reflexivity.
  destruct (all_ok (map (AI_run_embedding env) queries)) as [vs|].
  - rewrite events_of_repeat_call, !calls_to_repeat. cbn [service_eqb].
    split; [reflexivity|]. split; [lia|]. split; [lia|].
    split; [|repeat split; reflexivity].
    destruct (all_ok (map (matches_for env sid) queries)); [lia|exact I].
  - rewrite !H0. split; [reflexivity|]. split; [lia|]. split; [lia|].
    split; [|repeat split; reflexivity].
    destruct (all_ok (map (matches_for env sid) queries)); [|exact I].
    exfalso. apply Hm; congruence.
Qed.

(** X6. Whatever the request and the collaborators answer,
    [processUserQuery] calls the expansion model at most once, sends at
    most five full-text queries and as many embedding requests, never
    more vector queries than embeddings, and fetches chunks at most
    once. *)
Theorem X6_calls_per_request :
  forall (num : Type) (NUM : Number num) (env : @Collaborators num)
         (request : Request.t),
    let trace := trace_of (processUserQuery env request) in
    (calls_to Model trace <= 1)%nat
    /\ (calls_to FullText trace <= 5)%nat
    /\ calls_to Embedding trace = calls_to FullText trace
    /\ (calls_to VectorIndex trace <= calls_to Embedding trace)%nat
    /\ (calls_to Storage trace <= 1)%nat.
Proof.
  intros num NUM env request trace. subst trace.
  destruct (rejection request) as [reason|] eqn:HR.
  { rewrite (processUserQuery_rejected env _ HR). cbv. lia. }
  destruct (not_rejected_accepted _ HR) as (sid & msgs & query & Hacc).
  destruct (searchDocumentChunks_total env (expanded_queries env query))
    as [text Ht].
  rewrite (processUserQuery_trace env Hacc Ht).
  rewrite searchDocumentChunks_trace.
  pose proof (expanded_queries_length env query) as Hn.
  destruct (vectorSearch_calls env (expanded_queries env query) sid)
    as (He & Hv & Hm & Hf & Hst).
  set (tv := trace_of (vectorSearch env (expanded_queries env query) sid)) in *.
  set (n := List.length (expanded_queries env query)) in *.
  assert (Htail : forall s u, calls_to s
            (Emit (Progress (js "Analyzing query..."))
             :: Call Model
             :: Emit (ProgressQueries (js "Searching documents...")
                        (expanded_queries env query))
             :: repeat (Call FullText) n ++ tv ++ u)
          = ((if service_eqb s Model then 1 else 0)
             + (if service_eqb s FullText then n else 0)
             + calls_to s tv + calls_to s u)%nat).
  { intros s u.
    change (calls_to s ([Emit (Progress (js "Analyzing query..."));
                         Call Model;
                         Emit (ProgressQueries (js "Searching documents...")
                                 (expanded_queries env query))]
                        ++ repeat (Call FullText) n ++ tv ++ u)
            = ((if service_eqb s Model then 1 else 0)
               + (if service_eqb s FullText then n else 0)
               + calls_to s tv + calls_to s u)%nat).
    rewrite !calls_to_app, calls_to_repeat.
    generalize (calls_to s tv), (calls_to s u). intros a b.
    destruct s; cbv [calls_to calls_of filter service_eqb List.length]; lia. }
  rewrite !Htail. cbn [service_eqb]. rewrite He, Hm, Hf, Hst.
  revert Hv. generalize (calls_to VectorIndex tv). intros v Hv.
  destruct (outcome_of (vectorSearch env (expanded_queries env query) sid))
    as [vr|e].
  - destruct (top_ids text vr); cbv [app calls_to calls_of filter service_eqb
                                       List.length]; lia.
  - cbv [calls_to calls_of filter service_eqb List.length]; lia.
Qed.

(** X7. When the coordinator returns, the handler relays every chunk of
    the generation stream as one chunk event, in order, after the
    coordinator's events.  A failure of the generation, at submission or
    after some chunks, is reported by one error event after the chunks
    already relayed. *)
Theorem X7_generation_is_relayed :
  forall (num : Type) (NUM : Number num) (env : @Collaborators num)
         (request : Request.t) result trace,
    processUserQuery env request = (Ok result, trace) ->
    events_of (trace_of (handler env request))
    = events_of trace
      ++ match AI_run_stream env (QueryProcessingResult.messages result) with
         | Ok (chunks, None) => map ChunkEvent chunks
         | Ok (chunks, Some e) =>
             map ChunkEvent chunks
             ++ [ErrorEvent (js "Failed to process query: " ++ message_of e)]
         | Throw e =>
             [ErrorEvent (js "Failed to process query: " ++ message_of e)]
         end.
Proof.
  intros num NUM env request result trace HP.
  unfold handler, trace_of. rewrite HP. unfold call. cbn [bind].
  destruct (AI_run_stream env (QueryProcessingResult.messages result))
    as [[chunks [e|]]|e]; cbn [bind fst snd]; rewrite ?relay_eq;
    cbn [bind try_catch streamResponse close throw fst snd];
    rewrite ?events_of_app; cbn [events_of app];
    rewrite ?events_of_app, ?events_of_chunks; cbn [events_of app];
    rewrite ?app_nil_r, <- ?app_assoc; reflexivity.
Qed.

Lemma X7_generation_is_relayed_witness :
  events_of (trace_of (handler answering question))
  = [Progress (js "Analyzing query...");
     ProgressQueries (js "Searching documents...")
       [js "revenue growth"; js "Q2 results"];
     ProgressFound (js "Compiling context...") 2;
     ChunkEvent (js "Hello")].
Proof.
  refine (eq_trans
            (@X7_generation_is_relayed float float64 answering question
               _ _ eq_refl) _).
  vm_compute. reflexivity.
Defined.

Section PrecedesFacts.
Variable A : Type.
Implicit Types (a b x : A) (l : list A).

Lemma precedes_In a b l : precedes a b l -> In a l /\ In b l.
Proof.
  induction 1 as [l Hb|x l H [IHa IHb]]; simpl; auto.
Qed.

Lemma precedes_app_r a b p l : precedes a b l -> precedes a b (p ++ l).
Proof.
  intros H. induction p as [|x p IH]; simpl; [exact H|].
  apply precedes_later. exact IH.
Qed.

Lemma precedes_middle a b p q : In b q -> precedes a b (p ++ a :: q).
Proof. intros H. apply precedes_app_r. apply precedes_here. exact H. Qed.

Lemma precedes_app_l a b l q : precedes a b l -> precedes a b (l ++ q).
Proof.
  induction 1 as [l Hb|x l H IH]; simpl.
  - apply precedes_here. apply in_or_app. auto.
  - apply precedes_later. exact IH.
Qed.

Lemma precedes_split a b l :
  precedes a b l <-> exists p q r, l = p ++ a :: q ++ b :: r.
Proof.
  split.
  - induction 1 as [l Hb|x l H (p & q & r & ->)].
    + apply in_split in Hb. destruct Hb as (q & r & ->).
      exists [], q, r. reflexivity.
    + exists (x :: p), q, r. reflexivity.
  - intros (p & q & r & ->). apply precedes_middle.
    apply in_or_app. right. left. reflexivity.
Qed.

Lemma precedes_filter (f : A -> bool) a b l :
  f a = true -> f b = true -> precedes a b l -> precedes a b (filter f l).
Proof.
  intros Ha Hb. induction 1 as [l Hin|x l H IH]; simpl.
  - rewrite Ha. apply precedes_here. apply filter_In. auto.
  - destruct (f x); [apply precedes_later|]; exact IH.
Qed.

Lemma precedes_map {B} (g : A -> B) a b l :
  precedes a b l -> precedes (g a) (g b) (map g l).
Proof.
  induction 1 as [l Hin|x l H IH]; simpl.
  - apply precedes_here. apply in_map. exact Hin.
  - apply precedes_later. exact IH.
Qed.

Variable after : A -> A -> bool.

Lemma insert_In x b l : In b (insert after x l) <-> b = x \/ In b l.
Proof.
  split; intros H.
  - apply (Permutation_in _ (insert_perm after x l)) in H.
    destruct H; auto.
  - apply (Permutation_in _ (Permutation_sym (insert_perm after x l))).
    destruct H; [left|right]; auto.
Qed.

Lemma precedes_insert a b x l :
  precedes a b l -> precedes a b (insert after x l).
Proof.
  induction 1 as [l Hin|y l H IH]; simpl.
  - destruct (after x a).
    + apply precedes_here. apply insert_In. auto.
    + apply precedes_later, precedes_here. exact Hin.
  - destruct (after x y).
    + apply precedes_later. exact IH.
    + apply precedes_later, precedes_later. exact H.
Qed.

Lemma insert_precedes a b l :
  In b l -> after a b = false -> precedes a b (insert after a l).
Proof.
  intros Hin Hab. induction l as [|y l IH]; simpl; [destruct Hin|].
  destruct (after a y) eqn:E.
  - apply precedes_later. apply IH.
    destruct Hin as [->|Hin]; [congruence|exact Hin].
  - apply precedes_here. exact Hin.
Qed.

(** The sort is stable: an element is overtaken only by a later element
    that the comparator places before it. *)
Lemma sort_stable a b l :
  precedes a b l -> after a b = false -> precedes a b (sort after l).
Proof.
  intros H Hab. induction H as [l Hin|x l H IH]; simpl.
  - apply insert_precedes; [|exact Hab].
    apply (Permutation_in _ (Permutation_sym (sort_perm after l))). exact Hin.
  - apply precedes_insert. exact IH.
Qed.

End PrecedesFacts.

Section KeyOrder.
Context {num : Type} {NUM : Number num}.
Implicit Types (s : object num) (l : source) (k : jsstring).

Lemma existsb_str_eqb k (seen : list jsstring) :
  existsb (str_eqb k) seen = true <-> In k seen.
Proof.
  rewrite existsb_exists. split.
  - intros (x & Hin & E). apply str_eqb_eq in E. subst. exact Hin.
  - intros H. exists k. split; [exact H|apply str_eqb_refl].
Qed.

Lemma get_Some_keys {V} k (o : object V) :
  (exists v, get k o = Some v) <-> In k (map fst o).
Proof.
  pose proof (get_None_keys k o) as H.
  destruct (get k o) as [v|]; split.
  - intros _. destruct (in_dec (list_eq_dec N.eq_dec) k (map fst o)) as [i|n];
      [exact i|]. apply H in n. discriminate.
  - eauto.
  - intros [v E]. discriminate.
  - intros Hin. exfalso. apply H; auto.
Qed.

Lemma keys_accumulate s id i :
  map fst (accumulate s id i) = map fst s ++ new_keys (map fst s) [id].
Proof.
  unfold accumulate. destruct id as [k|]; simpl; [|rewrite app_nil_r; reflexivity].
  destruct (str_truthy k); simpl; [|rewrite app_nil_r; reflexivity].
  rewrite keys_set.
  destruct (existsb (str_eqb k) (map fst s)) eqn:E; simpl.
  - apply existsb_str_eqb in E. apply get_Some_keys in E. destruct E as [v ->].
    rewrite app_nil_r. reflexivity.
  - destruct (get k s) as [v|] eqn:G; [|reflexivity].
    assert (In k (map fst s)) by (apply get_Some_keys; eauto).
    apply existsb_str_eqb in H. congruence.
Qed.

Lemma new_keys_app (seen : list jsstring) l l' :
  new_keys seen (l ++ l')
  = new_keys seen l ++ new_keys (seen ++ new_keys seen l) l'.
Proof.
  revert seen. induction l as [|[k|] l IH]; intros seen; simpl.
  - rewrite app_nil_r. reflexivity.
  - destruct (str_truthy k && negb (existsb (str_eqb k) seen)); simpl.
    + rewrite IH, <- app_assoc. reflexivity.
    + apply IH.
  - apply IH.
Qed.

Lemma keys_source l : forall i s,
  map fst (forEach accumulate l i s) = map fst s ++ new_keys (map fst s) l.
Proof.
  induction l as [|id l IH]; intros i s; cbn [forEach].
  - simpl. rewrite app_nil_r. reflexivity.
  - rewrite IH, keys_accumulate.
    change (id :: l) with ([id] ++ l). rewrite new_keys_app, app_assoc.
    reflexivity.
Qed.

Lemma keys_fold (ss : list source) : forall s,
  map fst (fold_left accumulate_source ss s)
  = map fst s ++ new_keys (map fst s) (List.concat ss).
Proof.
  induction ss as [|l ss IH]; intros s; simpl.
  - rewrite app_nil_r. reflexivity.
  - rewrite IH. change (accumulate_source s l) with (forEach accumulate l 0%nat s).
    rewrite keys_source.
    rewrite new_keys_app, app_assoc. reflexivity.
Qed.

(** The keys of the accumulated mapping are the non-empty ids in the order
    of their first occurrence. *)
Lemma keys_fuse (ss : list source) :
  map fst (fuse (num:=num) ss) = new_keys [] (List.concat ss).
Proof. unfold fuse. rewrite keys_fold. reflexivity. Qed.

Lemma In_new_keys k l : forall seen,
  In k (new_keys seen l)
  <-> str_truthy k = true /\ In (Some k) l /\ ~ In k seen.
Proof.
  induction l as [|[k'|] l IH]; intros seen; simpl.
  - tauto.
  - destruct (str_truthy k') eqn:T; simpl.
    + destruct (existsb (str_eqb k') seen) eqn:E; simpl.
      * apply existsb_str_eqb in E. rewrite IH. split.
        -- intros (H1 & H2 & H3). auto.
        -- intros (H1 & [[= ->]|H2] & H3); [contradiction|auto].
      * assert (Hn : ~ In k' seen).
        { intros H. apply existsb_str_eqb in H. congruence. }
        rewrite IH. split.
        -- intros [->|(H1 & H2 & H3)]; [auto|].
           repeat split; auto. intros H. apply H3. apply in_or_app. auto.
        -- intros (H1 & [[= ->]|H2] & H3); [auto|].
           destruct (list_eq_dec N.eq_dec k' k) as [->|Hne]; [auto|].
           right. repeat split; auto.
           intros H. apply in_app_or in H. destruct H as [H|[H|[]]]; auto.
    + rewrite IH. split.
      * intros (H1 & H2 & H3). auto.
      * intros (H1 & [[= ->]|H2] & H3); [congruence|auto].
  - rewrite IH. split.
    + intros (H1 & H2 & H3). auto.
    + intros (H1 & [H|H2] & H3); [discriminate|auto].
Qed.

Lemma first_seen_precedes k1 k2 (ids : source) :
  str_truthy k1 = true -> str_truthy k2 = true -> k1 <> k2 ->
  first_seen_before k1 k2 ids ->
  precedes k1 k2 (new_keys [] ids).
Proof.
  intros T1 T2 Hne (l1 & l2 & -> & Hn & Hin).
  rewrite new_keys_app. simpl app at 2.
  assert (Hk2 : ~ In k2 (new_keys [] l1)).
  { rewrite In_new_keys. tauto. }
  destruct (in_dec (list_eq_dec N.eq_dec) k1 (new_keys [] l1)) as [Hi|Hni].
  - apply in_split in Hi. destruct Hi as (p & q & E).
    rewrite E at 1. rewrite <- app_assoc. cbn [app].
    apply precedes_middle. apply in_or_app. right.
    apply In_new_keys. split; [exact T2|].
    split; [right; exact Hin|]. exact Hk2.
  - apply precedes_app_r. simpl. rewrite T1.
    assert (E : existsb (str_eqb k1) (new_keys [] l1) = false).
    { destruct (existsb _ _) eqn:E; [|reflexivity].
      apply existsb_str_eqb in E. contradiction. }
    rewrite E. simpl. apply precedes_here.
    rewrite In_new_keys. split; [exact T2|]. split; [exact Hin|].
    intros H. apply in_app_or in H. destruct H as [H|[H|[]]]; auto.
Qed.

(** From the order of the keys to the order of the properties. *)
Lemma precedes_keys {V} k1 k2 v1 v2 (o : object V) :
  NoDup (map fst o) ->
  precedes k1 k2 (map fst o) ->
  get k1 o = Some v1 -> get k2 o = Some v2 ->
  precedes (k1, v1) (k2, v2) o.
Proof.
  intros ND H G1 G2.
  apply (get_In _ _ _ ND) in G1. apply (get_In _ _ _ ND) in G2.
  revert ND G1 G2.
  remember (map fst o) as ks eqn:E. revert o E.
  induction H as [ks Hin|x ks H IH]; intros [|[k v] o] E ND G1 G2;
    try discriminate; simpl in E; injection E as -> ->.
  - inversion ND as [|? ? Hn ND']; subst.
    destruct G1 as [[= ->]|G1].
    + apply precedes_here. destruct G2 as [[= -> ->]|G2]; [contradiction|exact G2].
    + exfalso. apply Hn. apply (in_map fst) in G1. exact G1.
  - inversion ND as [|? ? Hn ND']; subst.
    destruct (precedes_In H) as [Hi1 Hi2].
    apply precedes_later. apply IH; auto.
    + destruct G1 as [[= -> ->]|G1]; [contradiction|exact G1].
    + destruct G2 as [[= -> ->]|G2]; [contradiction|exact G2].
Qed.

End KeyOrder.

Section TieOrder.

Lemma occurrences_total_float k (ss : list source) (v : float) :
  str_truthy k = true ->
  get k (fuse ss) = Some v -> v = total (occurrences k ss).
Proof.
  intros T G. rewrite get_fuse in G by exact T. rewrite float_summed in G.
  destruct (occurrences k ss); [discriminate|]. congruence.
Qed.

(** Two ids that are not array indices keep, in the output, the order in
    which they were first seen, unless the later one scores higher. *)
Lemma fusion_tie_order ft vr k1 k2 :
  str_truthy k1 = true -> str_truthy k2 = true -> k1 <> k2 ->
  array_index k1 = None -> array_index k2 = None ->
  first_seen_before k1 k2 (List.concat (sources ft vr)) ->
  PrimFloat.leb (total (occurrences k2 (sources ft vr)))
                (total (occurrences k1 (sources ft vr))) = true ->
  precedes
    {| RankedResult.id := k1;
       RankedResult.score := total (occurrences k1 (sources ft vr)) |}
    {| RankedResult.id := k2;
       RankedResult.score := total (occurrences k2 (sources ft vr)) |}
    (performReciprocalRankFusion (num:=float) ft vr).
Proof.
  intros T1 T2 Hne A1 A2 Hfirst Hle.
  unfold performReciprocalRankFusion. rewrite fused_scores_sources.
  set (ss := sources ft vr) in *.
  destruct (well_keyed_fuse (num:=float) ss) as [ND _].
  pose proof (first_seen_precedes T1 T2 Hne Hfirst) as Hk.
  rewrite <- (keys_fuse (num:=float)) in Hk.
  destruct (precedes_In Hk) as [I1 I2].
  apply get_Some_keys in I1, I2.
  destruct I1 as [v1 G1], I2 as [v2 G2].
  pose proof (occurrences_total_float k1 ss T1 G1) as E1.
  pose proof (occurrences_total_float k2 ss T2 G2) as E2.
  subst v1 v2.
  assert (Hp : precedes (k1, total (num:=float) (occurrences k1 ss))
                        (k2, total (num:=float) (occurrences k2 ss))
                        (fuse ss))
    by (apply precedes_keys; assumption).
  apply sort_stable.
  - apply (precedes_map
             (fun e : jsstring * float =>
                {| RankedResult.id := fst e; RankedResult.score := snd e |})
             (a := (k1, total (num:=float) (occurrences k1 ss)))
             (b := (k2, total (num:=float) (occurrences k2 ss)))).
    unfold entries. apply precedes_app_r. unfold named_entries.
    apply precedes_filter;
      [cbn [fst]; rewrite A1; reflexivity|cbn [fst]; rewrite A2; reflexivity|].
    exact Hp.
  - unfold score_after. cbn [RankedResult.score].
    apply float_in_order_iff; [apply total_nonneg|apply total_nonneg|exact Hle].
Qed.

End TieOrder.

Lemma Sorted_firstn {A} (R : A -> A -> Prop) (n : nat) (l : list A) :
  Sorted R l -> Sorted R (firstn n l).
Proof.
  revert l. induction n as [|n IH]; intros l H; [constructor|].
  destruct l as [|x l]; [constructor|]. simpl.
  inversion H as [|? ? HS Hd]; subst. constructor; [apply IH; exact HS|].
  destruct l as [|y l]; [destruct n; constructor|].
  destruct n; simpl; constructor. inversion Hd; assumption.
Qed.

Lemma In_firstn {A} (x : A) (n : nat) (l : list A) :
  In x (firstn n l) -> In x l.
Proof.
  intros H. rewrite <- (firstn_skipn n l). apply in_or_app. auto.
Qed.





(* ================================================================== *)
(** * Properties of the earlier variant and of its handler *)
(* ================================================================== *)

(** * Facts about the variant *)

(** ** The regular expression *)

Lemma skip_digits_number (d rest : jsstring) :
  forallb is_digit d = true ->
  Variant.skip_digits (d ++ Variant.FULL_STOP :: rest)
  = Variant.FULL_STOP :: rest.
Proof.
  induction d as [|c d IH]; simpl; intros H; [reflexivity|].
  apply andb_prop in H. destruct H as [Hc Hd]. rewrite Hc. apply IH, Hd.
Qed.

Lemma numbered_quote_numbered (label rest : jsstring) :
  is_number label ->
  Variant.numbered_quote
    (label ++ Variant.FULL_STOP :: SPACE :: QUOTE :: rest)
  = Some (List.length label + 3)%nat.
Proof.
  intros [Hne Hd]. destruct label as [|c d]; [congruence|].
  unfold Variant.numbered_quote. cbn [app].
  pose proof Hd as Hd'. simpl in Hd'. apply andb_prop in Hd'.
  destruct Hd' as [Hc _]. rewrite Hc.
  change (c :: d ++ Variant.FULL_STOP :: SPACE :: QUOTE :: rest)
    with ((c :: d) ++ Variant.FULL_STOP :: SPACE :: QUOTE :: rest).
  rewrite skip_digits_number by exact Hd.
  cbn. f_equal. rewrite length_app. cbn [List.length].
  destruct (List.length rest); lia.
Qed.

(** Dropping the rest of a match. *)
Lemma unquote_from_skip (p rest : jsstring) : forall b,
  p <> [] ->
  Variant.unquote_from b (List.length p) (p ++ rest)
  = Variant.unquote_from (Variant.is_line_terminator (last p 0)) 0 rest.
Proof.
  induction p as [|c p IH]; intros b H; [congruence|].
  destruct p as [|c' p].
  - simpl. destruct rest; reflexivity.
  - change (Variant.unquote_from b (List.length (c :: c' :: p))
              ((c :: c' :: p) ++ rest))
      with (Variant.unquote_from (Variant.is_line_terminator c)
              (List.length (c' :: p)) ((c' :: p) ++ rest)).
    rewrite IH by discriminate. reflexivity.
Qed.

Lemma unquote_from_numbered (label rest : jsstring) :
  is_number label ->
  Variant.unquote_from true 0
    (label ++ Variant.FULL_STOP :: SPACE :: QUOTE :: rest)
  = Variant.unquote_from false 0 rest.
Proof.
  intros Hn. pose proof (numbered_quote_numbered rest Hn) as Hq.
  destruct Hn as [Hne Hd]. destruct label as [|c d]; [congruence|].
  cbn [app] in *. cbn [Variant.unquote_from]. rewrite Hq.
  cbn [List.length Nat.add].
  replace (List.length d + 3)%nat
    with (List.length (d ++ [Variant.FULL_STOP; SPACE; QUOTE]))
    by (rewrite length_app; reflexivity).
  change (d ++ Variant.FULL_STOP :: SPACE :: QUOTE :: rest)
    with (d ++ [Variant.FULL_STOP; SPACE; QUOTE] ++ rest).
  rewrite app_assoc, unquote_from_skip by (destruct d; discriminate).
  change [Variant.FULL_STOP; SPACE; QUOTE]
    with ([Variant.FULL_STOP; SPACE] ++ [QUOTE]).
  rewrite app_assoc, last_last. reflexivity.
Qed.

Lemma unquote_from_quoted (q rest : jsstring) :
  one_line q -> Variant.at_line_end rest = true ->
  Variant.unquote_from false 0 (q ++ QUOTE :: rest)
  = q ++ Variant.unquote_from false 0 rest.
Proof.
  unfold one_line. intros Hq Hr. induction q as [|c q IH].
  - cbn [app Variant.unquote_from]. rewrite Hr. reflexivity.
  - simpl in Hq. apply andb_prop in Hq. destruct Hq as [Hc Hq].
    apply negb_true_iff in Hc.
    cbn [app Variant.unquote_from].
    assert (He : Variant.at_line_end (q ++ QUOTE :: rest) = false).
    { destruct q as [|c' q]; [reflexivity|].
      simpl in Hq. apply andb_prop in Hq. destruct Hq as [Hc' _].
      apply negb_true_iff in Hc'. exact Hc'. }
    rewrite He, andb_false_r, Hc. f_equal. apply IH. exact Hq.
Qed.

Lemma one_line_no_LF (q : jsstring) : one_line q -> ~ In LF q.
Proof.
  unfold one_line. intros H Hin. rewrite forallb_forall in H.
  specialize (H LF Hin). discriminate.
Qed.

Lemma split_no_sep (q : jsstring) : ~ In LF q -> split LF q = [q].
Proof.
  induction q as [|c q IH]; intros H; [reflexivity|]. simpl.
  destruct (c =? LF) eqn:E.
  - apply N.eqb_eq in E. subst c. exfalso. apply H. left. reflexivity.
  - rewrite IH; [reflexivity|]. intros Hin. apply H. right. exact Hin.
Qed.

Lemma split_app_sep (q r : jsstring) :
  ~ In LF q -> split LF (q ++ LF :: r) = q :: split LF r.
Proof.
  induction q as [|c q IH]; intros H.
  - simpl. reflexivity.
  - simpl. destruct (c =? LF) eqn:E.
    + apply N.eqb_eq in E. subst c. exfalso. apply H. left. reflexivity.
    + rewrite IH; [reflexivity|]. intros Hin. apply H. right. exact Hin.
Qed.

Lemma split_join (qs : list jsstring) :
  qs <> [] -> Forall (fun q => ~ In LF q) qs ->
  split LF (join [LF] qs) = qs.
Proof.
  induction qs as [|q qs IH]; intros Hne H; [congruence|].
  inversion H as [|? ? Hq Hqs]; subst.
  destruct qs as [|q' qs].
  - simpl. apply split_no_sep. exact Hq.
  - change (join [LF] (q :: q' :: qs)) with (q ++ LF :: join [LF] (q' :: qs)).
    rewrite split_app_sep by exact Hq. f_equal.
    apply IH; [discriminate|exact Hqs].
Qed.

Lemma split_lines_no_sep (s : jsstring) :
  Forall (fun q => ~ In LF q) (split LF s).
Proof.
  induction s as [|c s IH]; simpl.
  - constructor; [intros []|constructor].
  - destruct (c =? LF) eqn:E.
    + constructor; [intros []|exact IH].
    + destruct (split LF s) as [|l ls]; [repeat constructor|].
      * intros [->|[]]. rewrite N.eqb_refl in E. discriminate.
      * inversion IH as [|? ? Hl Hls]; subst. constructor; [|exact Hls].
        intros [->|Hin]; [rewrite N.eqb_refl in E; discriminate|auto].
Qed.

Lemma unquote_answer (lines : list (jsstring * jsstring)) :
  Forall (fun line => is_number (fst line) /\ one_line (snd line)) lines ->
  Variant.unquote (join [LF] (map numbered lines))
  = join [LF] (map snd lines).
Proof.
  unfold Variant.unquote.
  induction lines as [|[d q] lines IH]; intros H; [reflexivity|].
  inversion H as [|? ? [Hd Hq] Hl]; subst. cbn [fst snd] in *.
  specialize (IH Hl).
  destruct lines as [|line lines].
  - cbn [map join]. unfold numbered. cbn [fst snd].
    rewrite unquote_from_numbered by exact Hd.
    rewrite unquote_from_quoted by (try exact Hq; reflexivity).
    cbn [Variant.unquote_from]. apply app_nil_r.
  - change (join [LF] (map numbered ((d, q) :: line :: lines)))
      with (numbered (d, q) ++ LF :: join [LF] (map numbered (line :: lines))).
    change (join [LF] (map snd ((d, q) :: line :: lines)))
      with (q ++ LF :: join [LF] (map snd (line :: lines))).
    unfold numbered at 1. cbn [fst snd].
    rewrite <- !app_assoc. cbn [app]. rewrite <- !app_assoc. cbn [app].
    rewrite unquote_from_numbered by exact Hd.
    rewrite unquote_from_quoted by (try exact Hq; reflexivity).
    f_equal.
    destruct (join [LF] (map numbered (line :: lines))) eqn:EJ.
    + cbn. cbn in IH. rewrite <- IH. reflexivity.
    + cbn [Variant.unquote_from].
      change (LF =? QUOTE) with false. cbn [andb].
      change (Variant.is_line_terminator LF) with true.
      f_equal. exact IH.
Qed.

Section VariantExpansion.
Context {num : Type} {NUM : Number num}.
Variable env : @Variant.Collaborators num.

Lemma variant_rewriteToQueries_eq (content : jsstring) :
  Variant.rewriteToQueries env content
  = (match Variant.AI_run env (Variant.rewrite_prompt content) with
     | Ok (Some response) => Ok (Variant.kept_lines response)
     | Ok None =>
         Throw (Error (js "Cannot read properties of undefined (reading 'replace')"))
     | Throw e => Throw e
     end,
     [Variant.Call (Variant.RunModel (Variant.rewrite_prompt content))]).
Proof.
  unfold Variant.rewriteToQueries, Variant.call.
  destruct (Variant.AI_run env (Variant.rewrite_prompt content))
    as [[r|]|e]; reflexivity.
Qed.

Lemma kept_lines_spec (response : jsstring) :
  (List.length (Variant.kept_lines response) <= 5)%nat
  /\ Forall (fun q => trim q <> [] /\ ~ In LF q) (Variant.kept_lines response).
Proof.
  unfold Variant.kept_lines. split; [apply firstn_le_length|].
  apply Forall_firstn. apply Forall_forall. intros q Hq.
  apply filter_In in Hq. destruct Hq as [Hin Hb]. split.
  - intros E. rewrite E in Hb. discriminate.
  - pose proof (split_lines_no_sep (Variant.unquote response)) as F.
    rewrite Forall_forall in F. apply F. exact Hin.
Qed.

End VariantExpansion.

(** X10. When the model answers with numbered lines, each a number, a
    full stop, a space and a query in double quotes, the variant's
    [rewriteToQueries] returns the queries themselves, without numbers and
    quotes: the first five that are not blank. *)
Theorem X10_numbered_answer_is_unwrapped :
  forall (num : Type) (NUM : Number num) (env : @Variant.Collaborators num)
         (content : jsstring) (lines : list (jsstring * jsstring)),
    Forall (fun line => is_number (fst line) /\ one_line (snd line)) lines ->
    Variant.AI_run env (Variant.rewrite_prompt content)
    = Ok (Some (join [LF] (map numbered lines))) ->
    Variant.outcome_of (Variant.rewriteToQueries env content)
    = Ok (firstn 5 (filter (fun q => negb (str_eqb (trim q) []))
                      (map snd lines))).
Proof.
  intros num NUM env content lines Hl Hr.
  rewrite variant_rewriteToQueries_eq, Hr. unfold Variant.outcome_of.
  cbn [fst]. f_equal. unfold Variant.kept_lines.
  rewrite unquote_answer by exact Hl.
  destruct lines as [|line lines]; [reflexivity|].
  rewrite split_join; [reflexivity|discriminate|].
  apply Forall_map. eapply Forall_impl; [|exact Hl].
  intros l [_ H]. apply one_line_no_LF. exact H.
Qed.

(** X11. The variant's [rewriteToQueries] has no fallback: a failure of
    the model call, or an answer without [response], makes it throw.
    Otherwise it returns at most five lines of the answer, none of them
    blank; the lines are kept as they are, not trimmed. *)
Theorem X11_variant_expansion_has_no_fallback :
  forall (num : Type) (NUM : Number num) (env : @Variant.Collaborators num)
         (content : jsstring),
    match Variant.AI_run env (Variant.rewrite_prompt content) with
    | Throw e =>
        Variant.outcome_of (Variant.rewriteToQueries env content) = Throw e
    | Ok None =>
        exists e,
          Variant.outcome_of (Variant.rewriteToQueries env content) = Throw e
    | Ok (Some response) =>
        exists queries,
          Variant.outcome_of (Variant.rewriteToQueries env content)
          = Ok queries
          /\ (List.length queries <= 5)%nat
          /\ Forall (fun q => trim q <> [] /\ ~ In LF q
                              /\ In q (split LF (Variant.unquote response)))
                    queries
    end.
Proof.
  intros num NUM env content. rewrite variant_rewriteToQueries_eq.
  unfold Variant.outcome_of. cbn [fst].
  destruct (Variant.AI_run env (Variant.rewrite_prompt content))
    as [[r|]|e]; [|eauto|reflexivity].
  exists (Variant.kept_lines r). split; [reflexivity|].
  destruct (kept_lines_spec r) as [H1 H2]. split; [exact H1|].
  rewrite Forall_forall in *. intros q Hq. destruct (H2 q Hq) as [Ha Hb].
  repeat split; auto.
  unfold Variant.kept_lines in Hq. apply In_firstn in Hq.
  apply filter_In in Hq. apply Hq.
Qed.

(** ** The effect layer of the variant *)

Section VariantEffects.
Context {num : Type} {NUM : Number num}.
Let M := @Variant.M num.
Let effect := @Variant.effect num.

Lemma variant_events_of_app (t u : list effect) :
  Variant.events_of (t ++ u) = Variant.events_of t ++ Variant.events_of u.
Proof.
  induction t as [|f t IH]; simpl; [reflexivity|].
  destruct f; simpl; rewrite IH; reflexivity.
Qed.

Lemma variant_calls_of_app (t u : list effect) :
  Variant.calls_of (t ++ u) = Variant.calls_of t ++ Variant.calls_of u.
Proof.
  induction t as [|f t IH]; simpl; [reflexivity|].
  destruct f; simpl; rewrite IH; reflexivity.
Qed.

Lemma variant_pushes_of_app (t u : list effect) :
  Variant.pushes_of (t ++ u) = Variant.pushes_of t ++ Variant.pushes_of u.
Proof.
  induction t as [|f t IH]; simpl; [reflexivity|].
  destruct f; simpl; rewrite IH; reflexivity.
Qed.

Lemma variant_Promise_all_trace {A B} (f : A -> M B) (l : list A) :
  Variant.trace_of (Variant.Promise_all f l)
  = flat_map (fun x => Variant.trace_of (f x)) l.
Proof.
  unfold Variant.trace_of. induction l as [|x l IH]; simpl; [reflexivity|].
  destruct (f x) as [r t]. destruct (Variant.Promise_all f l) as [rs t'].
  simpl in *. rewrite IH. reflexivity.
Qed.

(** [Promise.all] fulfils exactly when every member does. *)
Lemma variant_Promise_all_outcome {A B} (f : A -> M B) (l : list A) :
  match all_ok (map (fun x => Variant.outcome_of (f x)) l) with
  | Some r => Variant.outcome_of (Variant.Promise_all f l) = Ok r
  | None => exists e, Variant.outcome_of (Variant.Promise_all f l) = Throw e
  end.
Proof.
  unfold Variant.outcome_of. induction l as [|x l IH]; simpl; [reflexivity|].
  destruct (f x) as [[y|e] t]; destruct (Variant.Promise_all f l) as [rs t'];
    simpl in *.
  - destruct (all_ok _) as [r|].
    + subst rs. reflexivity.
    + destruct IH as [e ->]. eauto.
  - eauto.
Qed.

Lemma all_ok_Some_inv {A} (l : list (outcome A)) r :
  all_ok l = Some r -> l = map Ok r.
Proof.
  revert r. induction l as [|[a|e] l IH]; simpl; intros r H.
  - injection H as <-. reflexivity.
  - destruct (all_ok l) as [r'|]; [|discriminate].
    injection H as <-. simpl. f_equal. apply IH. reflexivity.
  - discriminate.
Qed.

Lemma all_ok_None_inv {A} (l : list (outcome A)) :
  all_ok l = None -> exists e, In (Throw e) l.
Proof.
  induction l as [|[a|e] l IH]; simpl; intros H.
  - discriminate.
  - destruct (all_ok l) as [r'|]; [discriminate|].
    destruct (IH eq_refl) as [e He]. eauto.
  - eauto.
Qed.

End VariantEffects.

(** ** The stages of the variant *)

Section VariantStages.
Context {num : Type} {NUM : Number num}.
Variable env : @Variant.Collaborators num.

Lemma variant_search_member_trace (query : jsstring) :
  Variant.trace_of
    (Variant.bind (Variant.call (@Variant.RunSql num query)
                     (Variant.Drizzle_run env query))
       (fun results =>
          Variant.ret (match results with
                       | Some rows => rows
                       | None => []
                       end)))
  = [Variant.Call (@Variant.RunSql num query)].
Proof.
  unfold Variant.call, Variant.trace_of.
  destruct (Variant.Drizzle_run env query); reflexivity.
Qed.

Lemma variant_search_member_outcome (query : jsstring) :
  Variant.outcome_of
    (Variant.bind (Variant.call (@Variant.RunSql num query)
                     (Variant.Drizzle_run env query))
       (fun results =>
          Variant.ret (match results with
                       | Some rows => rows
                       | None => []
                       end)))
  = match Variant.Drizzle_run env query with
    | Ok _ => Ok (variant_rows env query)
    | Throw e => Throw e
    end.
Proof.
  unfold Variant.call, Variant.outcome_of, variant_rows.
  destruct (Variant.Drizzle_run env query) as [[rows|]|e]; reflexivity.
Qed.

Lemma variant_search_trace (terms : list jsstring) :
  Variant.trace_of (Variant.searchDocumentChunks env terms)
  = map (fun term => Variant.Call (@Variant.RunSql num (sanitize term)))
        (filter str_truthy terms).
Proof.
  unfold Variant.searchDocumentChunks, Variant.trace_of.
  match goal with |- context [Variant.Promise_all ?f ?l] =>
    pose proof (variant_Promise_all_trace f l) as T end.
  assert (E : forall l : list jsstring,
             flat_map
               (fun x =>
                  Variant.trace_of
                    (Variant.bind
                       (Variant.call (@Variant.RunSql num x)
                          (Variant.Drizzle_run env x))
                       (fun results =>
                          Variant.ret (match results with
                                       | Some rows => rows
                                       | None => []
                                       end)))) l
             = map (fun q => Variant.Call (@Variant.RunSql num q)) l).
  { induction l as [|q qs IH]; [reflexivity|].
    cbn [flat_map map]. rewrite variant_search_member_trace, IH.
    reflexivity. }
  rewrite E, map_map in T. unfold Variant.trace_of in T.
  match goal with |- context [Variant.Promise_all ?f ?l] =>
    destruct (Variant.Promise_all f l) as [[rs|e] t] end;
    cbn [Variant.bind Variant.ret fst snd] in *; rewrite ?app_nil_r;
    exact T.
Qed.

(** The search fulfils exactly when no query throws. *)
Lemma variant_search_outcome (terms : list jsstring) :
  match all_ok (map (Variant.Drizzle_run env)
                  (map sanitize (filter str_truthy terms))) with
  | Some _ =>
      Variant.outcome_of (Variant.searchDocumentChunks env terms)
      = Ok (firstn 10
              (sort rank_after
                 (List.concat
                    (map (variant_rows env)
                       (map sanitize (filter str_truthy terms))))))
  | None =>
      exists e,
        Variant.outcome_of (Variant.searchDocumentChunks env terms) = Throw e
  end.
Proof.
  unfold Variant.searchDocumentChunks, Variant.outcome_of.
  set (queries := map sanitize (filter str_truthy terms)).
  match goal with |- context [Variant.Promise_all ?f ?l] =>
    pose proof (variant_Promise_all_outcome f l) as P end.
  unfold Variant.outcome_of in P.
  rewrite (map_ext _ _ variant_search_member_outcome) in P.
  assert (E : all_ok (map (fun q => match Variant.Drizzle_run env q with
                                    | Ok _ => Ok (variant_rows env q)
                                    | Throw e => Throw e
                                    end) queries)
              = match all_ok (map (Variant.Drizzle_run env) queries) with
                | Some _ => Some (map (variant_rows env) queries)
                | None => None
                end).
  { clear. induction queries as [|q qs IH]; simpl; [reflexivity|].
    destruct (Variant.Drizzle_run env q); [|reflexivity].
    rewrite IH. destruct (all_ok (map (Variant.Drizzle_run env) qs));
      reflexivity. }
  rewrite E in P. clear E.
  match goal with |- context [Variant.Promise_all ?f ?l] =>
    destruct (Variant.Promise_all f l) as [[rs|e] t] end;
    cbn [Variant.bind Variant.ret fst snd] in *;
    destruct (all_ok (map (Variant.Drizzle_run env) queries)).
  - injection P as ->. reflexivity.
  - destruct P as [e P]. discriminate.
  - discriminate.
  - eauto.
Qed.

End VariantStages.

Section VariantVector.
Context {num : Type} {NUM : Number num}.
Variable env : @Variant.Collaborators num.

Lemma variant_Promise_all_calls {A B} (r : A -> @Variant.request num)
    (a : A -> outcome B) (l : list A) :
  Variant.trace_of (Variant.Promise_all (fun x => Variant.call (r x) (a x)) l)
  = map (fun x => Variant.Call (r x)) l
  /\ match all_ok (map a l) with
     | Some ys =>
         Variant.outcome_of
           (Variant.Promise_all (fun x => Variant.call (r x) (a x)) l)
         = Ok ys
     | None =>
         exists e,
           Variant.outcome_of
             (Variant.Promise_all (fun x => Variant.call (r x) (a x)) l)
           = Throw e
     end.
Proof.
  split.
  - rewrite variant_Promise_all_trace.
    induction l as [|x l IH]; [reflexivity|].
    cbn [flat_map map]. rewrite IH. reflexivity.
  - apply (variant_Promise_all_outcome
             (fun x => Variant.call (r x) (a x)) l).
Qed.

Lemma variant_queryVectorIndex_eq (queries : list jsstring) sid :
  Variant.queryVectorIndex env queries sid
  = Variant.bind
      (Variant.Promise_all
         (fun q => Variant.call (@Variant.RunEmbedding num q)
                     (Variant.AI_run_embedding env q)) queries)
      (Variant.Promise_all (index_member env sid)).
Proof. reflexivity. Qed.

(** [queryVectorIndex] sends every query to the embedding model, as it
    is, and returns only when every embedding and every index query was
    answered. *)
Lemma variant_queryVectorIndex_calls (queries : list jsstring) sid :
  exists rest,
    Variant.calls_of (Variant.trace_of
                        (Variant.queryVectorIndex env queries sid))
    = map (@Variant.RunEmbedding num) queries ++ rest
    /\ Forall (fun r => exists vector, r = Variant.QueryIndex vector sid) rest
    /\ Variant.events_of (Variant.trace_of
                            (Variant.queryVectorIndex env queries sid)) = []
    /\ Variant.pushes_of (Variant.trace_of
                            (Variant.queryVectorIndex env queries sid)) = []
    /\ absorbs_nothing env (Variant.queryVectorIndex env queries sid).
Proof.
  rewrite variant_queryVectorIndex_eq.
  destruct (variant_Promise_all_calls (@Variant.RunEmbedding num)
              (Variant.AI_run_embedding env) queries) as [T1 P1].
  unfold absorbs_nothing, Variant.trace_of, Variant.outcome_of in *.
  destruct (Variant.Promise_all _ queries) as [[vs|e] t1];
    cbn [fst snd] in *; subst t1.
  - destruct (all_ok (map (Variant.AI_run_embedding env) queries))
      as [ys|] eqn:E1; [|destruct P1; discriminate].
    injection P1 as ->. apply all_ok_Some_inv in E1.
    pose proof (variant_Promise_all_trace (index_member env sid) ys) as T2.
    pose proof (variant_Promise_all_outcome (index_member env sid) ys) as P2.
    unfold Variant.trace_of, Variant.outcome_of in *.
    cbn [Variant.bind].
    destruct (Variant.Promise_all (index_member env sid) ys) as [r2 t2];
      cbn [fst snd] in *. subst t2.
    exists (Variant.calls_of
              (flat_map (fun x => snd (index_member env sid x)) ys)).
    assert (Hc : forall qs : list jsstring,
               Variant.calls_of
                 (map (fun x => Variant.Call (@Variant.RunEmbedding num x)) qs)
               = map (@Variant.RunEmbedding num) qs).
    { induction qs as [|q qs IH]; simpl; [|rewrite IH]; reflexivity. }
    assert (He : forall qs : list jsstring,
               Variant.events_of
                 (map (fun x => Variant.Call (@Variant.RunEmbedding num x)) qs)
               = []).
    { induction qs as [|q qs IH]; simpl; [|rewrite IH]; reflexivity. }
    assert (Hp : forall qs : list jsstring,
               Variant.pushes_of
                 (map (fun x => Variant.Call (@Variant.RunEmbedding num x)) qs)
               = []).
    { induction qs as [|q qs IH]; simpl; [|rewrite IH]; reflexivity. }
    assert (Hm : forall l : list (option (@vector num)),
               Variant.events_of (flat_map (fun x => snd (index_member env sid x)) l)
               = []
               /\ Variant.pushes_of
                    (flat_map (fun x => snd (index_member env sid x)) l) = []).
    { induction l as [|[v|] l [IH1 IH2]]; simpl; auto. }
    rewrite variant_calls_of_app, variant_events_of_app,
      variant_pushes_of_app, Hc, He, Hp.
    destruct (Hm ys) as [-> ->].
    split; [reflexivity|]. split.
    { clear. induction ys as [|[v|] ys IH]; simpl; [constructor| |exact IH].
      constructor; [eauto|exact IH]. }
    repeat split; try reflexivity.
    intros a Ha. subst r2. apply Forall_app. split.
    + apply Forall_forall. intros r Hr. apply in_map_iff in Hr.
      destruct Hr as (q & <- & Hq). simpl.
      assert (Hin : In (Variant.AI_run_embedding env q) (map Ok ys)).
      { rewrite <- E1. apply in_map. exact Hq. }
      apply in_map_iff in Hin. destruct Hin as (y & Hy & Hiny).
      destruct (all_ok (map (fun x => fst (index_member env sid x)) ys))
        as [ms|] eqn:E2; [|destruct P2; discriminate].
      apply all_ok_Some_inv in E2.
      destruct y as [v|]; [eauto|].
      exfalso. apply (in_map (fun x => fst (index_member env sid x))) in Hiny.
      rewrite E2 in Hiny. apply in_map_iff in Hiny.
      destruct Hiny as (m & Hm' & _). discriminate.
    + destruct (all_ok (map (fun x => fst (index_member env sid x)) ys))
        as [ms|] eqn:E2; [|destruct P2; discriminate].
      apply all_ok_Some_inv in E2. clear - E2.
      revert ms E2. induction ys as [|y ys IH]; intros ms E2.
      * constructor.
      * destruct ms as [|m ms]; [discriminate|].
        cbn [map] in E2. injection E2 as Hy Hys.
        destruct y as [v|]; [|discriminate].
        cbn [flat_map index_member Variant.call snd app Variant.calls_of].
        constructor; [simpl; unfold index_member, Variant.call in Hy; eauto|].
        apply (IH ms). exact Hys.
  - exists []. cbn [Variant.bind snd fst]. rewrite app_nil_r.
    assert (Hc : forall qs : list jsstring,
               Variant.calls_of
                 (map (fun x => Variant.Call (@Variant.RunEmbedding num x)) qs)
               = map (@Variant.RunEmbedding num) qs
               /\ Variant.events_of
                    (map (fun x => Variant.Call (@Variant.RunEmbedding num x)) qs)
                  = []
               /\ Variant.pushes_of
                    (map (fun x => Variant.Call (@Variant.RunEmbedding num x)) qs)
                  = []).
    { induction qs as [|q qs (IH1 & IH2 & IH3)]; simpl;
        [|rewrite IH1]; auto. }
    destruct (Hc queries) as (-> & -> & ->).
    split; [reflexivity|]. split; [constructor|].
    repeat split; try reflexivity. intros a Ha. discriminate.
Qed.

End VariantVector.

Section VariantCoordinator.
Context {num : Type} {NUM : Number num}.
Variable env : @Variant.Collaborators num.

Lemma variant_calls_of_calls (l : list (@Variant.request num)) :
  Variant.calls_of (map (@Variant.Call num) l) = l
  /\ Variant.events_of (map (@Variant.Call num) l) = []
  /\ Variant.pushes_of (map (@Variant.Call num) l) = [].
Proof.
  induction l as [|r l (IH1 & IH2 & IH3)]; simpl; [auto|].
  rewrite IH1. auto.
Qed.

Lemma variant_search_calls (terms : list jsstring) :
  Variant.calls_of (Variant.trace_of (Variant.searchDocumentChunks env terms))
  = map (@Variant.RunSql num) (map sanitize (filter str_truthy terms))
  /\ Variant.events_of
       (Variant.trace_of (Variant.searchDocumentChunks env terms)) = []
  /\ Variant.pushes_of
       (Variant.trace_of (Variant.searchDocumentChunks env terms)) = []
  /\ absorbs_nothing env (Variant.searchDocumentChunks env terms).
Proof.
  rewrite variant_search_trace.
  rewrite <- (map_map sanitize (fun q => Variant.Call (@Variant.RunSql num q))).
  rewrite <- (map_map (@Variant.RunSql num) (@Variant.Call num)).
  destruct (variant_calls_of_calls
              (map (@Variant.RunSql num)
                 (map sanitize (filter str_truthy terms)))) as (H1 & H2 & H3).
  repeat split; try assumption.
  intros a Ha. rewrite variant_search_trace.
  rewrite <- (map_map sanitize (fun q => Variant.Call (@Variant.RunSql num q))).
  rewrite <- (map_map (@Variant.RunSql num) (@Variant.Call num)), H1.
  pose proof (variant_search_outcome env terms) as P.
  destruct (all_ok (map (Variant.Drizzle_run env)
                      (map sanitize (filter str_truthy terms)))) as [rs|] eqn:E;
    [|destruct P as [e P]; congruence].
  apply all_ok_Some_inv in E.
  apply Forall_forall. intros r Hr. apply in_map_iff in Hr.
  destruct Hr as (q & <- & Hq). simpl.
  apply (in_map (Variant.Drizzle_run env)) in Hq. rewrite E in Hq.
  apply in_map_iff in Hq. destruct Hq as (x & <- & _). eauto.
Qed.

Lemma variant_getRelevantDocuments_eq (ids : list jsstring) :
  Variant.getRelevantDocuments env ids
  = match ids with
    | [] => (Ok [], [])
    | _ :: _ => (Variant.Drizzle_select env ids,
                 [Variant.Call (@Variant.SelectChunks num ids)])
    end.
Proof. destruct ids; reflexivity. Qed.

(** The run of the coordinator on a request whose message list is
    present and whose query is not empty. *)
Lemma variant_processUserQuery_run (request : Request.t) msgs :
  Request.messages request = Some msgs ->
  variant_query msgs <> [] ->
  let query := variant_query msgs in
  let sid := Request.sessionId request in
  let status1 :=
    @Variant.Emit num
      (Variant.Status (js "Rewriting message to queries...")) in
  Variant.processUserQuery env request
  = match Variant.rewriteToQueries env query with
    | (Throw e, t) => (Throw e, status1 :: t ++ [variant_failure e])
    | (Ok queries, t) =>
        let search := Variant.searchDocumentChunks env queries in
        let vectors := Variant.queryVectorIndex env queries sid in
        let t2 :=
          status1 :: t
          ++ Variant.Emit
               (Variant.StatusQueries
                  (js "Querying vector index and full text search...") queries)
          :: Variant.trace_of search ++ Variant.trace_of vectors in
        match Variant.outcome_of search, Variant.outcome_of vectors with
        | Ok fullText, Ok vectorIndex =>
            match Variant.getRelevantDocuments env
                    (variant_top_ids fullText vectorIndex) with
            | (Ok docs, t3) =>
                (Ok {| Variant.Params.messages :=
                         Variant.systemMessage :: msgs
                         ++ [Variant.contextMessage queries docs] |},
                 t2 ++ t3
                 ++ [Variant.Emit
                       (Variant.StatusContext
                          (js "Found relevant documents, generating response...")
                          docs queries)])
            | (Throw e, t3) => (Throw e, t2 ++ t3 ++ [variant_failure e])
            end
        | Throw e, _ => (Throw e, t2 ++ [variant_failure e])
        | Ok _, Throw e => (Throw e, t2 ++ [variant_failure e])
        end
    end.
Proof.
  intros Hm Hq query sid status1.
  unfold Variant.processUserQuery. rewrite Hm.
  fold (variant_query msgs). fold query.
  assert (Ht : str_truthy query = true).
  { subst query. destruct (variant_query msgs); [congruence|reflexivity]. }
  rewrite Ht. cbn [negb]. unfold Variant.streamResponse.
  cbn [Variant.bind].
  destruct (Variant.rewriteToQueries env query) as [[queries|e] t].
  2: { cbn [Variant.bind Variant.try_catch Variant.throw app].
       rewrite ?app_nil_r. reflexivity. }
  cbn [Variant.bind]. fold sid.
  unfold Variant.Promise_both, Variant.outcome_of, Variant.trace_of.
  destruct (Variant.searchDocumentChunks env queries) as [[ft|e1] ts];
    destruct (Variant.queryVectorIndex env queries sid) as [[vi|e2] tv];
    cbn [fst snd Variant.bind Variant.try_catch Variant.throw app];
    rewrite ?app_nil_r, <- ?app_assoc; try reflexivity.
  fold (variant_top_ids ft vi).
  destruct (Variant.getRelevantDocuments env (variant_top_ids ft vi))
    as [[docs|e] t3];
    cbn [fst snd Variant.bind Variant.try_catch Variant.throw Variant.ret app];
    rewrite ?app_nil_r, <- ?app_assoc; cbn [app];
    rewrite <- ?app_assoc; reflexivity.
Qed.

End VariantCoordinator.

(** X12. The variant's [searchDocumentChunks] sends one full-text query
    for every search term that is not the empty string, in order, with the
    sanitized term as the MATCH argument, and nothing for an empty term.
    It has no guard: it returns the ten first rows by rank when every
    query is answered, and throws as soon as one query throws. *)
Theorem X12_variant_lexical_adapter :
  forall (num : Type) (NUM : Number num) (env : @Variant.Collaborators num)
         (searchTerms : list jsstring),
    let run := Variant.searchDocumentChunks env searchTerms in
    let queries := map sanitize (filter str_truthy searchTerms) in
    Variant.calls_of (Variant.trace_of run) = map (@Variant.RunSql num) queries
    /\ Variant.events_of (Variant.trace_of run) = []
    /\ match all_ok (map (Variant.Drizzle_run env) queries) with
       | Some _ =>
           Variant.outcome_of run
           = Ok (firstn 10
                   (sort rank_after
                      (List.concat (map (variant_rows env) queries))))
       | None => exists e, Variant.outcome_of run = Throw e
       end.
Proof.
  intros num NUM env terms run queries. subst run queries.
  destruct (variant_search_calls env terms) as (H1 & H2 & _).
  split; [exact H1|]. split; [exact H2|].
  apply variant_search_outcome.
Qed.

Section VariantTheorems.
Context {num : Type} {NUM : Number num}.
Variable env : @Variant.Collaborators num.

Lemma variant_rewrite_absorbs_nothing (query : jsstring) :
  absorbs_nothing env (Variant.rewriteToQueries env query).
Proof.
  intros a. rewrite variant_rewriteToQueries_eq.
  unfold Variant.outcome_of, Variant.trace_of. cbn [fst snd].
  destruct (Variant.AI_run env (Variant.rewrite_prompt query))
    as [[r|]|e] eqn:E; try discriminate.
  intros _. constructor; [simpl; eauto|constructor].
Qed.

Lemma variant_rewrite_trace (query : jsstring) :
  Variant.trace_of (Variant.rewriteToQueries env query)
  = [Variant.Call (@Variant.RunModel num (Variant.rewrite_prompt query))].
Proof. rewrite variant_rewriteToQueries_eq. reflexivity. Qed.

Lemma variant_processUserQuery_rejected (request : Request.t) :
  match Request.messages request with
  | None =>
      Variant.processUserQuery env request
      = (Throw (Error (js "Cannot read properties of undefined (reading 'unshift')")),
         [variant_failure
            (Error (js "Cannot read properties of undefined (reading 'unshift')"))])
  | Some msgs =>
      variant_query msgs = [] ->
      Variant.processUserQuery env request
      = (Throw (Error (js "No content in last message")),
         [variant_failure (Error (js "No content in last message"))])
  end.
Proof.
  unfold Variant.processUserQuery.
  destruct (Request.messages request) as [msgs|]; [|reflexivity].
  fold (variant_query msgs). intros ->. reflexivity.
Qed.

End VariantTheorems.

Section VariantRunFacts.
Context {num : Type} {NUM : Number num}.
Variable env : @Variant.Collaborators num.

Lemma variant_getRelevantDocuments_facts (ids : list jsstring) :
  Variant.events_of (Variant.trace_of (Variant.getRelevantDocuments env ids))
  = []
  /\ absorbs_nothing env (Variant.getRelevantDocuments env ids).
Proof.
  rewrite variant_getRelevantDocuments_eq. unfold absorbs_nothing.
  destruct ids as [|i ids]; [split; [reflexivity|intros; constructor]|].
  split; [reflexivity|].
  unfold Variant.outcome_of, Variant.trace_of. cbn [fst snd].
  intros a Ha. constructor; [simpl; eauto|constructor].
Qed.

(** The possible runs of the coordinator: it returns after the three
    status events, every request answered, or it throws after reporting
    the failure as its last event. *)
Lemma variant_processUserQuery_cases (request : Request.t) :
  (exists params t,
      Variant.processUserQuery env request = (Ok params, t)
      /\ Forall (answered env) (Variant.calls_of t)
      /\ exists msgs response docs,
          Request.messages request = Some msgs
          /\ Variant.AI_run env (Variant.rewrite_prompt (variant_query msgs))
             = Ok (Some response)
          /\ Variant.Params.messages params
             = Variant.systemMessage :: msgs
               ++ [Variant.contextMessage (Variant.kept_lines response) docs]
          /\ Variant.events_of t
             = [Variant.Status (js "Rewriting message to queries...");
                Variant.StatusQueries
                  (js "Querying vector index and full text search...")
                  (Variant.kept_lines response);
                Variant.StatusContext
                  (js "Found relevant documents, generating response...")
                  docs (Variant.kept_lines response)])
  \/ (exists e t,
         Variant.processUserQuery env request
         = (Throw e, t ++ [variant_failure e])
         /\ Forall (fun ev => Variant.is_failure ev = false)
                   (Variant.events_of t)).
Proof.
  pose proof (variant_processUserQuery_rejected env request) as R.
  destruct (Request.messages request) as [msgs|] eqn:Hm.
  2: { right. eexists _, []. split; [exact R|constructor]. }
  destruct (variant_query msgs) as [|c q] eqn:Hq.
  { right. eexists _, []. split; [apply R; reflexivity|constructor]. }
  clear R.
  assert (Hne : variant_query msgs <> []) by (rewrite Hq; discriminate).
  rewrite (variant_processUserQuery_run env request Hm Hne).
  cbv zeta. rewrite Hq. set (query := c :: q) in *.
  pose proof (variant_rewrite_absorbs_nothing env query) as A0.
  pose proof (variant_rewrite_trace env query) as T0.
  pose proof (variant_rewriteToQueries_eq env query) as E0.
  unfold absorbs_nothing, Variant.outcome_of, Variant.trace_of in *.
  destruct (Variant.rewriteToQueries env query) as [[queries|e] t0];
    cbn [fst snd] in *; subst t0.
  2: { right. exists e, [Variant.Emit
                           (Variant.Status (js "Rewriting message to queries..."));
                         Variant.Call (Variant.RunModel
                                         (Variant.rewrite_prompt query))].
       split; [reflexivity|]. repeat constructor. }
  specialize (A0 queries eq_refl).
  assert (Hresp : exists response,
             Variant.AI_run env (Variant.rewrite_prompt query)
             = Ok (Some response) /\ queries = Variant.kept_lines response).
  { destruct (Variant.AI_run env (Variant.rewrite_prompt query))
      as [[r|]|e]; try discriminate.
    injection E0 as ->. eauto. }
  destruct Hresp as (response & Hresp & ->). clear E0.
  set (queries := Variant.kept_lines response) in *.
  destruct (variant_search_calls env queries) as (_ & Es & _ & As).
  destruct (variant_queryVectorIndex_calls env queries
              (Request.sessionId request)) as (rest & _ & _ & Ev & _ & Av).
  unfold absorbs_nothing, Variant.outcome_of, Variant.trace_of in *.
  destruct (Variant.searchDocumentChunks env queries) as [[ft|e1] ts];
    destruct (Variant.queryVectorIndex env queries
                (Request.sessionId request)) as [[vi|e2] tv];
    cbn [fst snd] in *.
  - destruct (variant_getRelevantDocuments_facts (variant_top_ids ft vi))
      as [Eg Ag].
    unfold absorbs_nothing, Variant.outcome_of, Variant.trace_of in *.
    destruct (Variant.getRelevantDocuments env (variant_top_ids ft vi))
      as [[docs|e] t3]; cbn [fst snd] in *.
    + left. eexists _, _. split; [reflexivity|]. split.
      * repeat (rewrite ?variant_calls_of_app; cbn [Variant.calls_of app]).
        rewrite ?app_nil_r. pose proof (Forall_inv A0) as H0.
        repeat first [apply Forall_cons | apply Forall_app; split
                     | apply Forall_nil];
          first [exact H0 | apply (As ft eq_refl) | apply (Av vi eq_refl)
                | apply (Ag docs eq_refl)].
      * exists msgs, response, docs. split; [reflexivity|].
        split; [rewrite Hq; exact Hresp|]. split; [reflexivity|].
        repeat (rewrite ?variant_events_of_app; cbn [Variant.events_of app]).
        rewrite Es, Ev, Eg. cbn [app]. reflexivity.
    + right. eexists e, _. split.
      * rewrite app_assoc. reflexivity.
      * repeat (rewrite ?variant_events_of_app; cbn [Variant.events_of app]).
        rewrite Es, Ev, Eg. cbn [app].
        repeat constructor.
  - right. eexists e2, _. split; [reflexivity|].
    repeat (rewrite ?variant_events_of_app; cbn [Variant.events_of app]).
    rewrite Es, Ev. cbn [app]. repeat constructor.
  - right. eexists e1, _. split; [reflexivity|].
    repeat (rewrite ?variant_events_of_app; cbn [Variant.events_of app]).
    rewrite Es, Ev. cbn [app]. repeat constructor.
  - right. eexists e1, _. split; [reflexivity|].
    repeat (rewrite ?variant_events_of_app; cbn [Variant.events_of app]).
    rewrite Es, Ev. cbn [app]. repeat constructor.
Qed.

End VariantRunFacts.

Section VariantLiveness.
Context {num : Type} {NUM : Number num}.
Variable env : @Variant.Collaborators num.
Hypothesis all_answered : forall r, answered env r.

Lemma all_ok_map_total {A B} (f : A -> outcome B) (l : list A) :
  (forall x, exists y, f x = Ok y) -> exists ys, all_ok (map f l) = Some ys.
Proof.
  intros H. induction l as [|x l [ys IH]]; simpl; [eauto|].
  destruct (H x) as [y ->]. rewrite IH. eauto.
Qed.

Lemma variant_search_total (terms : list jsstring) :
  exists hits,
    Variant.outcome_of (Variant.searchDocumentChunks env terms) = Ok hits.
Proof.
  pose proof (variant_search_outcome env terms) as P.
  destruct (all_ok_map_total (Variant.Drizzle_run env)
              (map sanitize (filter str_truthy terms))) as [ys E].
  { intros q. apply (all_answered (Variant.RunSql q)). }
  rewrite E in P. eauto.
Qed.

Lemma variant_queryVectorIndex_total (queries : list jsstring) sid :
  exists results,
    Variant.outcome_of (Variant.queryVectorIndex env queries sid)
    = Ok results.
Proof.
  rewrite variant_queryVectorIndex_eq.
  destruct (variant_Promise_all_calls (@Variant.RunEmbedding num)
              (Variant.AI_run_embedding env) queries) as [_ P1].
  destruct (all_ok_map_total (Variant.AI_run_embedding env) queries)
    as [ys E1].
  { intros q. destruct (all_answered (Variant.RunEmbedding q)) as [v Hv].
    simpl in Hv. eauto. }
  rewrite E1 in P1. unfold Variant.outcome_of in *.
  destruct (Variant.Promise_all _ queries) as [r1 t1]. cbn [fst] in P1.
  subst r1. cbn [Variant.bind].
  pose proof (variant_Promise_all_outcome (index_member env sid) ys) as P2.
  assert (Hys : Forall (fun y => exists v, y = Some v) ys).
  { apply all_ok_Some_inv in E1. apply Forall_forall. intros y Hy.
    apply (in_map Ok) in Hy. rewrite <- E1 in Hy. apply in_map_iff in Hy.
    destruct Hy as (q & Hq & _).
    destruct (all_answered (Variant.RunEmbedding q)) as [v Hv].
    simpl in Hv. rewrite Hv in Hq. injection Hq as <-. eauto. }
  assert (E2 : exists ms,
             all_ok (map (fun x => Variant.outcome_of (index_member env sid x))
                       ys) = Some ms).
  { clear - Hys all_answered. induction ys as [|y ys IH]; [simpl; eauto|].
    inversion Hys as [|? ? [v ->] Hys']; subst.
    destruct (IH Hys') as [ms E]. simpl.
    destruct (all_answered (Variant.QueryIndex v sid)) as [m Hm].
    simpl in Hm. unfold Variant.call, Variant.outcome_of. cbn [fst].
    rewrite Hm. unfold Variant.outcome_of in E. rewrite E. eauto. }
  destruct E2 as [ms E2]. rewrite E2 in P2. unfold Variant.outcome_of in P2.
  destruct (Variant.Promise_all (index_member env sid) ys) as [r2 t2].
  cbn [fst] in *. eauto.
Qed.

Lemma variant_processUserQuery_total (request : Request.t) msgs :
  Request.messages request = Some msgs ->
  variant_query msgs <> [] ->
  exists params,
    Variant.outcome_of (Variant.processUserQuery env request) = Ok params.
Proof.
  intros Hm Hq.
  rewrite (variant_processUserQuery_run env request Hm Hq). cbv zeta.
  rewrite variant_rewriteToQueries_eq.
  destruct (all_answered
              (Variant.RunModel (Variant.rewrite_prompt (variant_query msgs))))
    as [response Hr]. simpl in Hr. rewrite Hr.
  destruct (variant_search_total (Variant.kept_lines response)) as [ft ->].
  destruct (variant_queryVectorIndex_total (Variant.kept_lines response)
              (Request.sessionId request)) as [vi ->].
  rewrite variant_getRelevantDocuments_eq.
  destruct (variant_top_ids ft vi) as [|i ids]; [eexists; reflexivity|].
  destruct (all_answered (Variant.SelectChunks (i :: ids))) as [docs Hd].
  simpl in Hd. rewrite Hd. eexists. reflexivity.
Qed.

End VariantLiveness.

(** ** Sorting a sorted list *)

Lemma sort_sorted_id {A} (after : A -> A -> bool) (l : list A) :
  Sorted (in_order after) l -> sort after l = l.
Proof.
  induction l as [|x l IH]; intros H; [reflexivity|].
  inversion H as [|? ? HS Hd]; subst. simpl. rewrite IH by exact HS.
  destruct l as [|y l]; [reflexivity|].
  inversion Hd as [|? ? Hxy]; subst. simpl. unfold in_order in Hxy.
  rewrite Hxy. reflexivity.
Qed.

(** ** The streaming handler *)

Section HandlerRun.
Context {num : Type} {NUM : Number num}.
Variable env : @Variant.Collaborators num.
Variable coordinator : Request.t -> @Variant.M num Variant.Params.t.

Lemma forward_eq (chunks : list jsstring) :
  Variant.forward (num:=num) chunks
  = (Ok tt, map (fun value => Variant.Push (skipn 5 value)) chunks).
Proof.
  induction chunks as [|c cs IH]; [reflexivity|].
  cbn [Variant.forward]. rewrite IH. reflexivity.
Qed.

(** What the handler does after the coordinator. *)
Lemma handler_run (messages : list Message.t) (sessionId : jsstring) :
  Variant.handler env coordinator messages sessionId
  = (Ok tt,
     let run := coordinator {| Request.sessionId := Some sessionId;
                               Request.messages := Some messages |} in
     Variant.trace_of run
     ++ match Variant.outcome_of run with
        | Throw e => [handler_failure e; Variant.Close]
        | Ok params =>
            Variant.Call (Variant.RunStream (Variant.Params.messages params))
            :: match Variant.AI_run_stream env
                       (Variant.Params.messages params) with
               | Throw e => [handler_failure e; Variant.Close]
               | Ok (chunks, failure) =>
                   map (fun value => Variant.Push (skipn 5 value)) chunks
                   ++ Variant.ReleaseLock
                   :: match failure with
                      | Some e => [handler_failure e; Variant.Close]
                      | None => [Variant.Close]
                      end
               end
        end).
Proof.
  unfold Variant.handler, Variant.trace_of, Variant.outcome_of.
  cbv zeta.
  destruct (coordinator _) as [[params|e] t]; cbn [fst snd].
  - unfold Variant.call. cbn [Variant.bind].
    destruct (Variant.AI_run_stream env (Variant.Params.messages params))
      as [[chunks [e|]]|e]; cbn [fst snd]; rewrite ?forward_eq;
      unfold Variant.finally, Variant.perform, Variant.streamResponse,
        handler_failure;
      cbn [Variant.bind Variant.try_catch Variant.throw Variant.ret fst snd app];
      rewrite ?app_nil_r, <- ?app_assoc; cbn [app];
      rewrite <- ?app_assoc; reflexivity.
  - unfold Variant.finally, Variant.perform, Variant.streamResponse,
      handler_failure.
    cbn [Variant.bind Variant.try_catch fst snd app].
    rewrite <- ?app_assoc. reflexivity.
Qed.

End HandlerRun.

(** X10 on the answer with two numbered queries. *)
Lemma X10_numbered_answer_is_unwrapped_witness :
  Variant.outcome_of
    (Variant.rewriteToQueries variant_answering
       (js "What was Q2 revenue growth?"))
  = Ok [js "revenue growth"; js "Q2 results"].
Proof.
  apply (@X10_numbered_answer_is_unwrapped float float64 variant_answering
           (js "What was Q2 revenue growth?")
           [(js "1", js "revenue growth"); (js "2", js "Q2 results")]).
  - repeat constructor; try discriminate.
  - reflexivity.
Defined.

(** X13. The variant's coordinator absorbs no failure: when it returns,
    every request it sent to a collaborator was answered (the model gave a
    response, every full-text query, embedding, index query and the chunk
    fetch succeeded).  Conversely, when every collaborator answers and the
    message list is present with a non-empty last content, it returns. *)
Theorem X13_variant_absorbs_no_failure :
  forall (num : Type) (NUM : Number num) (env : @Variant.Collaborators num)
         (request : Request.t),
    (forall params,
        Variant.outcome_of (Variant.processUserQuery env request) = Ok params ->
        Forall (answered env)
          (Variant.calls_of
             (Variant.trace_of (Variant.processUserQuery env request))))
    /\ ((forall r, answered env r) ->
        forall msgs,
          Request.messages request = Some msgs ->
          variant_query msgs <> [] ->
          exists params,
            Variant.outcome_of (Variant.processUserQuery env request)
            = Ok params).
Proof.
  intros num NUM env request. split.
  - intros params H.
    destruct (variant_processUserQuery_cases env request)
      as [(p & t & E & Ha & _)|(e & t & E & _)];
      rewrite E in *; [exact Ha|discriminate].
  - intros Hall msgs Hm Hq.
    apply (@variant_processUserQuery_total _ _ env Hall request msgs Hm Hq).
Qed.

Lemma variant_answering_answers : forall r, answered variant_answering r.
Proof.
  intros [p|q|v s|term|ids|msgs]; simpl; eauto.
  unfold index_rows. destruct (str_eqb term (js "revenue growth")); eauto.
Qed.

(** X13 on the collaborators that all answer. *)
Lemma X13_variant_absorbs_no_failure_witness :
  exists params,
    Variant.outcome_of (Variant.processUserQuery variant_answering question)
    = Ok params
    /\ Forall (answered variant_answering)
         (Variant.calls_of
            (Variant.trace_of
               (Variant.processUserQuery variant_answering question))).
Proof.
  destruct (@X13_variant_absorbs_no_failure float float64 variant_answering
              question) as [H1 H2].
  destruct (H2 variant_answering_answers
              [says Message.user "What was Q2 revenue growth?"] eq_refl)
    as [params Hp]; [discriminate|].
  exists params. split; [exact Hp|]. apply (H1 params Hp).
Defined.


(** X15. The variant checks neither the session id nor that the message
    list is non-empty.  A missing message list makes it throw at once (a
    TypeError raised by [unshift]), and a last message without content
    makes it throw [No content in last message]; in both cases the only
    effect is the failure event.  An empty message list is accepted: the
    system message is then the last message, and its text is what is sent
    to the model as the user's message. *)
Theorem X15_variant_input_edges :
  forall (num : Type) (NUM : Number num) (env : @Variant.Collaborators num)
         (request : Request.t),
    (Request.messages request = None ->
     Variant.processUserQuery env request
     = (Throw (Error (js "Cannot read properties of undefined (reading 'unshift')")),
        [Variant.Emit
           (Variant.Failure
              (js "Error processing query: Cannot read properties of undefined (reading 'unshift')"))]))
    /\ (forall msgs,
           Request.messages request = Some msgs ->
           variant_query msgs = [] ->
           Variant.processUserQuery env request
           = (Throw (Error (js "No content in last message")),
              [Variant.Emit
                 (Variant.Failure
                    (js "Error processing query: No content in last message"))]))
    /\ (Request.messages request = Some [] ->
        exists t,
          Variant.trace_of (Variant.processUserQuery env request)
          = Variant.Emit (Variant.Status (js "Rewriting message to queries..."))
            :: Variant.Call
                 (Variant.RunModel
                    (Variant.rewrite_prompt Variant.SYSTEM_MESSAGE))
            :: t).
Proof.
  intros num NUM env request.
  pose proof (variant_processUserQuery_rejected env request) as R.
  split; [|split].
  - intros Hm. rewrite Hm in R. exact R.
  - intros msgs Hm Hq. rewrite Hm in R. apply R. exact Hq.
  - intros Hm.
    assert (Hq : variant_query [] <> []) by discriminate.
    rewrite (variant_processUserQuery_run env request Hm Hq). cbv zeta.
    change (variant_query []) with Variant.SYSTEM_MESSAGE.
    rewrite variant_rewriteToQueries_eq.
    unfold Variant.trace_of.
    repeat match goal with
           | |- context [match ?x with _ => _ end] => destruct x
           end; cbn [snd app]; eexists; reflexivity.
Qed.

(** X15 on the request with an empty message list and no session. *)
Lemma X15_variant_input_edges_witness :
  exists t,
    Variant.trace_of (Variant.processUserQuery variant_answering empty_request)
    = Variant.Emit (Variant.Status (js "Rewriting message to queries..."))
      :: Variant.Call
           (Variant.RunModel (Variant.rewrite_prompt Variant.SYSTEM_MESSAGE))
      :: t.
Proof.
  apply (proj2 (proj2 (@X15_variant_input_edges float float64
                         variant_answering empty_request))).
  reflexivity.
Defined.





(** X19. The handler pushes every chunk of the generation stream without
    its first five code units, in order and as it is (not wrapped in an
    object), and nothing else this way.  A failure, of the coordinator or
    of the generation, is reported by one event whose error is the bare
    message of what was thrown. *)
Theorem X19_handler_forwards_chunks :
  forall (num : Type) (NUM : Number num) (env : @Variant.Collaborators num)
         (coordinator : Request.t -> @Variant.M num Variant.Params.t)
         (messages : list Message.t) (sessionId : jsstring),
    let run := coordinator {| Request.sessionId := Some sessionId;
                              Request.messages := Some messages |} in
    let trace :=
      Variant.trace_of (Variant.handler env coordinator messages sessionId) in
    match Variant.outcome_of run with
    | Throw e =>
        Variant.pushes_of trace = Variant.pushes_of (Variant.trace_of run)
        /\ Variant.events_of trace
           = Variant.events_of (Variant.trace_of run)
             ++ [Variant.Failure (message_of e)]
    | Ok params =>
        match Variant.AI_run_stream env (Variant.Params.messages params) with
        | Throw e =>
            Variant.pushes_of trace = Variant.pushes_of (Variant.trace_of run)
            /\ Variant.events_of trace
               = Variant.events_of (Variant.trace_of run)
                 ++ [Variant.Failure (message_of e)]
        | Ok (chunks, failure) =>
            Variant.pushes_of trace
            = Variant.pushes_of (Variant.trace_of run)
              ++ map (skipn 5) chunks
            /\ Variant.events_of trace
               = Variant.events_of (Variant.trace_of run)
                 ++ match failure with
                    | Some e => [Variant.Failure (message_of e)]
                    | None => []
                    end
        end
    end.
Proof.
  intros num NUM env coordinator messages sid run trace. subst run trace.
  rewrite handler_run. cbv zeta.
  repeat match goal with
         | |- context [Variant.trace_of (Ok tt, ?x)] =>
             change (Variant.trace_of (Ok tt, x)) with x
         end.
  assert (Hp : forall chunks : list jsstring,
             Variant.pushes_of
               (map (fun value => @Variant.Push num (skipn 5 value)) chunks)
             = map (skipn 5) chunks
             /\ Variant.events_of
                  (map (fun value => @Variant.Push num (skipn 5 value)) chunks)
                = []).
  { induction chunks as [|c cs [IH1 IH2]];
      cbn [map Variant.pushes_of Variant.events_of]; [auto|].
    rewrite IH1. auto. }
  destruct (Variant.outcome_of (coordinator _)) as [params|e].
  - destruct (Variant.AI_run_stream env (Variant.Params.messages params))
      as [[chunks [e|]]|e];
      repeat (rewrite ?variant_pushes_of_app, ?variant_events_of_app;
              cbn [Variant.pushes_of Variant.events_of handler_failure app]);
      rewrite ?(proj1 (Hp chunks)), ?(proj2 (Hp chunks));
      cbn [app]; rewrite ?app_nil_r; split; reflexivity.
  - repeat (rewrite ?variant_pushes_of_app, ?variant_events_of_app;
            cbn [Variant.pushes_of Variant.events_of handler_failure app]).
    rewrite ?app_nil_r. split; reflexivity.
Qed.

Lemma kept_lines_truthy (response : jsstring) :
  filter str_truthy (Variant.kept_lines response)
  = Variant.kept_lines response.
Proof.
  destruct (kept_lines_spec response) as [_ H].
  induction (Variant.kept_lines response) as [|q qs IH]; [reflexivity|].
  inversion H as [|? ? [Hq _] Hqs]; subst. simpl.
  destruct q as [|c q]; [exfalso; apply Hq; reflexivity|].
  simpl. f_equal. apply IH. exact Hqs.
Qed.


